(** * Ghost frames: a model of [code.ts] and its specification

    The plugin walks the selected nodes of a design document, detaches
    component instances and replaces every text node by a placeholder
    rectangle.  The document lives in the host (the plugin runtime); the
    program only holds references to nodes and mutates the document through
    host calls.  The model therefore keeps the document as a store of node
    records addressed by node identifiers, threads it through a state and
    exception monad, and writes the program in that monad, statement by
    statement.

    Numbers are modelled by exact rationals ([Q]); the two values singled out
    by the specification are also evaluated in binary64. *)

From stdpp Require Import gmap strings list.
From Stdlib Require Import QArith Qminmax Lqa Floats.

Close Scope Q_scope.

Set Default Proof Using "Type".

(** ** Values of the host document model *)

Abbreviation NodeId := nat.

Inductive NodeType :=
  | PAGE | FRAME | GROUP | COMPONENT | INSTANCE | TEXT | RECTANGLE | VECTOR.

Global Instance NodeType_eq_dec : EqDecision NodeType.
Proof. solve_decision. Defined.

Inductive PaintType := SOLID | GRADIENT_LINEAR | IMAGE.

Record RGB := mkRGB { rgb_r : Q; rgb_g : Q; rgb_b : Q }.

Record Paint := mkPaint {
  paint_type : PaintType;
  paint_color : RGB;
  paint_opacity : Q }.

(** [fills] of a text node is either an array of paints or the host's
    [figma.mixed] symbol; [Array.isArray] tells them apart. *)
Inductive FillsValue := MixedFills | PaintArray (paints : list Paint).

(** [fontSize] is a number or [figma.mixed]. *)
Inductive FontSizeValue := SizeMixed | SizeNumber (q : Q).

(** One entry of [getStyledTextSegments(["fills"])]. *)
Record StyledTextSegment := mkSegment {
  seg_start : nat;
  seg_end : nat;
  seg_fills : FillsValue }.

(** A node of the document.  [children] is [None] for the node types that
    have no [children] property.  The text properties are read on text
    nodes only. *)
Record Node := mkNode {
  type : NodeType;
  name : string;
  x : Q;
  y : Q;
  width : Q;
  height : Q;
  parent : option NodeId;
  children : option (list NodeId);
  fills : FillsValue;
  opacity : Q;
  cornerRadius : Q;
  characters : string;
  fontSize : FontSizeValue;
  segments : list StyledTextSegment }.

Definition set_name (v : string) (n : Node) : Node :=
  mkNode (type n) v (x n) (y n) (width n) (height n) (parent n) (children n)
         (fills n) (opacity n) (cornerRadius n) (characters n) (fontSize n) (segments n).
Definition set_x (v : Q) (n : Node) : Node :=
  mkNode (type n) (name n) v (y n) (width n) (height n) (parent n) (children n)
         (fills n) (opacity n) (cornerRadius n) (characters n) (fontSize n) (segments n).
Definition set_y (v : Q) (n : Node) : Node :=
  mkNode (type n) (name n) (x n) v (width n) (height n) (parent n) (children n)
         (fills n) (opacity n) (cornerRadius n) (characters n) (fontSize n) (segments n).
Definition set_size (w h : Q) (n : Node) : Node :=
  mkNode (type n) (name n) (x n) (y n) w h (parent n) (children n)
         (fills n) (opacity n) (cornerRadius n) (characters n) (fontSize n) (segments n).
Definition set_parent (v : option NodeId) (n : Node) : Node :=
  mkNode (type n) (name n) (x n) (y n) (width n) (height n) v (children n)
         (fills n) (opacity n) (cornerRadius n) (characters n) (fontSize n) (segments n).
Definition set_children (v : option (list NodeId)) (n : Node) : Node :=
  mkNode (type n) (name n) (x n) (y n) (width n) (height n) (parent n) v
         (fills n) (opacity n) (cornerRadius n) (characters n) (fontSize n) (segments n).
Definition set_fills (v : FillsValue) (n : Node) : Node :=
  mkNode (type n) (name n) (x n) (y n) (width n) (height n) (parent n) (children n)
         v (opacity n) (cornerRadius n) (characters n) (fontSize n) (segments n).
Definition set_opacity (v : Q) (n : Node) : Node :=
  mkNode (type n) (name n) (x n) (y n) (width n) (height n) (parent n) (children n)
         (fills n) v (cornerRadius n) (characters n) (fontSize n) (segments n).
Definition set_cornerRadius (v : Q) (n : Node) : Node :=
  mkNode (type n) (name n) (x n) (y n) (width n) (height n) (parent n) (children n)
         (fills n) (opacity n) v (characters n) (fontSize n) (segments n).
Definition set_type (v : NodeType) (n : Node) : Node :=
  mkNode v (name n) (x n) (y n) (width n) (height n) (parent n) (children n)
         (fills n) (opacity n) (cornerRadius n) (characters n) (fontSize n) (segments n).

(** ** Configuration ([CONFIG], code.ts lines 4-9) *)

Record Config := mkConfig {
  defaultCornerRadius : Q;
  defaultOpacity : Q;
  minOpacity : Q;
  maxOpacity : Q }.

Definition CONFIG : Config :=
  {| defaultCornerRadius := 4;
     defaultOpacity := 0.2;
     minOpacity := 0.1;
     maxOpacity := 0.4 |}.

(** ** [calculateOpacity] (code.ts lines 30-41)

    [Math.min] and [Math.max] are [Qmin] and [Qmax]; [textNode.characters.length]
    is the length of the string. *)

Definition calculateOpacity (textNode : Node) : Q :=
  let baseOpacity := defaultOpacity CONFIG in
  let textLength := inject_Z (Z.of_nat (String.length (characters textNode))) in
  let fontSize := match fontSize textNode with SizeNumber q => q | SizeMixed => 14%Q end in
  let opacity := baseOpacity in
  let opacity := (opacity * Qmin 1 (Qmax 0.5 (fontSize / 24)))%Q in
  let opacity := (opacity * Qmin 1 (Qmax 0.7 (textLength / 50)))%Q in
  Qmin (Qmax opacity (minOpacity CONFIG)) (maxOpacity CONFIG).

(** The reference formula of the specification, written from its words:
    [clamp(base * sizeFactor * lengthFactor, 0.1, 0.4)]. *)

Definition clamp (v lo hi : Q) : Q :=
  if Qlt_le_dec v lo then lo else if Qlt_le_dec hi v then hi else v.

Definition spec_opacity (fontSize : FontSizeValue) (characterCount : nat) : Q :=
  let base := 0.2%Q in
  let fs := match fontSize with SizeNumber q => q | SizeMixed => 14%Q end in
  let sizeFactor := clamp (fs / 24)%Q 0.5 1 in
  let lengthFactor := clamp (inject_Z (Z.of_nat characterCount) / 50)%Q 0.7 1 in
  clamp (base * sizeFactor * lengthFactor)%Q 0.1 0.4.

(** The same expression as [calculateOpacity] evaluated in IEEE 754 binary64,
    the arithmetic of the host language.  [Math.min] and [Math.max] return
    NaN as soon as one argument is NaN. *)

Definition Math_max (a b : float) : float :=
  if PrimFloat.is_nan a then a
  else if PrimFloat.is_nan b then b
  else if PrimFloat.ltb a b then b else a.

Definition Math_min (a b : float) : float :=
  if PrimFloat.is_nan a then a
  else if PrimFloat.is_nan b then b
  else if PrimFloat.ltb b a then b else a.

Definition calculateOpacity_f64 (fontSize : option float) (textLength : float) : float :=
  let baseOpacity := 0x1.999999999999ap-3%float in
  let fontSize := match fontSize with Some f => f | None => 14%float end in
  let opacity := baseOpacity in
  let opacity := PrimFloat.mul opacity (Math_min 1 (Math_max 0.5 (PrimFloat.div fontSize 24))) in
  let opacity := PrimFloat.mul opacity
                   (Math_min 1 (Math_max 0x1.6666666666666p-1 (PrimFloat.div textLength 50))) in
  Math_min (Math_max opacity 0x1.999999999999ap-4) 0x1.999999999999ap-2.

(** A text node with the given font size and [len] characters. *)
Definition sample_text (fs : FontSizeValue) (len : nat) : Node :=
  {| type := TEXT; name := "Label"; x := 0; y := 0; width := 10; height := 10;
     parent := None; children := None; fills := PaintArray []; opacity := 1;
     cornerRadius := 0; characters := String.concat "" (replicate len "a"%string);
     fontSize := fs; segments := [] |}.

Definition set_fontSize (v : FontSizeValue) (n : Node) : Node :=
  mkNode (type n) (name n) (x n) (y n) (width n) (height n) (parent n) (children n)
         (fills n) (opacity n) (cornerRadius n) (characters n) v (segments n).
Definition set_characters (v : string) (n : Node) : Node :=
  mkNode (type n) (name n) (x n) (y n) (width n) (height n) (parent n) (children n)
         (fills n) (opacity n) (cornerRadius n) v (fontSize n) (segments n).

Definition sizeFactor (q : Q) : Q := Qmin 1 (Qmax 0.5 (q / 24))%Q.
Definition lengthFactor (len : nat) : Q :=
  Qmin 1 (Qmax 0.7 (inject_Z (Z.of_nat len) / 50))%Q.
Definition numericSize (fs : FontSizeValue) : Q := match fs with SizeNumber q => q | SizeMixed => 14%Q end.

(** ** The document store and the plugin's view of the host *)

(** Host methods called by the plugin.  Each call may be rejected by the
    host. *)
Inductive HostCall :=
  | LoadFontAsync | GetStyledTextSegments | CreateRectangle | Resize
  | InsertChild | Remove | DetachInstance.

Inductive Error :=
  | HostError (call : HostCall)
  | TypeError.

(** How a statement completes: normally, by a thrown error, or not at all
    within the recursion budget of the model. *)
Inductive Completion (A : Type) :=
  | Normal (a : A)
  | Throw (e : Error)
  | OutOfFuel.
Arguments Normal {A} a.
Arguments Throw {A} e.
Arguments OutOfFuel {A}.

(** The document and the session: the node records, the allocator of node
    identifiers, the current page and selection, what was written to the
    console and shown to the user, how often [closePlugin] was called, and
    the number of host methods called so far. *)
Record Doc := mkDoc {
  nodes : gmap NodeId Node;
  nextId : NodeId;
  currentPage : NodeId;
  selection : list NodeId;
  console : list (string * Error);
  notifications : list string;
  closeCalls : nat;
  calls : nat }.

Definition set_nodes (m : gmap NodeId Node) (d : Doc) : Doc :=
  mkDoc m (nextId d) (currentPage d) (selection d) (console d) (notifications d)
        (closeCalls d) (calls d).
Definition set_nextId (v : NodeId) (d : Doc) : Doc :=
  mkDoc (nodes d) v (currentPage d) (selection d) (console d) (notifications d)
        (closeCalls d) (calls d).
Definition log_console (entry : string * Error) (d : Doc) : Doc :=
  mkDoc (nodes d) (nextId d) (currentPage d) (selection d) (console d ++ [entry])
        (notifications d) (closeCalls d) (calls d).
Definition push_notification (msg : string) (d : Doc) : Doc :=
  mkDoc (nodes d) (nextId d) (currentPage d) (selection d) (console d)
        (notifications d ++ [msg]) (closeCalls d) (calls d).
Definition count_close (d : Doc) : Doc :=
  mkDoc (nodes d) (nextId d) (currentPage d) (selection d) (console d)
        (notifications d) (S (closeCalls d)) (calls d).
Definition tick (d : Doc) : Doc :=
  mkDoc (nodes d) (nextId d) (currentPage d) (selection d) (console d)
        (notifications d) (closeCalls d) (S (calls d)).

(** *** Pure operations of the host on the node store *)

(** [Array.prototype.indexOf]: the first index of [n], or -1. *)
Fixpoint indexOf_from (l : list NodeId) (n : NodeId) (i : Z) : Z :=
  match l with
  | [] => (-1)%Z
  | a :: l' => if decide (a = n) then i else indexOf_from l' n (i + 1)%Z
  end.
Definition indexOf (l : list NodeId) (n : NodeId) : Z := indexOf_from l n 0.

(** [array[index]] for a possibly negative index. *)
Definition at_index (l : list NodeId) (index : Z) : option NodeId :=
  if decide (0 ≤ index)%Z then l !! Z.to_nat index else None.

Definition without (c : NodeId) (l : list NodeId) : list NodeId :=
  filter (λ a, a ≠ c) l.

Definition insert_at (i : nat) (c : NodeId) (l : list NodeId) : list NodeId :=
  take i l ++ c :: drop i l.

(** Take [c] out of the child list of its parent. *)
Definition unlink (c : NodeId) (m : gmap NodeId Node) : gmap NodeId Node :=
  match m !! c with
  | Some cn =>
      match parent cn with
      | Some p => alter (λ pn, set_children (without c <$> children pn) pn) p m
      | None => m
      end
  | None => m
  end.

(** A fresh rectangle as the host creates it: 100 by 100 at the origin, with
    the default grey fill. *)
Definition new_rectangle (page : NodeId) : Node :=
  {| type := RECTANGLE; name := "Rectangle"; x := 0; y := 0; width := 100; height := 100;
     parent := Some page; children := None;
     fills := PaintArray [mkPaint SOLID (mkRGB 0.85 0.85 0.85) 1];
     opacity := 1; cornerRadius := 0; characters := ""; fontSize := SizeNumber 0;
     segments := [] |}.

(** [figma.createRectangle()]: the new node is appended to the current page. *)
Definition host_createRectangle (g page : NodeId) (m : gmap NodeId Node) : gmap NodeId Node :=
  <[g := new_rectangle page]>
    (alter (λ pn, set_children ((λ l, l ++ [g]) <$> children pn) pn) page m).

(** [p.insertChild(index, c)]: [c] leaves its present parent and becomes the
    child of [p] at [index]; the host rejects an index outside the list. *)
Definition host_insertChild (p : NodeId) (index : Z) (c : NodeId)
    (m : gmap NodeId Node) : option (gmap NodeId Node) :=
  _ ← m !! c;
  let m1 := unlink c m in
  pn ← m1 !! p;
  cs ← children pn;
  if decide (0 ≤ index ≤ Z.of_nat (length cs))%Z then
    Some (alter (set_parent (Some p)) c
            (<[p := set_children (Some (insert_at (Z.to_nat index) c cs)) pn]> m1))
  else None.

(** [n.remove()]: [n] leaves its parent; its parent link becomes null. *)
Definition host_remove (n : NodeId) (m : gmap NodeId Node) : option (gmap NodeId Node) :=
  _ ← m !! n;
  Some (alter (set_parent None) n (unlink n m)).

(** The children in [kids] get [f] as their parent. *)
Definition adopt (f : NodeId) (kids : list NodeId) (m : gmap NodeId Node)
    : gmap NodeId Node :=
  map_imap (λ k kn, Some (if decide (k ∈ kids) then set_parent (Some f) kn else kn)) m.

(** [n.detachInstance()]: the instance is destroyed (its parent link becomes
    null) and a frame with a fresh identifier and the instance's appearance
    takes its place in the parent's child list.  The frame holds the
    instance's former children; the model moves them under the frame, which
    stands for the clones the host makes of them.  The host rejects the call
    on a node that is not an instance or not in its parent's child list. *)
Definition host_detachInstance (n f : NodeId) (m : gmap NodeId Node)
    : option (gmap NodeId Node) :=
  nn ← m !! n;
  if decide (type nn = INSTANCE) then
    p ← parent nn;
    pn ← m !! p;
    cs ← children pn;
    let i := indexOf cs n in
    kids ← children nn;
    if decide (0 ≤ i)%Z then
      Some (<[f := set_children (Some kids) (set_type FRAME nn)]>
              (<[n := set_children (Some []) (set_parent None nn)]>
                 (<[p := set_children (Some (<[Z.to_nat i := f]> cs)) pn]>
                    (adopt f kids m))))
    else None
  else None.

(** ** The monad of the plugin: state and exceptions *)

Definition M (A : Type) : Type := Doc → Doc * Completion A.

Definition ret {A} (a : A) : M A := λ d, (d, Normal a).

Definition bind {A B} (m : M A) (k : A → M B) : M B := λ d,
  match m d with
  | (d1, Normal a) => k a d1
  | (d1, Throw e) => (d1, Throw e)
  | (d1, OutOfFuel) => (d1, OutOfFuel)
  end.

Notation "'let*' x := m 'in' k" := (bind m (λ x, k))
  (at level 10, x pattern, m at level 100, k at level 200).

Definition throw {A} (e : Error) : M A := λ d, (d, Throw e).

(** [try { body } catch (error) { handler }] *)
Definition try_catch {A} (body : M A) (handler : Error → M A) : M A := λ d,
  match body d with
  | (d1, Throw e) => handler e d1
  | r => r
  end.

(** [try { body } finally { cleanup }] *)
Definition try_finally {A} (body : M A) (cleanup : M unit) : M A := λ d,
  match body d with
  | (d1, r) =>
      match cleanup d1 with
      | (d2, Normal _) => (d2, r)
      | (d2, Throw e) => (d2, Throw e)
      | (d2, OutOfFuel) => (d2, OutOfFuel)
      end
  end.

(** [for (const a of l) { await f(a); }] *)
Fixpoint for_each {A} (f : A → M unit) (l : list A) : M unit :=
  match l with
  | [] => ret tt
  | a :: l' => let* _ := f a in for_each f l'
  end.

(** Reading a property of a node through a reference. *)
Definition read {A} (n : NodeId) (prop : Node → A) : M A := λ d,
  match nodes d !! n with
  | Some nn => (d, Normal (prop nn))
  | None => (d, Throw TypeError)
  end.

(** Assigning a property of a node through a reference. *)
Definition assign (n : NodeId) (upd : Node → Node) : M unit := λ d,
  match nodes d !! n with
  | Some nn => (set_nodes (<[n := upd nn]> (nodes d)) d, Normal tt)
  | None => (d, Throw TypeError)
  end.

(** [console.error(msg, error)] *)
Definition console_error (msg : string) (e : Error) : M unit := λ d,
  (log_console (msg, e) d, Normal tt).

(** [figma.notify(msg)] *)
Definition notify (msg : string) : M unit := λ d, (push_notification msg d, Normal tt).

(** [figma.closePlugin()] *)
Definition closePlugin : M unit := λ d, (count_close d, Normal tt).

Section Plugin.

(** The host decides which of the calls made to it fail: [fault k] tells
    whether the call number [k] of the session is rejected. *)
Variable fault : nat → bool.

(** A host method: counted, and rejected when the host says so or when the
    operation is not applicable. *)
Definition host_call (c : HostCall) (op : Doc → option Doc) : M unit := λ d,
  if fault (calls d) then (tick d, Throw (HostError c))
  else match op (tick d) with
       | Some d' => (d', Normal tt)
       | None => (tick d, Throw (HostError c))
       end.

Definition on_nodes (f : gmap NodeId Node → option (gmap NodeId Node)) (d : Doc)
    : option Doc :=
  m ← f (nodes d); Some (set_nodes m d).

Definition loadFontAsync (n : NodeId) : M unit :=
  host_call LoadFontAsync (λ d, _ ← nodes d !! n; Some d).

Definition getStyledTextSegments (n : NodeId) : M (list StyledTextSegment) :=
  let* _ := host_call GetStyledTextSegments (λ d, _ ← nodes d !! n; Some d) in
  read n segments.

Definition createRectangle : M NodeId := λ d,
  let g := nextId d in
  bind (host_call CreateRectangle (λ d,
          Some (set_nextId (S g) (set_nodes (host_createRectangle g (currentPage d) (nodes d)) d))))
       (λ _, ret g) d.

Definition resize (n : NodeId) (w h : Q) : M unit :=
  host_call Resize (on_nodes (λ m, nn ← m !! n; Some (<[n := set_size w h nn]> m))).

Definition insertChild (p : NodeId) (index : Z) (c : NodeId) : M unit :=
  host_call InsertChild (on_nodes (host_insertChild p index c)).

Definition remove (n : NodeId) : M unit :=
  host_call Remove (on_nodes (host_remove n)).

Definition detachInstance (n : NodeId) : M unit :=
  host_call DetachInstance (λ d,
    m ← host_detachInstance n (nextId d) (nodes d);
    Some (set_nextId (S (nextId d)) (set_nodes m d))).

(** [parent.children] where [parent] is a node reference: a [TypeError]
    when the node has no such property. *)
Definition read_children (p : NodeId) : M (list NodeId) :=
  let* cs := read p children in
  match cs with
  | Some l => ret l
  | None => throw TypeError
  end.

(** ** [getTextColor] (code.ts lines 12-27) *)

(** The loop of lines 18-22: the fills of the first segment whose [fills]
    is a non-empty array. *)
Fixpoint first_segment_fills (segs : list StyledTextSegment) : option (list Paint) :=
  match segs with
  | [] => None
  | segment :: rest =>
      match seg_fills segment with
      | PaintArray (p :: ps) => Some (p :: ps)
      | _ => first_segment_fills rest
      end
  end.

Definition black : Paint := mkPaint SOLID (mkRGB 0 0 0) 1.

Definition getTextColor (textNode : NodeId) : M (list Paint) :=
  let* _ := loadFontAsync textNode in
  let* styled := getStyledTextSegments textNode in
  let* found :=
    (if decide (1 < length styled) then
       let* segs := getStyledTextSegments textNode in
       ret (first_segment_fills segs)
     else ret None) in
  match found with
  | Some paints => ret paints
  | None =>
      let* f := read textNode fills in
      match f with
      | PaintArray (p :: ps) => ret (p :: ps)
      | _ => ret [black]
      end
  end.

(** A fill value that is a non-empty array. *)
Definition usable (f : FillsValue) : bool :=
  match f with PaintArray (_ :: _) => true | _ => false end.

(** What [getTextColor] returns for a text node with record [nn] when the
    host accepts its calls. *)
Definition textColor (nn : Node) : list Paint :=
  match (if decide (1 < length (segments nn)) then first_segment_fills (segments nn)
         else None) with
  | Some paints => paints
  | None =>
      match fills nn with
      | PaintArray (p :: ps) => p :: ps
      | _ => [black]
      end
  end.

(** ** [getChildren] (code.ts lines 44-49) *)

Definition getChildren (node : NodeId) : M (list NodeId) :=
  let* cs := read node children in
  match cs with
  | Some l => ret l
  | None => ret []
  end.

(** ** [processNode] (code.ts lines 52-112)

    The recursion follows the document, which the function itself changes;
    the model bounds the depth of the recursion by [fuel]. *)

Definition quote : string := String (Ascii.ascii_of_nat 34) EmptyString.

Definition error_message (node_name : string) : string :=
  "Error processing node " +:+ quote +:+ node_name +:+ quote +:+ ":".

Definition convert_text (node : NodeId) : M unit :=
  let* ghostRect := createRectangle in
  let* node_name := read node name in
  let* _ := assign ghostRect (set_name ("Ghost_" +:+ node_name)) in
  let* w := read node width in
  let* h := read node height in
  let* _ := resize ghostRect w h in
  let* textColor := getTextColor node in
  let* _ := assign ghostRect (set_fills (PaintArray textColor)) in
  let* op := read node calculateOpacity in
  let* _ := assign ghostRect (set_opacity op) in
  let* node_x := read node x in
  let* _ := assign ghostRect (set_x node_x) in
  let* node_y := read node y in
  let* _ := assign ghostRect (set_y node_y) in
  let* _ := assign ghostRect (set_cornerRadius (defaultCornerRadius CONFIG)) in
  let* node_parent := read node parent in
  let* _ :=
    match node_parent with
    | Some p =>
        let* siblings := read_children p in
        insertChild p (indexOf siblings node) ghostRect
    | None => ret tt
    end in
  remove node.

Definition detach_and_visit (visit : NodeId → M unit) (node parent_ : NodeId) : M unit :=
  let* siblings := read_children parent_ in
  let index := indexOf siblings node in
  let* _ := detachInstance node in
  let* siblings' := read_children parent_ in
  match at_index siblings' index with
  | Some detachedFrame =>
      let* kids := getChildren detachedFrame in
      for_each visit kids
  | None => ret tt
  end.

Definition processNode_body (visit : NodeId → M unit) (node : NodeId) : M unit :=
  let* node_parent := read node parent in
  match node_parent with
  | None => ret tt
  | Some parent_ =>
      let* node_type := read node type in
      if decide (node_type = INSTANCE) then detach_and_visit visit node parent_
      else if decide (node_type = TEXT) then convert_text node
      else
        let* kids := getChildren node in
        for_each visit kids
  end.

Fixpoint processNode (fuel : nat) (node : NodeId) : M unit :=
  match fuel with
  | O => λ d, (d, OutOfFuel)
  | S fuel' =>
      try_catch (processNode_body (processNode fuel') node)
        (λ error,
           let* node_name := read node name in
           console_error (error_message node_name) error)
  end.

(** ** The main program (code.ts lines 115-137) *)

Definition guidance : string := "Please select at least one frame or element".
Definition failure : string := "An error occurred while processing".
Definition success : string := "Successfully converted text to ghost frames! 👻".

Definition main (fuel : nat) : M unit :=
  try_finally
    (try_catch
       (λ d,
          let selection := selection d in
          if decide (length selection = 0) then
            (let* _ := notify guidance in
             let* _ := closePlugin in
             ret tt) d
          else
            (let* _ := for_each (processNode fuel) selection in
             notify success) d)
       (λ error,
          let* _ := console_error "Plugin error:" error in
          notify failure))
    closePlugin.

End Plugin.

(** The host accepts every call made from state [d] on. *)
Definition quiet (fault : nat → bool) (d : Doc) : Prop :=
  ∀ k, calls d ≤ k → fault k = false.

(** The session after [k] more host calls that leave the document alone. *)
Definition ticks (k : nat) (d : Doc) : Doc :=
  mkDoc (nodes d) (nextId d) (currentPage d) (selection d) (console d)
        (notifications d) (closeCalls d) (k + calls d).

(** The placeholder that replaces a text node with record [nn] under parent
    [p]: the rectangle of [createRectangle] after the assignments of
    [convert_text]. *)
Definition ghost_of (nn : Node) (p : NodeId) : Node :=
  {| type := RECTANGLE; name := "Ghost_" +:+ name nn;
     x := x nn; y := y nn; width := width nn; height := height nn;
     parent := Some p; children := None;
     fills := PaintArray (textColor nn); opacity := calculateOpacity nn;
     cornerRadius := defaultCornerRadius CONFIG;
     characters := ""; fontSize := SizeNumber 0; segments := [] |}.

(** ** Sample documents *)

Definition blue : Paint := mkPaint SOLID (mkRGB 0 0 1) 1.
Definition red : Paint := mkPaint SOLID (mkRGB 1 0 0) 1.

Definition sample_node (t : NodeType) (nm : string) (p : option NodeId)
    (cs : option (list NodeId)) : Node :=
  {| type := t; name := nm; x := 16; y := 24; width := 120; height := 18;
     parent := p; children := cs; fills := PaintArray [blue]; opacity := 1;
     cornerRadius := 0; characters := "Hello, world"; fontSize := SizeNumber 12;
     segments := [mkSegment 0 12 (PaintArray [blue])] |}.

(** A text node with two styled segments, the first without fills. *)
Definition two_tone (own : FillsValue) (second : FillsValue) (p : option NodeId) : Node :=
  {| type := TEXT; name := "Badge"; x := 0; y := 0; width := 40; height := 10;
     parent := p; children := None; fills := own; opacity := 1;
     cornerRadius := 0; characters := "New!"; fontSize := SizeMixed;
     segments := [mkSegment 0 2 (PaintArray []); mkSegment 2 4 second] |}.

(** Page 0 holds frame 1; frame 1 holds a text, an instance and a rectangle;
    the instance holds a text and a frame with one more text. *)
Definition sample_nodes : gmap NodeId Node :=
  list_to_map
    [ (0, sample_node PAGE "Page" None (Some [1]));
      (1, sample_node FRAME "Card" (Some 0) (Some [2; 3; 4]));
      (2, sample_node TEXT "Title" (Some 1) None);
      (3, sample_node INSTANCE "Button" (Some 1) (Some [5; 6]));
      (4, sample_node RECTANGLE "Divider" (Some 1) None);
      (5, sample_node TEXT "Caption" (Some 3) None);
      (6, sample_node FRAME "Inner" (Some 3) (Some [7]));
      (7, sample_node TEXT "Deep" (Some 6) None) ].

Definition sample_doc (sel : list NodeId) : Doc :=
  {| nodes := sample_nodes; nextId := 8; currentPage := 0; selection := sel;
     console := []; notifications := []; closeCalls := 0; calls := 0 |}.

Definition badge_doc (own second : FillsValue) : Doc :=
  {| nodes := list_to_map [ (0, sample_node PAGE "Page" None (Some [1]));
                            (1, two_tone own second (Some 0)) ];
     nextId := 2; currentPage := 0; selection := [1];
     console := []; notifications := []; closeCalls := 0; calls := 0 |}.

Definition no_fault : nat → bool := λ _, false.

(** ** The shape of the document

    The host keeps the document as a tree: the children of a node are
    distinct, each child points back to its parent, and node identifiers are
    handed out in increasing order.  The following predicates state the part
    of this that the program relies on. *)

(** Node types that have a [children] property. *)
Definition container (t : NodeType) : bool :=
  match t with
  | PAGE | FRAME | GROUP | COMPONENT | INSTANCE => true
  | TEXT | RECTANGLE | VECTOR => false
  end.

Definition typed (kn : Node) : Prop :=
  is_Some (children kn) ↔ container (type kn) = true.

(** Every identifier in use lies below the allocator. *)
Definition within (bound : NodeId) (k : NodeId) (kn : Node) : Prop :=
  k < bound ∧
  match children kn with
  | Some cs => Forall (λ c, c < bound) cs
  | None => True
  end.

Definition bounded (d : Doc) : Prop := map_Forall (within (nextId d)) (nodes d).

Global Instance within_dec bound k kn : Decision (within bound k kn).
Proof. unfold within. destruct (children kn); apply _. Defined.

Global Instance bounded_dec d : Decision (bounded d).
Proof. unfold bounded. apply _. Defined.

(** The current page is a root with a child list. *)
Definition page_ok (d : Doc) : Prop :=
  match nodes d !! currentPage d with
  | Some qn => parent qn = None ∧ is_Some (children qn)
  | None => False
  end.

(** The part of the document below a node, as a tree of node identifiers. *)
Unset Elimination Schemes.
Inductive Tree := TNode (id : NodeId) (kids : list Tree).
Set Elimination Schemes.

Definition root (t : Tree) : NodeId := match t with TNode k _ => k end.

Fixpoint ids (t : Tree) : list NodeId :=
  match t with
  | TNode k kids => k :: flat_map ids kids
  end.

Fixpoint depth (t : Tree) : nat :=
  match t with
  | TNode _ kids => S (foldr (λ t' h, Nat.max (depth t') h) 0 kids)
  end.

(** [subtree m p t]: in the store [m], [t] is the tree of the node [root t],
    which is a child of [p]. *)
Unset Elimination Schemes.
Inductive subtree (m : gmap NodeId Node) : NodeId → Tree → Prop :=
  | subtree_node p k kn kids :
      m !! k = Some kn →
      parent kn = Some p →
      typed kn →
      children kn = (if container (type kn) then Some (root <$> kids) else None) →
      (container (type kn) = false → kids = []) →
      Forall (subtree m k) kids →
      subtree m p (TNode k kids).
Set Elimination Schemes.

(** The tree below frame 1 of the sample document, and below its instance. *)
Definition sample_tree : Tree :=
  TNode 1 [TNode 2 []; TNode 3 [TNode 5 []; TNode 6 [TNode 7 []]]; TNode 4 []].
Definition sample_instance_kids : list Tree := [TNode 5 []; TNode 6 [TNode 7 []]].

(** The session after the host detached the instance [n], the child of [p]
    at index [i]: a frame with the fresh identifier holds the children. *)
Definition detached (d : Doc) (n : NodeId) (nn : Node) (p : NodeId) (pn : Node)
    (cs : list NodeId) (i : nat) (ks : list NodeId) : Doc :=
  set_nextId (S (nextId d))
    (set_nodes
       (<[nextId d := set_children (Some ks) (set_type FRAME nn)]>
          (<[n := set_children (Some []) (set_parent None nn)]>
             (<[p := set_children (Some (<[i := nextId d]> cs)) pn]>
                (adopt (nextId d) ks (nodes d)))))
       (tick d)).

(** What a visit of the subtree [t], the child of [p] at index [i], leaves
    behind when the host accepts every call: the node [r] now at index [i],
    an untouched rest of the document, and a placeholder in place of a text
    node. *)
Record visited (d d' : Doc) (p : NodeId) (pn : Node) (cs : list NodeId) (i : nat)
    (t : Tree) (r : NodeId) : Prop := mkVisited {
  v_bounded : bounded d';
  v_page : page_ok d';
  v_page_eq : currentPage d' = currentPage d;
  v_next : nextId d ≤ nextId d';
  v_calls : calls d ≤ calls d';
  v_console : console d' = console d;
  v_frame : ∀ k, k ∉ ids t → k ≠ p → k < nextId d → nodes d' !! k = nodes d !! k;
  v_parent : nodes d' !! p = Some (set_children (Some (<[i := r]> cs)) pn);
  v_slot : r = root t ∨ nextId d ≤ r;
  v_text : ∀ nn, nodes d !! root t = Some nn → type nn = TEXT →
             r = nextId d ∧ nodes d' !! r = Some (ghost_of nn p)
             ∧ parent <$> nodes d' !! root t = Some None }.

(** What the visit of a child [t] of [k] leaves at its place in the child
    list of [k]. *)
Definition kid_visited (d d' : Doc) (k : NodeId) (t : Tree) (r : NodeId) : Prop :=
  (r = root t ∨ nextId d ≤ r)
  ∧ ∀ nn, nodes d !! root t = Some nn → type nn = TEXT →
      nextId d ≤ r ∧ nodes d' !! r = Some (ghost_of nn k)
      ∧ parent <$> nodes d' !! root t = Some None.

Definition visit_spec (fault : nat → bool) (fuel : nat) (t : Tree) : Prop :=
  ∀ d p pn cs i,
    subtree (nodes d) p t → NoDup (ids t) → p ∉ ids t →
    nodes d !! p = Some pn → children pn = Some cs →
    cs !! i = Some (root t) → (∀ j, cs !! j = Some (root t) → j = i) →
    bounded d → page_ok d → quiet fault d →
    ∃ d' r, processNode fault fuel (root t) d = (d', Normal tt)
            ∧ visited d d' p pn cs i t r.

(** ** Ranks and assertions about runs that may fail

    The recursion of [processNode] ends because the document is a tree: a
    rank that decreases from a node to its children bounds its depth.  The
    rank is kept through the changes the program makes, whichever host calls
    fail. *)

Definition ranked (rk : NodeId → nat) (d : Doc) : Prop :=
  map_Forall (λ k kn,
      k < nextId d ∧
      match children kn with
      | Some cs => 0 < rk k ∧ Forall (λ c, is_Some (nodes d !! c) ∧ rk c < rk k) cs
      | None => rk k = 0
      end) (nodes d).

Global Instance ranked_dec rk d : Decision (ranked rk d).
Proof.
  unfold ranked. apply map_Forall_dec. intros k kn.
  destruct (children kn); apply _.
Defined.

(** [d'] keeps the nodes of [d], their names and their ranks. *)
Definition extends (rk : NodeId → nat) (d : Doc) (rk' : NodeId → nat) (d' : Doc) : Prop :=
  ranked rk' d'
  ∧ ∀ k kn, nodes d !! k = Some kn →
      (∃ kn', nodes d' !! k = Some kn' ∧ name kn' = name kn) ∧ rk' k = rk k.

Definition leaf (g : NodeId) (d : Doc) : Prop :=
  ∃ gn, nodes d !! g = Some gn ∧ children gn = None.

(** The child list of [kn'] is taken from the one of [kn], up to leaves. *)
Definition child_sub (d : Doc) (kn kn' : Node) : Prop :=
  match children kn' with
  | Some cs' => ∃ cs, children kn = Some cs ∧ ∀ c, c ∈ cs' → c ∈ cs ∨ leaf c d
  | None => children kn = None
  end.

(** [triple P m Q E]: from a state in [P], the statement [m] completes
    normally in a state in [Q] or throws in a state in [E]; it does not run
    out of fuel. *)
Definition triple {A} (P : Doc → Prop) (m : M A) (Q : A → Doc → Prop)
    (E : Doc → Prop) : Prop :=
  ∀ d, P d →
    match m d with
    | (d', Normal a) => Q a d'
    | (d', Throw _) => E d'
    | (_, OutOfFuel) => False
    end.

(** Every element of the list is visited, whatever the visits do. *)
Definition visit_all (visit : NodeId → M unit) (l : list NodeId) (d : Doc) : Doc :=
  foldl (λ s c, (visit c s).1) d l.

Definition sample_rank (k : NodeId) : nat :=
  match k with
  | 0 => 4 | 1 => 3 | 3 => 2 | 6 => 1 | _ => 0
  end.

(** The states reached from [d0], ranked by [rk0], in which the nodes of
    [d0] are kept with their names and ranks; and those in which moreover the nodes of
    [l] are stored and ranked below [fuel]. *)
Definition kept (rk0 : NodeId → nat) (d0 d : Doc) : Prop :=
  ∃ rk, extends rk0 d0 rk d.

Definition ready (fuel : nat) (rk0 : NodeId → nat) (d0 : Doc) (l : list NodeId)
    (d : Doc) : Prop :=
  ∃ rk, extends rk0 d0 rk d ∧ Forall (λ c, is_Some (nodes d !! c) ∧ rk c < fuel) l.

(** With fuel [fuel], [processNode] returns normally on every stored node of
    rank below [fuel] and keeps the ranks. *)
Definition returns_below (fault : nat → bool) (fuel : nat) : Prop :=
  ∀ n d rk, ranked rk d → is_Some (nodes d !! n) → rk n < fuel →
    ∃ d' rk', processNode fault fuel n d = (d', Normal tt) ∧ extends rk d rk' d'.

(** A host that rejects the third call of the session. *)
Definition third_call_fails : nat → bool := λ k, bool_decide (k = 2).


(** ** What a visit leaves to the main program

    [continues d d']: the session [d'] has the notifications, the close
    count, the selection and the current page of [d]; its console starts
    with the console of [d]; identifiers and host calls were only added. *)
Definition continues (d d' : Doc) : Prop :=
  notifications d' = notifications d
  ∧ closeCalls d' = closeCalls d
  ∧ selection d' = selection d
  ∧ currentPage d' = currentPage d
  ∧ console d `prefix_of` console d'
  ∧ nextId d ≤ nextId d'
  ∧ calls d ≤ calls d'.

(** A statement that, however it completes, continues the session. *)
Definition discreet {A} (m : M A) : Prop := ∀ d, continues d (m d).1.

(** The text node [n] is in the document as it was: it has the record [nn]
    and it is among the children of [p]. *)
Definition in_place (n : NodeId) (nn : Node) (p : NodeId) (d : Doc) : Prop :=
  nodes d !! n = Some nn
  ∧ ∃ pn cs, nodes d !! p = Some pn ∧ children pn = Some cs ∧ n ∈ cs.

(** A host that rejects the sixth call of the session. *)
Definition sixth_call_fails : nat → bool := λ k, bool_decide (k = 5).

(** ** The document after the visit of a subtree

    [mirrors m m' lo hi p t r]: in the store [m'], the node [r] under [p] is
    what the visit leaves for the subtree [t] of the store [m].  A text node
    has become its placeholder and is removed; an instance is destroyed and
    a frame with its appearance holds what the visit leaves for its
    children; every other node is kept, with what the visit leaves for its
    children.  The placeholders and frames have the identifiers from [lo] up
    to, not including, [hi]. *)
Unset Elimination Schemes.
Inductive mirrors (m m' : gmap NodeId Node) (lo hi : NodeId)
    : NodeId → Tree → NodeId → Prop :=
  | mirrors_text p k kn g :
      m !! k = Some kn → type kn = TEXT →
      lo ≤ g < hi →
      m' !! g = Some (ghost_of kn p) →
      parent <$> m' !! k = Some None →
      mirrors m m' lo hi p (TNode k []) g
  | mirrors_instance p k kn kids f rs :
      m !! k = Some kn → type kn = INSTANCE →
      lo ≤ f < hi →
      m' !! f = Some (set_parent (Some p) (set_children (Some rs) (set_type FRAME kn))) →
      parent <$> m' !! k = Some None →
      Forall2 (mirrors m m' lo hi f) kids rs →
      mirrors m m' lo hi p (TNode k kids) f
  | mirrors_other p k kn kids rs :
      m !! k = Some kn → type kn ≠ TEXT → type kn ≠ INSTANCE →
      m' !! k = Some (set_parent (Some p) (set_children ((λ _, rs) <$> children kn) kn)) →
      Forall2 (mirrors m m' lo hi k) kids rs →
      mirrors m m' lo hi p (TNode k kids) k.
Set Elimination Schemes.

(** The records of [m0] and [m] for the nodes of [X] differ at most in the
    parent link. *)
Definition agree (m0 m : gmap NodeId Node) (X : list NodeId) : Prop :=
  ∀ k kn, k ∈ X → m !! k = Some kn →
    ∃ kn0, m0 !! k = Some kn0 ∧ set_parent None kn0 = set_parent None kn.

(** The visit of the subtree [t] returns and leaves what [mirrors]
    describes, relative to a store [m0] that [agree]s with the present one. *)
Definition deep_spec (fault : nat → bool) (fuel : nat) (t : Tree) : Prop :=
  ∀ m0 d p pn cs i,
    subtree (nodes d) p t → NoDup (ids t) → p ∉ ids t →
    nodes d !! p = Some pn → children pn = Some cs →
    cs !! i = Some (root t) → (∀ j, cs !! j = Some (root t) → j = i) →
    bounded d → page_ok d → quiet fault d →
    agree m0 (nodes d) (ids t) →
    ∃ d' r, processNode fault fuel (root t) d = (d', Normal tt)
            ∧ visited d d' p pn cs i t r
            ∧ mirrors m0 (nodes d') (nextId d) (nextId d') p t r.

(** [settled m h k]: below the node [k], to the depth [h], the store [m] has
    neither a text node nor an instance. *)
Unset Elimination Schemes.
Inductive settled (m : gmap NodeId Node) : nat → NodeId → Prop :=
  | settled_node h k kn :
      m !! k = Some kn → type kn ≠ TEXT → type kn ≠ INSTANCE →
      Forall (settled m h) (default [] (children kn)) →
      settled m (S h) k.
Set Elimination Schemes.

(** * Properties *)

(** ** The opacity heuristic *)

Section Opacity.
Local Open Scope Q_scope.

Lemma calculateOpacity_unfold t :
  calculateOpacity t =
  Qmin (Qmax (0.2 * sizeFactor (numericSize (fontSize t))
                  * lengthFactor (String.length (characters t))) 0.1) 0.4.
Proof. reflexivity. Qed.

Lemma clamp_min_max v lo hi : lo <= hi -> Qmin hi (Qmax lo v) == clamp v lo hi.
Proof.
  intros Hlh. unfold clamp.
  destruct (Qlt_le_dec v lo) as [Hv|Hv].
  - rewrite (Q.max_l lo v) by (apply Qlt_le_weak; exact Hv). apply Q.min_r. exact Hlh.
  - rewrite (Q.max_r lo v) by exact Hv.
    destruct (Qlt_le_dec hi v) as [Hh|Hh].
    + apply Q.min_l. apply Qlt_le_weak. exact Hh.
    + apply Q.min_r. exact Hh.
Qed.

Lemma clamp_max_min v lo hi : lo <= hi -> Qmin (Qmax v lo) hi == clamp v lo hi.
Proof.
  intros Hlh. rewrite Q.min_comm, Q.max_comm. apply clamp_min_max. exact Hlh.
Qed.

Lemma sizeFactor_bounds q : 0.5 <= sizeFactor q /\ sizeFactor q <= 1.
Proof.
  unfold sizeFactor. split.
  - apply Q.min_glb; [discriminate | apply Q.le_max_l].
  - apply Q.le_min_l.
Qed.

Lemma lengthFactor_bounds len : 0.7 <= lengthFactor len /\ lengthFactor len <= 1.
Proof.
  unfold lengthFactor. split.
  - apply Q.min_glb; [discriminate | apply Q.le_max_l].
  - apply Q.le_min_l.
Qed.

Lemma sizeFactor_mono q1 q2 : q1 <= q2 -> sizeFactor q1 <= sizeFactor q2.
Proof.
  intros H. unfold sizeFactor. apply Q.min_le_compat_l, Q.max_le_compat_l.
  unfold Qdiv. apply Qmult_le_compat_r; [exact H | discriminate].
Qed.

Lemma lengthFactor_mono l1 l2 : (l1 <= l2)%nat -> lengthFactor l1 <= lengthFactor l2.
Proof.
  intros H. unfold lengthFactor. apply Q.min_le_compat_l, Q.max_le_compat_l.
  unfold Qdiv. apply Qmult_le_compat_r; [| discriminate].
  rewrite <- Zle_Qle. lia.
Qed.

Lemma final_clamp_mono a b : a <= b -> Qmin (Qmax a 0.1) 0.4 <= Qmin (Qmax b 0.1) 0.4.
Proof. intros H. apply Q.min_le_compat_r, Q.max_le_compat_r. exact H. Qed.

(** C3. [calculateOpacity] is the reference formula
    clamp(0.2 * clamp(fontSize/24, 0.5, 1) * clamp(count/50, 0.7, 1), 0.1, 0.4);
    at font size 24 and 50 characters it returns exactly 0.2, at font size 12
    and 25 characters exactly 0.1, in exact arithmetic and in binary64. *)
Theorem calculateOpacity_reference (textNode : Node) :
  calculateOpacity textNode
    == spec_opacity (fontSize textNode) (String.length (characters textNode))
  /\ (fontSize textNode = SizeNumber 24 -> String.length (characters textNode) = 50%nat ->
      calculateOpacity textNode = 0.2)
  /\ (fontSize textNode = SizeNumber 12 -> String.length (characters textNode) = 25%nat ->
      calculateOpacity textNode = 0.1)
  /\ calculateOpacity_f64 (Some 24%float) 50 = 0x1.999999999999ap-3%float
  /\ calculateOpacity_f64 (Some 12%float) 25 = 0x1.999999999999ap-4%float.
Proof.
  split; [| split; [| split; [| split]]].
  - rewrite calculateOpacity_unfold. unfold spec_opacity, sizeFactor, lengthFactor.
    fold (numericSize (fontSize textNode)).
    rewrite (clamp_min_max (numericSize (fontSize textNode) / 24) 0.5 1) by discriminate.
    rewrite (clamp_min_max (inject_Z (Z.of_nat (String.length (characters textNode))) / 50)
               0.7 1) by discriminate.
    apply clamp_max_min. discriminate.
  - intros Hs Hl. unfold calculateOpacity. rewrite Hs, Hl. reflexivity.
  - intros Hs Hl. unfold calculateOpacity. rewrite Hs, Hl. reflexivity.
  - vm_compute. reflexivity.
  - vm_compute. reflexivity.
Qed.

(** C4. The returned opacity lies in [0.1, 0.4] for every text node, whatever
    its font size and character count; a mixed font size counts as 14. *)
Theorem calculateOpacity_range (textNode : Node) :
  (0.1 <= calculateOpacity textNode /\ calculateOpacity textNode <= 0.4)
  /\ (0.1 <= calculateOpacity (set_characters "" textNode)
      /\ calculateOpacity (set_characters "" textNode) <= 0.4)
  /\ calculateOpacity (set_fontSize SizeMixed textNode)
     = calculateOpacity (set_fontSize (SizeNumber 14) textNode).
Proof.
  assert (Hr : forall t, 0.1 <= calculateOpacity t /\ calculateOpacity t <= 0.4).
  { intros t. rewrite calculateOpacity_unfold. split.
    - apply Q.min_glb; [apply Q.le_max_r | discriminate].
    - apply Q.le_min_r. }
  split; [apply Hr | split; [apply Hr | reflexivity]].
Qed.

(** C5. The opacity does not decrease when the font size grows (same text)
    nor when the text gets longer (same font size). *)
Theorem calculateOpacity_monotone (textNode : Node) (q1 q2 : Q) (s1 s2 : string)
    (Hq : q1 <= q2) (Hs : (String.length s1 <= String.length s2)%nat) :
  calculateOpacity (set_fontSize (SizeNumber q1) textNode)
    <= calculateOpacity (set_fontSize (SizeNumber q2) textNode)
  /\ calculateOpacity (set_characters s1 textNode)
    <= calculateOpacity (set_characters s2 textNode).
Proof.
  split; rewrite !calculateOpacity_unfold; simpl; apply final_clamp_mono.
  - pose proof (lengthFactor_bounds (String.length (characters textNode))) as [Hl _].
    pose proof (sizeFactor_mono q1 q2 Hq) as Hm.
    apply Qmult_le_compat_r; [| lra].
    apply Qmult_le_l; [reflexivity | exact Hm].
  - pose proof (sizeFactor_bounds (numericSize (fontSize textNode))) as [Hl _].
    pose proof (lengthFactor_mono _ _ Hs) as Hm.
    apply Qmult_le_l; [| exact Hm].
    apply Qmult_lt_0_compat; [reflexivity | lra].
Qed.

(** C10. The returned opacity never exceeds the base opacity 0.2: it lies in
    [0.1, 0.2] for every text node. *)
Theorem calculateOpacity_at_most_base (textNode : Node) :
  0.1 <= calculateOpacity textNode /\ calculateOpacity textNode <= 0.2.
Proof.
  rewrite calculateOpacity_unfold.
  pose proof (sizeFactor_bounds (numericSize (fontSize textNode))) as [Ha1 Ha2].
  pose proof (lengthFactor_bounds (String.length (characters textNode))) as [Hb1 Hb2].
  set (a := sizeFactor _) in *. set (b := lengthFactor _) in *.
  split.
  - apply Q.min_glb; [apply Q.le_max_r | discriminate].
  - apply (Qle_trans _ (Qmax (0.2 * a * b) 0.1)); [apply Q.le_min_l |].
    apply Q.max_lub; [| discriminate].
    assert (H1 : 0.2 * a <= 0.2) by lra.
    assert (H2 : 0.2 * a * b <= 0.2 * a * 1).
    { apply Qmult_le_l; [| exact Hb2]. apply Qmult_lt_0_compat; [reflexivity | lra]. }
    lra.
Qed.

End Opacity.

(** Witnesses for the opacity theorems. *)

Lemma calculateOpacity_reference_witness :
  calculateOpacity (sample_text (SizeNumber 24) 50) = 0.2%Q.
Proof.
  apply (calculateOpacity_reference (sample_text (SizeNumber 24) 50)); reflexivity.
Defined.

Lemma calculateOpacity_monotone_witness :
  (calculateOpacity (set_fontSize (SizeNumber 12) (sample_text SizeMixed 10))
    <= calculateOpacity (set_fontSize (SizeNumber 18) (sample_text SizeMixed 10)))%Q
  /\ (calculateOpacity (set_characters "ab" (sample_text SizeMixed 10))
    <= calculateOpacity (set_characters "abcdef" (sample_text SizeMixed 10)))%Q.
Proof.
  apply (calculateOpacity_monotone (sample_text SizeMixed 10) 12 18 "ab" "abcdef").
  - discriminate.
  - simpl. lia.
Defined.

(** ** Running the monad: equations for the primitives *)

Lemma bind_Normal {A B} (m : M A) (k : A → M B) d d1 a :
  m d = (d1, Normal a) → bind m k d = k a d1.
Proof. unfold bind. intros ->. reflexivity. Qed.



Lemma bind_Normal_inv {A B} (m : M A) (k : A → M B) d d' b :
  bind m k d = (d', Normal b) → ∃ d1 a, m d = (d1, Normal a) ∧ k a d1 = (d', Normal b).
Proof.
  unfold bind. destruct (m d) as [d1 [a|e|]]; intros H; try discriminate. eauto.
Qed.

Lemma read_ok {A} d n nn (prop : Node → A) :
  nodes d !! n = Some nn → read n prop d = (d, Normal (prop nn)).
Proof. unfold read. intros ->. reflexivity. Qed.

Lemma read_Normal_inv {A} d d' n (prop : Node → A) v :
  read n prop d = (d', Normal v) → d' = d ∧ ∃ nn, nodes d !! n = Some nn ∧ v = prop nn.
Proof.
  unfold read. destruct (nodes d !! n) as [nn|]; intros [= <- <-]. eauto.
Qed.

Lemma assign_ok d n nn upd :
  nodes d !! n = Some nn →
  assign n upd d = (set_nodes (<[n := upd nn]> (nodes d)) d, Normal tt).
Proof. unfold assign. intros ->. reflexivity. Qed.

Section Primitives.
Variable fault : nat → bool.

Lemma host_call_ok c op d d' :
  fault (calls d) = false → op (tick d) = Some d' →
  host_call fault c op d = (d', Normal tt).
Proof. unfold host_call. intros -> ->. reflexivity. Qed.


Lemma host_call_Normal_inv c op d d' u :
  host_call fault c op d = (d', Normal u) →
  fault (calls d) = false ∧ op (tick d) = Some d'.
Proof.
  unfold host_call. destruct (fault (calls d)); [discriminate|].
  destruct (op (tick d)); intros [= <-]. done.
Qed.

Lemma loadFontAsync_ok d n nn :
  fault (calls d) = false → nodes d !! n = Some nn →
  loadFontAsync fault n d = (tick d, Normal tt).
Proof.
  intros Hf Hn. apply host_call_ok; [done|]. simpl. rewrite Hn. reflexivity.
Qed.

Lemma getStyledTextSegments_ok d n nn :
  fault (calls d) = false → nodes d !! n = Some nn →
  getStyledTextSegments fault n d = (tick d, Normal (segments nn)).
Proof.
  intros Hf Hn. unfold getStyledTextSegments.
  rewrite (bind_Normal _ _ d (tick d) tt).
  - apply read_ok. exact Hn.
  - apply host_call_ok; [done|]. simpl. rewrite Hn. reflexivity.
Qed.

Lemma loadFontAsync_Normal_inv d d' n u :
  loadFontAsync fault n d = (d', Normal u) →
  d' = tick d ∧ fault (calls d) = false ∧ is_Some (nodes d !! n).
Proof.
  intros H. apply host_call_Normal_inv in H as [Hf H]. simpl in H.
  destruct (nodes d !! n) eqn:Hn; simplify_eq/=. eauto.
Qed.

Lemma getStyledTextSegments_Normal_inv d d' n segs :
  getStyledTextSegments fault n d = (d', Normal segs) →
  d' = tick d ∧ fault (calls d) = false ∧ ∃ nn, nodes d !! n = Some nn ∧ segs = segments nn.
Proof.
  intros H. apply bind_Normal_inv in H as (d1 & [] & H1 & H2).
  apply host_call_Normal_inv in H1 as [Hf H1]. simpl in H1.
  destruct (nodes d !! n) eqn:Hn; simplify_eq/=.
  apply read_Normal_inv in H2 as [-> (nn & Hnn & ->)]. simpl in Hnn. naive_solver.
Qed.

(** ** Colour extraction *)

Lemma getTextColor_returns d n nn :
  nodes d !! n = Some nn →
  (∀ k, calls d ≤ k → fault k = false) →
  getTextColor fault n d
  = (ticks (if decide (1 < length (segments nn)) then 3 else 2) d, Normal (textColor nn)).
Proof.
  intros Hn Hq. unfold getTextColor, textColor.
  rewrite (bind_Normal _ _ _ _ _ (loadFontAsync_ok d n nn (Hq _ (le_n _)) Hn)).
  assert (Hq1 : fault (calls (tick d)) = false) by (apply Hq; simpl; lia).
  rewrite (bind_Normal _ _ _ _ _ (getStyledTextSegments_ok (tick d) n nn Hq1 Hn)).
  assert (Hfin : ∀ d1, nodes d1 !! n = Some nn →
            (let* f := read n fills in
             match f with PaintArray (p :: ps) => ret (p :: ps) | _ => ret [black] end) d1
            = (d1, Normal match fills nn with PaintArray (p :: ps) => p :: ps
                          | _ => [black] end)).
  { intros d1 H1. rewrite (bind_Normal _ _ _ _ _ (read_ok d1 n nn fills H1)).
    destruct (fills nn) as [|[|p ps]]; reflexivity. }
  destruct (decide (1 < length (segments nn))) as [Hlen|Hlen].
  - assert (Hq2 : fault (calls (tick (tick d))) = false) by (apply Hq; simpl; lia).
    rewrite (bind_Normal _ _ (tick (tick d)) (tick (tick (tick d)))
               (first_segment_fills (segments nn))).
    + destruct (first_segment_fills (segments nn)) as [paints|].
      * reflexivity.
      * rewrite Hfin by exact Hn. reflexivity.
    + rewrite (bind_Normal _ _ _ _ _ (getStyledTextSegments_ok _ n nn Hq2 Hn)). reflexivity.
  - rewrite (bind_Normal _ _ (tick (tick d)) (tick (tick d)) None) by reflexivity.
    rewrite Hfin by exact Hn. reflexivity.
Qed.

Lemma getTextColor_result d n d' paints :
  getTextColor fault n d = (d', Normal paints) →
  ∃ nn, nodes d !! n = Some nn ∧ paints = textColor nn ∧ nodes d' = nodes d.
Proof.
  unfold getTextColor, textColor. intros H.
  apply bind_Normal_inv in H as (d1 & [] & H1 & H).
  apply loadFontAsync_Normal_inv in H1 as (-> & _ & _).
  apply bind_Normal_inv in H as (d2 & styled & H2 & H).
  apply getStyledTextSegments_Normal_inv in H2 as (-> & _ & nn & Hn & ->).
  simpl in Hn. exists nn. split; [exact Hn|].
  apply bind_Normal_inv in H as (d3 & found & H3 & H).
  assert (Hfound : found = (if decide (1 < length (segments nn))
                            then first_segment_fills (segments nn) else None)
                   ∧ nodes d3 = nodes d).
  { destruct (decide (1 < length (segments nn))).
    - apply bind_Normal_inv in H3 as (d4 & segs & H4 & H3).
      apply getStyledTextSegments_Normal_inv in H4 as (-> & _ & nn' & Hn' & ->).
      simpl in Hn'. rewrite Hn in Hn'. injection Hn' as <-.
      unfold ret in H3. by simplify_eq/=.
    - unfold ret in H3. by simplify_eq/=. }
  destruct Hfound as [-> Hd3].
  destruct (if decide (1 < length (segments nn)) then _ else _) as [ps|].
  - unfold ret in H. by simplify_eq/=.
  - apply bind_Normal_inv in H as (d4 & f & H4 & H).
    apply read_Normal_inv in H4 as [-> (nn' & Hn' & ->)].
    rewrite Hd3, Hn in Hn'. injection Hn' as <-.
    destruct (fills nn) as [|[|p ps]]; unfold ret in H; by simplify_eq/=.
Qed.

End Primitives.

Lemma first_segment_fills_first pre s rest paints :
  Forall (λ s', usable (seg_fills s') = false) pre →
  usable (seg_fills s) = true →
  seg_fills s = PaintArray paints →
  first_segment_fills (pre ++ s :: rest) = Some paints.
Proof.
  intros Hpre Hs Hf. induction Hpre as [|s' pre Hs' _ IH]; simpl.
  - rewrite Hf in *. destruct paints; [discriminate | reflexivity].
  - destruct (seg_fills s') as [|[|p ps]]; try exact IH. discriminate.
Qed.

Lemma first_segment_fills_none segs :
  Forall (λ s, usable (seg_fills s) = false) segs → first_segment_fills segs = None.
Proof.
  induction 1 as [|s segs Hs _ IH]; simpl; [reflexivity|].
  destruct (seg_fills s) as [|[|p ps]]; try exact IH. discriminate.
Qed.

Lemma textColor_fallback nn :
  (length (segments nn) ≤ 1 ∨ Forall (λ s, usable (seg_fills s) = false) (segments nn)) →
  textColor nn = match fills nn with PaintArray (p :: ps) => p :: ps | _ => [black] end.
Proof.
  intros H. unfold textColor. destruct (decide (1 < length (segments nn))) as [Hl|Hl].
  - destruct H as [H|H]; [lia|]. rewrite (first_segment_fills_none _ H). reflexivity.
  - reflexivity.
Qed.

Lemma quiet_no_fault d : quiet no_fault d.
Proof. intros k _. reflexivity. Qed.

(** C6. Colour extraction returns the fills of the first segment that has a
    non-empty fill array when the text has more than one styled segment; the
    node's own fills when there is a single segment and they are a non-empty
    array (so a single uniform fill is returned as it is); and exactly one
    solid black fill of opacity 1 when no usable fill is found.  It returns
    whenever the host accepts its calls, and leaves the nodes as they are. *)
Theorem getTextColor_cases (fault : nat → bool) (d : Doc) (n : NodeId) (nn : Node)
    (Hn : nodes d !! n = Some nn) :
  (quiet fault d → ∃ d' paints, getTextColor fault n d = (d', Normal paints))
  ∧ ∀ d' paints,
      getTextColor fault n d = (d', Normal paints) →
      nodes d' = nodes d ∧
      (∀ pre s rest ps,
          1 < length (segments nn) → segments nn = pre ++ s :: rest →
          Forall (λ s', usable (seg_fills s') = false) pre →
          usable (seg_fills s) = true → seg_fills s = PaintArray ps →
          paints = ps) ∧
      (∀ p, length (segments nn) ≤ 1 → fills nn = PaintArray [p] → paints = [p]) ∧
      ((length (segments nn) ≤ 1
        ∨ Forall (λ s, usable (seg_fills s) = false) (segments nn)) →
       usable (fills nn) = false →
       paints = [ {| paint_type := SOLID; paint_color := mkRGB 0 0 0;
                     paint_opacity := 1 |} ]).
Proof.
  split.
  { intros Hq. eexists _, _. exact (getTextColor_returns fault d n nn Hn Hq). }
  intros d' paints Hrun.
  destruct (getTextColor_result fault d n d' paints Hrun) as (nn' & Hn' & -> & Hnodes).
  assert (nn' = nn) by congruence. subst nn'.
  split; [exact Hnodes|]. split; [|split].
  - intros pre s rest ps Hlen Hsegs Hpre Hs Hf. unfold textColor.
    rewrite decide_True by exact Hlen.
    rewrite Hsegs, (first_segment_fills_first pre s rest ps Hpre Hs Hf). reflexivity.
  - intros p Hlen Hf. rewrite textColor_fallback by (left; exact Hlen).
    rewrite Hf. reflexivity.
  - intros Hsegs Hf. rewrite textColor_fallback by exact Hsegs.
    destruct (fills nn) as [|[|p ps]]; try reflexivity. discriminate.
Qed.

(** C7. With more than one styled segment, none of which has a non-empty fill
    array, colour extraction returns the node's own fills when they are a
    non-empty array, and the default black fill otherwise. *)
Theorem getTextColor_segments_unusable (fault : nat → bool) (d : Doc) (n : NodeId)
    (nn : Node) (Hn : nodes d !! n = Some nn)
    (Hmany : 1 < length (segments nn))
    (Hnone : Forall (λ s, usable (seg_fills s) = false) (segments nn)) :
  (quiet fault d → ∃ d' paints, getTextColor fault n d = (d', Normal paints))
  ∧ ∀ d' paints,
      getTextColor fault n d = (d', Normal paints) →
      (usable (fills nn) = true → fills nn = PaintArray paints)
      ∧ (usable (fills nn) = false → paints = [black]).
Proof.
  split.
  { intros Hq. eexists _, _. exact (getTextColor_returns fault d n nn Hn Hq). }
  intros d' paints Hrun.
  destruct (getTextColor_result fault d n d' paints Hrun) as (nn' & Hn' & -> & Hnodes).
  assert (nn' = nn) by congruence. subst nn'.
  rewrite textColor_fallback by (right; exact Hnone).
  destruct (fills nn) as [|[|p ps]]; split; intros H; try discriminate; reflexivity.
Qed.

Lemma getTextColor_cases_witness :
  ∃ d' paints,
    getTextColor no_fault 1 (badge_doc (PaintArray [blue]) (PaintArray [red]))
      = (d', Normal paints) ∧ paints = [red].
Proof.
  destruct (getTextColor_cases no_fault (badge_doc (PaintArray [blue]) (PaintArray [red])) 1
              (two_tone (PaintArray [blue]) (PaintArray [red]) (Some 0)) eq_refl)
    as [Hreturns Hcases].
  destruct (Hreturns (quiet_no_fault _)) as (d' & paints & Hrun).
  destruct (Hcases d' paints Hrun) as (_ & Hfirst & _).
  exists d', paints. split; [exact Hrun|].
  apply (Hfirst [mkSegment 0 2 (PaintArray [])] (mkSegment 2 4 (PaintArray [red])) [] [red]).
  - simpl. lia.
  - reflexivity.
  - repeat constructor.
  - reflexivity.
  - reflexivity.
Defined.

Lemma getTextColor_segments_unusable_witness :
  ∃ d' paints,
    getTextColor no_fault 1 (badge_doc (PaintArray [blue]) MixedFills)
      = (d', Normal paints) ∧ PaintArray [blue] = PaintArray paints.
Proof.
  destruct (getTextColor_segments_unusable no_fault
              (badge_doc (PaintArray [blue]) MixedFills) 1
              (two_tone (PaintArray [blue]) MixedFills (Some 0)) eq_refl)
    as [Hreturns Hcases].
  - simpl. lia.
  - repeat constructor.
  - destruct (Hreturns (quiet_no_fault _)) as (d' & paints & Hrun).
    destruct (Hcases d' paints Hrun) as [Hown _].
    exists d', paints. split; [exact Hrun|]. apply Hown. reflexivity.
Defined.

(** ** The main program on an empty selection *)

(** C9. With an empty selection the run changes no node of the document,
    shows the guidance notification and nothing else (in particular not the
    failure notification), logs nothing, and closes the plugin. *)
Theorem main_empty_selection (fault : nat → bool) (fuel : nat) (d : Doc)
    (Hsel : selection d = []) :
  ∃ d', main fault fuel d = (d', Normal tt)
        ∧ nodes d' = nodes d
        ∧ nextId d' = nextId d
        ∧ calls d' = calls d
        ∧ notifications d' = notifications d ++ [guidance]
        ∧ guidance ≠ failure
        ∧ console d' = console d
        ∧ closeCalls d < closeCalls d'.
Proof.
  eexists. unfold main, try_finally, try_catch. rewrite Hsel. simpl.
  split; [reflexivity|]. simpl. repeat split; try done. lia.
Qed.

Lemma main_empty_selection_witness :
  ∃ d', main no_fault 3 (sample_doc []) = (d', Normal tt)
        ∧ nodes d' = nodes (sample_doc [])
        ∧ notifications d' = [guidance].
Proof.
  destruct (main_empty_selection no_fault 3 (sample_doc []) eq_refl)
    as (d' & Hrun & Hnodes & _ & _ & Hnote & _).
  exists d'. repeat split; assumption.
Defined.

(** ** Lists of children *)

Lemma indexOf_from_lookup (l : list NodeId) n i (z : Z) :
  l !! i = Some n → (∀ j, j < i → l !! j ≠ Some n) →
  indexOf_from l n z = (z + Z.of_nat i)%Z.
Proof.
  revert i z. induction l as [|a l IH]; intros i z Hi Hfirst; [done|].
  simpl. destruct i as [|i]; simpl in Hi.
  - injection Hi as ->. rewrite decide_True by done. lia.
  - rewrite decide_False.
    + rewrite (IH i (z + 1)%Z Hi); [lia|].
      intros j Hj. apply (Hfirst (S j)). lia.
    + intros ->. apply (Hfirst 0); [lia | done].
Qed.

Lemma indexOf_lookup (l : list NodeId) n i :
  l !! i = Some n → (∀ j, l !! j = Some n → j = i) → indexOf l n = Z.of_nat i.
Proof.
  intros Hi Huniq. unfold indexOf. rewrite (indexOf_from_lookup l n i 0 Hi); [lia|].
  intros j Hj Hjn. apply Huniq in Hjn. lia.
Qed.

Lemma indexOf_from_range (l : list NodeId) n (z : Z) :
  indexOf_from l n z = (-1)%Z ∨
  ∃ i, l !! i = Some n ∧ indexOf_from l n z = (z + Z.of_nat i)%Z.
Proof.
  revert z. induction l as [|a l IH]; intros z; simpl; [by left|].
  destruct (decide (a = n)) as [->|Hne].
  - right. exists 0. split; [done | lia].
  - destruct (IH (z + 1)%Z) as [H|(i & Hi & H)]; [by left|].
    right. exists (S i). split; [done | lia].
Qed.

Lemma indexOf_nonneg (l : list NodeId) n :
  (0 ≤ indexOf l n)%Z → ∃ i, l !! i = Some n ∧ indexOf l n = Z.of_nat i.
Proof.
  unfold indexOf. intros H. destruct (indexOf_from_range l n 0) as [H'|(i & Hi & H')].
  - lia.
  - exists i. split; [done | lia].
Qed.

Lemma without_not_in c (l : list NodeId) : c ∉ l → without c l = l.
Proof.
  intros Hc. unfold without. induction l as [|a l IH]; [done|].
  rewrite filter_cons. rewrite decide_True by set_solver. f_equal. apply IH. set_solver.
Qed.

Lemma without_app c (l1 l2 : list NodeId) : without c (l1 ++ l2) = without c l1 ++ without c l2.
Proof. unfold without. apply filter_app. Qed.

Lemma without_cons_eq c (l : list NodeId) : without c (c :: l) = without c l.
Proof. unfold without. rewrite filter_cons. rewrite decide_False by naive_solver. done. Qed.

Lemma without_snoc c (l : list NodeId) : c ∉ l → without c (l ++ [c]) = l.
Proof.
  intros Hc. rewrite without_app, without_cons_eq, (without_not_in c l Hc).
  unfold without. rewrite filter_nil. apply app_nil_r.
Qed.

Lemma split_at_index (l : list NodeId) i n :
  l !! i = Some n → l = take i l ++ n :: drop (S i) l.
Proof. intros H. rewrite <- (take_drop_middle l i n H) at 1. done. Qed.

Lemma occurs_once_split (l : list NodeId) i n :
  l !! i = Some n → (∀ j, l !! j = Some n → j = i) →
  (n ∉ take i l) ∧ (n ∉ drop (S i) l).
Proof.
  intros Hi Huniq. split.
  - intros Hin. apply list_elem_of_lookup in Hin as [j Hj].
    pose proof (lookup_lt_Some _ _ _ Hj) as Hlt. rewrite length_take in Hlt.
    rewrite lookup_take_lt in Hj by lia. apply Huniq in Hj. lia.
  - intros Hin. apply list_elem_of_lookup in Hin as [j Hj].
    rewrite lookup_drop in Hj. apply Huniq in Hj. lia.
Qed.

Lemma without_insert_at (l : list NodeId) i n g :
  l !! i = Some n → (∀ j, l !! j = Some n → j = i) → g ≠ n →
  without n (insert_at i g l) = <[i := g]> l.
Proof.
  intros Hi Huniq Hg. destruct (occurs_once_split l i n Hi Huniq) as [Hpre Hpost].
  unfold insert_at. rewrite without_app, without_not_in by done.
  rewrite (drop_S l n i Hi).
  unfold without at 1. rewrite filter_cons, decide_True by done.
  fold (without n (n :: drop (S i) l)). rewrite without_cons_eq, without_not_in by done.
  pose proof (lookup_lt_Some _ _ _ Hi) as Hlt.
  rewrite (split_at_index l i n Hi) at 3.
  rewrite insert_app_r_alt by (rewrite length_take; lia).
  rewrite length_take. replace (i - (i `min` length l)) with 0 by lia. done.
Qed.

(** ** The host operations, as equations on the store *)

Lemma set_children_same kn : set_children (children kn) kn = kn.
Proof. by destruct kn. Qed.

Lemma unlink_lookup c cn p pn cs (m : gmap NodeId Node) :
  m !! c = Some cn → parent cn = Some p → m !! p = Some pn → children pn = Some cs →
  unlink c m = <[p := set_children (Some (without c cs)) pn]> m.
Proof.
  intros Hc Hp Hpn Hcs. unfold unlink. rewrite Hc, Hp.
  apply map_eq. intros k. rewrite lookup_alter, lookup_insert.
  destruct (decide (p = k)) as [<-|Hne]; [|done].
  rewrite Hpn. simpl. rewrite Hcs. done.
Qed.

Lemma host_createRectangle_lookup g q qn lq (m : gmap NodeId Node) :
  m !! q = Some qn → children qn = Some lq →
  host_createRectangle g q m
  = <[g := new_rectangle q]> (<[q := set_children (Some (lq ++ [g])) qn]> m).
Proof.
  intros Hq Hlq. unfold host_createRectangle. f_equal.
  apply map_eq. intros k. rewrite lookup_alter, lookup_insert.
  destruct (decide (q = k)) as [<-|Hne]; [|done].
  rewrite Hq. simpl. rewrite Hlq. done.
Qed.

Section HostCalls.
Variable fault : nat → bool.

Lemma quiet_le d d' : calls d ≤ calls d' → quiet fault d → quiet fault d'.
Proof. intros Hle Hq k Hk. apply Hq. lia. Qed.

Lemma quiet_now d : quiet fault d → fault (calls d) = false.
Proof. intros Hq. apply Hq. lia. Qed.

Lemma createRectangle_ok d :
  fault (calls d) = false →
  createRectangle fault d
  = (set_nextId (S (nextId d))
       (set_nodes (host_createRectangle (nextId d) (currentPage d) (nodes d)) (tick d)),
     Normal (nextId d)).
Proof.
  intros Hf. unfold createRectangle.
  erewrite bind_Normal; [reflexivity|]. apply host_call_ok; [done|]. reflexivity.
Qed.

Lemma resize_ok d n nn w h :
  fault (calls d) = false → nodes d !! n = Some nn →
  resize fault n w h d = (set_nodes (<[n := set_size w h nn]> (nodes d)) (tick d), Normal tt).
Proof.
  intros Hf Hn. apply host_call_ok; [done|]. unfold on_nodes. simpl. rewrite Hn. done.
Qed.

Lemma insertChild_ok d p index c m' :
  fault (calls d) = false → host_insertChild p index c (nodes d) = Some m' →
  insertChild fault p index c d = (set_nodes m' (tick d), Normal tt).
Proof.
  intros Hf Hm. apply host_call_ok; [done|]. unfold on_nodes. simpl. rewrite Hm. done.
Qed.

Lemma remove_ok d n m' :
  fault (calls d) = false → host_remove n (nodes d) = Some m' →
  remove fault n d = (set_nodes m' (tick d), Normal tt).
Proof.
  intros Hf Hm. apply host_call_ok; [done|]. unfold on_nodes. simpl. rewrite Hm. done.
Qed.

Lemma detachInstance_ok d n m' :
  fault (calls d) = false → host_detachInstance n (nextId d) (nodes d) = Some m' →
  detachInstance fault n d
  = (set_nextId (S (nextId d)) (set_nodes m' (tick d)), Normal tt).
Proof.
  intros Hf Hm. apply host_call_ok; [done|]. simpl. rewrite Hm. done.
Qed.

Lemma read_children_ok d p pn cs :
  nodes d !! p = Some pn → children pn = Some cs →
  read_children p d = (d, Normal cs).
Proof.
  intros Hp Hcs. unfold read_children.
  rewrite (bind_Normal _ _ _ _ _ (read_ok d p pn children Hp)). rewrite Hcs. done.
Qed.

End HostCalls.

(** ** Replacing a text node *)

Section ConvertText.
Variable fault : nat → bool.

Lemma convert_text_ok d n nn p pn cs i qn lq :
  nodes d !! n = Some nn → children nn = None → parent nn = Some p →
  nodes d !! p = Some pn → children pn = Some cs →
  cs !! i = Some n → (∀ j, cs !! j = Some n → j = i) →
  nodes d !! nextId d = None → nextId d ∉ cs →
  nodes d !! currentPage d = Some qn → children qn = Some lq → nextId d ∉ lq →
  quiet fault d →
  ∃ d', convert_text fault n d = (d', Normal tt)
    ∧ nodes d' = <[nextId d := ghost_of nn p]>
                   (<[n := set_parent None nn]>
                      (<[p := set_children (Some (<[i := nextId d]> cs)) pn]> (nodes d)))
    ∧ nextId d' = S (nextId d) ∧ currentPage d' = currentPage d
    ∧ selection d' = selection d ∧ console d' = console d
    ∧ notifications d' = notifications d ∧ closeCalls d' = closeCalls d
    ∧ calls d ≤ calls d'.
Proof.
  intros Hn Hleaf Hp Hpn Hcs Hi Huniq Hfresh Hgcs Hq Hlq Hglq Hquiet.
  set (g := nextId d) in *. set (q := currentPage d) in *.
  assert (Hgn : g ≠ n) by (intros ->; congruence).
  assert (Hgp : g ≠ p) by (intros ->; congruence).
  assert (Hgq : g ≠ q) by (intros ->; congruence).
  assert (Hnq : n ≠ q) by (intros ->; congruence).
  assert (Hnp : n ≠ p) by (intros ->; congruence).
  unfold convert_text.
  (* createRectangle *)
  rewrite (bind_Normal _ _ _ _ _ (createRectangle_ok fault d (quiet_now fault d Hquiet))).
  fold g q. rewrite (host_createRectangle_lookup g q qn lq _ Hq Hlq).
  set (m1 := <[q := set_children (Some (lq ++ [g])) qn]> (nodes d)).
  assert (Hn1 : m1 !! n = Some nn) by (unfold m1; by rewrite lookup_insert_ne).
  set (d1 := set_nextId (S g) (set_nodes (<[g := new_rectangle q]> m1) (tick d))).
  assert (Hd1n : nodes d1 !! n = Some nn) by (simpl; by rewrite lookup_insert_ne).
  rewrite (bind_Normal _ _ _ _ _ (read_ok d1 n nn name Hd1n)).
  (* the assignments to the rectangle and the reads of the text node *)
  rewrite (bind_Normal _ _ _ _ _
             (assign_ok d1 g (new_rectangle q) _ (lookup_insert_eq _ _ _))).
  simpl nodes. rewrite insert_insert_eq.
  match goal with |- context [bind (read n width) _ ?s] => set (d2 := s) end.
  assert (Hd2n : nodes d2 !! n = Some nn) by (simpl; by rewrite lookup_insert_ne).
  rewrite (bind_Normal _ _ _ _ _ (read_ok d2 n nn width Hd2n)).
  rewrite (bind_Normal _ _ _ _ _ (read_ok d2 n nn height Hd2n)).
  assert (Hq2 : quiet fault d2) by (apply (quiet_le fault d); [simpl; lia | done]).
  rewrite (bind_Normal _ _ _ _ _
             (resize_ok fault d2 g _ (width nn) (height nn) (quiet_now fault d2 Hq2)
                (lookup_insert_eq _ _ _))).
  simpl nodes. rewrite insert_insert_eq.
  match goal with |- context [bind (getTextColor fault n) _ ?s] => set (d3 := s) end.
  assert (Hd3n : nodes d3 !! n = Some nn) by (simpl; by rewrite lookup_insert_ne).
  assert (Hq3 : quiet fault d3) by (apply (quiet_le fault d); [simpl; lia | done]).
  rewrite (bind_Normal _ _ _ _ _ (getTextColor_returns fault d3 n nn Hd3n Hq3)).
  match goal with |- context [bind (assign g _) _ ?s] => set (d4 := s) end.
  assert (Hnodes4 : nodes d4 = nodes d3) by reflexivity.
  assert (Hd4g : nodes d4 !! g = Some (set_size (width nn) (height nn)
            (set_name ("Ghost_" +:+ name nn) (new_rectangle q)))).
  { rewrite Hnodes4. simpl. apply lookup_insert_eq. }
  rewrite (bind_Normal _ _ _ _ _ (assign_ok d4 g _ _ Hd4g)).
  rewrite Hnodes4. simpl nodes. rewrite insert_insert_eq.
  match goal with |- context [bind (read n calculateOpacity) _ ?s] => set (d5 := s) end.
  assert (Hd5n : nodes d5 !! n = Some nn) by (simpl; by rewrite lookup_insert_ne).
  rewrite (bind_Normal _ _ _ _ _ (read_ok d5 n nn _ Hd5n)).
  rewrite (bind_Normal _ _ _ _ _ (assign_ok d5 g _ _ (lookup_insert_eq _ _ _))).
  simpl nodes. rewrite insert_insert_eq.
  match goal with |- context [bind (read n x) _ ?s] => set (d6 := s) end.
  assert (Hd6n : nodes d6 !! n = Some nn) by (simpl; by rewrite lookup_insert_ne).
  rewrite (bind_Normal _ _ _ _ _ (read_ok d6 n nn _ Hd6n)).
  rewrite (bind_Normal _ _ _ _ _ (assign_ok d6 g _ _ (lookup_insert_eq _ _ _))).
  simpl nodes. rewrite insert_insert_eq.
  match goal with |- context [bind (read n y) _ ?s] => set (d7 := s) end.
  assert (Hd7n : nodes d7 !! n = Some nn) by (simpl; by rewrite lookup_insert_ne).
  rewrite (bind_Normal _ _ _ _ _ (read_ok d7 n nn _ Hd7n)).
  rewrite (bind_Normal _ _ _ _ _ (assign_ok d7 g _ _ (lookup_insert_eq _ _ _))).
  simpl nodes. rewrite insert_insert_eq.
  match goal with |- context [bind (assign g _) _ ?s] => set (d8 := s) end.
  rewrite (bind_Normal _ _ _ _ _ (assign_ok d8 g _ _ (lookup_insert_eq _ _ _))).
  simpl nodes. rewrite insert_insert_eq.
  match goal with |- context [bind (read n parent) _ (set_nodes (<[g := ?G]> m1) d8)] =>
    set (ghost := G); set (d9 := set_nodes (<[g := G]> m1) d8) end.
  assert (Hd9n : nodes d9 !! n = Some nn) by (simpl; by rewrite lookup_insert_ne).
  rewrite (bind_Normal _ _ _ _ _ (read_ok d9 n nn parent Hd9n)). rewrite Hp.
  (* the parent's child list, with the rectangle still at the end of the page *)
  set (siblings := if decide (p = q) then cs ++ [g] else cs).
  assert (Hd9p : ∃ pn9, nodes d9 !! p = Some pn9 ∧ children pn9 = Some siblings).
  { simpl. rewrite lookup_insert_ne by done. unfold m1, siblings.
    destruct (decide (p = q)) as [->|Hpq].
    - rewrite lookup_insert_eq. eexists. split; [done|]. simpl.
      assert (pn = qn) by congruence. subst pn. congruence.
    - rewrite lookup_insert_ne by done. eauto. }
  destruct Hd9p as (pn9 & Hd9p & Hsib).
  assert (Hindex : indexOf siblings n = Z.of_nat i).
  { apply indexOf_lookup; unfold siblings; destruct (decide (p = q)); try done.
    - rewrite lookup_app_l; [done|]. by eapply lookup_lt_Some.
    - intros j Hj. apply lookup_app_Some in Hj as [Hj|[_ Hj]]; [by apply Huniq|].
      apply list_lookup_singleton_Some in Hj as [_ ?]. done. }
  assert (Hq9 : quiet fault d9) by (apply (quiet_le fault d); [simpl; lia | done]).
  (* insertChild: the rectangle leaves the page and enters the parent *)
  set (m10 := <[g := ghost]> (nodes d)).
  assert (Hunlink : unlink g (<[g := ghost]> m1) = m10).
  { assert (Hq9q : <[g := ghost]> m1 !! q = Some (set_children (Some (lq ++ [g])) qn)).
    { rewrite lookup_insert_ne by done. apply lookup_insert_eq. }
    rewrite (unlink_lookup g ghost q _ (lq ++ [g]) (<[g := ghost]> m1)
               (lookup_insert_eq _ _ _) eq_refl Hq9q eq_refl).
    rewrite (without_snoc g lq Hglq). simpl. unfold m1, m10.
    apply map_eq. intros k. rewrite !lookup_insert.
    repeat case_decide; subst; try done.
    rewrite Hq. f_equal. rewrite <- Hlq. by destruct qn. }
  set (m11 := <[g := set_parent (Some p) ghost]>
                (<[p := set_children (Some (insert_at i g cs)) pn]> (nodes d))).
  assert (Hins : host_insertChild p (Z.of_nat i) g (nodes d9) = Some m11).
  { unfold host_insertChild. change (nodes d9) with (<[g := ghost]> m1).
    rewrite lookup_insert_eq. cbn [mbind option_bind]. rewrite Hunlink.
    assert (H10p : m10 !! p = Some pn) by (unfold m10; by rewrite lookup_insert_ne).
    rewrite H10p. simpl. rewrite Hcs. simpl.
    pose proof (lookup_lt_Some _ _ _ Hi) as Hlt.
    rewrite decide_True by lia. f_equal. rewrite Nat2Z.id. unfold m10, m11.
    apply map_eq. intros k. rewrite lookup_alter, !lookup_insert.
    repeat case_decide; subst; try done. }
  rewrite (bind_Normal _ _ d9 (set_nodes m11 (tick d9)) tt); cycle 1.
  { rewrite (bind_Normal _ _ _ _ _ (read_children_ok d9 p pn9 siblings Hd9p Hsib)).
    rewrite Hindex. apply insertChild_ok; [by apply quiet_now | exact Hins]. }
  (* remove: the text node leaves the parent *)
  set (d10 := set_nodes m11 (tick d9)).
  assert (Hq10 : quiet fault d10) by (apply (quiet_le fault d); [simpl; lia | done]).
  set (m12 := <[g := ghost_of nn p]>
                (<[n := set_parent None nn]>
                   (<[p := set_children (Some (<[i := g]> cs)) pn]> (nodes d)))).
  assert (Hrem : host_remove n (nodes d10) = Some m12).
  { unfold host_remove. change (nodes d10) with m11.
    assert (H11n : m11 !! n = Some nn).
    { unfold m11. by rewrite !lookup_insert_ne by done. }
    assert (H11p : m11 !! p = Some (set_children (Some (insert_at i g cs)) pn)).
    { unfold m11. rewrite lookup_insert_ne by done. apply lookup_insert_eq. }
    rewrite H11n. simpl.
    rewrite (unlink_lookup n nn p _ (insert_at i g cs) m11 H11n Hp H11p eq_refl).
    rewrite (without_insert_at cs i n g Hi Huniq Hgn). f_equal. unfold m11, m12.
    apply map_eq. intros k. rewrite lookup_alter, !lookup_insert.
    repeat case_decide; subst; try done.
    rewrite Hn. done. }
  exists (set_nodes m12 (tick d10)). split.
  { apply remove_ok; [by apply quiet_now | exact Hrem]. }
  simpl. repeat split; try done. lia.
Qed.

End ConvertText.

(** ** Trees of nodes *)

Lemma Tree_ind (P : Tree → Prop) :
  (∀ k kids, Forall P kids → P (TNode k kids)) → ∀ t, P t.
Proof.
  intros Hnode. fix IH 1. intros [k kids]. apply Hnode.
  induction kids as [|t kids IHkids]; constructor; [apply IH | exact IHkids].
Qed.

Lemma elem_of_flat_map {A B} (f : A → list B) (l : list A) (b : B) :
  b ∈ flat_map f l ↔ ∃ a, a ∈ l ∧ b ∈ f a.
Proof.
  rewrite list_elem_of_In, in_flat_map. split; intros (a & Ha & Hb); exists a.
  - by rewrite !list_elem_of_In.
  - by rewrite <- !list_elem_of_In.
Qed.

Lemma root_in_ids t : root t ∈ ids t.
Proof. destruct t. simpl. left. Qed.

Lemma ids_kid k kids t x : t ∈ kids → x ∈ ids t → x ∈ ids (TNode k kids).
Proof. intros Ht Hx. simpl. right. apply elem_of_flat_map. eauto. Qed.

Lemma subtree_inv m p k kids :
  subtree m p (TNode k kids) →
  ∃ kn, m !! k = Some kn ∧ parent kn = Some p ∧ typed kn
        ∧ children kn = (if container (type kn) then Some (root <$> kids) else None)
        ∧ (container (type kn) = false → kids = [])
        ∧ Forall (subtree m k) kids.
Proof. inversion 1; subst. eauto 10. Qed.

Lemma subtree_root m p t :
  subtree m p t → ∃ kn, m !! root t = Some kn ∧ parent kn = Some p.
Proof. destruct t as [k kids]. intros H. apply subtree_inv in H as (kn & ? & ? & _). eauto. Qed.

Lemma subtree_stored m t :
  ∀ p, subtree m p t → ∀ x, x ∈ ids t → ∃ xn y, m !! x = Some xn ∧ parent xn = Some y.
Proof.
  induction t as [k kids IH] using Tree_ind. intros p H x Hx.
  apply subtree_inv in H as (kn & Hk & Hp & _ & _ & _ & Hkids).
  simpl in Hx. apply elem_of_cons in Hx as [->|Hx]; [eauto|].
  apply elem_of_flat_map in Hx as (t & Ht & Hx).
  rewrite Forall_forall in IH, Hkids. eapply IH; eauto.
Qed.

Lemma subtree_ext m m' t :
  ∀ p, (∀ x, x ∈ ids t → m' !! x = m !! x) → subtree m p t → subtree m' p t.
Proof.
  induction t as [k kids IH] using Tree_ind. intros p Hext H.
  apply subtree_inv in H as (kn & Hk & Hp & Hty & Hch & Hleaf & Hkids).
  apply (subtree_node m' p k kn kids); try done.
  - rewrite Hext; [done | apply (root_in_ids (TNode k kids))].
  - rewrite Forall_forall in IH, Hkids. apply Forall_forall. intros t Ht.
    apply IH; [done | | by apply Hkids].
    intros x Hx. apply Hext. by eapply ids_kid.
Qed.

Lemma subtree_reparent m m' p p' t kn :
  m' !! root t = Some (set_parent (Some p') kn) → m !! root t = Some kn →
  (∀ x, x ∈ ids t → x ≠ root t → m' !! x = m !! x) →
  NoDup (ids t) →
  subtree m p t → subtree m' p' t.
Proof.
  destruct t as [k kids]. simpl. intros Hk' Hk Hext Hnd H.
  apply subtree_inv in H as (kn0 & Hk0 & Hp & Hty & Hch & Hleaf & Hkids).
  assert (kn0 = kn) by congruence. subst kn0.
  apply NoDup_cons in Hnd as [Hk_notin _].
  apply (subtree_node m' p' k (set_parent (Some p') kn) kids); try done.
  apply Forall_forall. intros t Ht. rewrite Forall_forall in Hkids.
  apply (subtree_ext m); [|by apply Hkids].
  intros x Hx. apply Hext.
  - right. apply elem_of_flat_map. eauto.
  - intros ->. apply Hk_notin. apply elem_of_flat_map. eauto.
Qed.

Lemma depth_kid k kids t : t ∈ kids → depth t < depth (TNode k kids).
Proof.
  simpl. induction kids as [|t' kids IH]; intros Ht; [by apply elem_of_nil in Ht|].
  simpl. apply elem_of_cons in Ht as [->|Ht]; [lia|]. specialize (IH Ht). lia.
Qed.

(** ** Facts about bounded stores *)

Lemma bounded_stored d k kn : bounded d → nodes d !! k = Some kn → k < nextId d.
Proof. intros Hb Hk. by destruct (Hb k kn Hk). Qed.

Lemma bounded_fresh d : bounded d → nodes d !! nextId d = None.
Proof.
  intros Hb. destruct (nodes d !! nextId d) as [kn|] eqn:Hk; [|done].
  apply (bounded_stored d _ _ Hb) in Hk. lia.
Qed.

Lemma bounded_child d k kn cs c :
  bounded d → nodes d !! k = Some kn → children kn = Some cs → c ∈ cs → c < nextId d.
Proof.
  intros Hb Hk Hcs Hc. destruct (Hb k kn Hk) as [_ H]. rewrite Hcs in H.
  rewrite Forall_forall in H. by apply H.
Qed.

Lemma lookup_adopt f ks (m : gmap NodeId Node) k :
  adopt f ks m !! k
  = (λ kn, if decide (k ∈ ks) then set_parent (Some f) kn else kn) <$> m !! k.
Proof. unfold adopt. rewrite map_lookup_imap. by destruct (m !! k). Qed.

Lemma within_mono b b' k kn : b ≤ b' → within b k kn → within b' k kn.
Proof.
  intros Hle [Hk Hcs]. split; [lia|]. destruct (children kn); [|done].
  eapply Forall_impl; [exact Hcs|]. simpl. intros. lia.
Qed.

Lemma set_children_set_children a b kn :
  set_children a (set_children b kn) = set_children a kn.
Proof. reflexivity. Qed.

Lemma NoDup_flat_map_same {A B} (f : A → list B) (l : list A) a b x :
  NoDup (flat_map f l) → a ∈ l → b ∈ l → x ∈ f a → x ∈ f b →
  ∃ i, l !! i = Some a ∧ l !! i = Some b.
Proof.
  induction l as [|c l IH]; intros Hnd Ha Hb Hxa Hxb; [by apply elem_of_nil in Ha|].
  simpl in Hnd. apply NoDup_app in Hnd as (Hc & Hdisj & Hl).
  apply elem_of_cons in Ha as [->|Ha]; apply elem_of_cons in Hb as [->|Hb].
  - by exists 0.
  - exfalso. apply (Hdisj x Hxa). apply elem_of_flat_map. eauto.
  - exfalso. apply (Hdisj x Hxb). apply elem_of_flat_map. eauto.
  - destruct (IH Hl Ha Hb Hxa Hxb) as (i & ? & ?). by exists (S i).
Qed.

(** ** The body of [processNode], case by case *)

Section Body.
Variable fault : nat → bool.

Lemma getChildren_ok d n nn :
  nodes d !! n = Some nn → getChildren n d = (d, Normal (default [] (children nn))).
Proof.
  intros Hn. unfold getChildren.
  rewrite (bind_Normal _ _ _ _ _ (read_ok d n nn children Hn)).
  by destruct (children nn).
Qed.

Lemma processNode_S fuel n d :
  processNode fault (S fuel) n d
  = try_catch (processNode_body fault (processNode fault fuel) n)
      (λ error, let* node_name := read n name in
                console_error (error_message node_name) error) d.
Proof. reflexivity. Qed.

Lemma processNode_Normal fuel n d d' :
  processNode_body fault (processNode fault fuel) n d = (d', Normal tt) →
  processNode fault (S fuel) n d = (d', Normal tt).
Proof. intros H. rewrite processNode_S. unfold try_catch. by rewrite H. Qed.

Lemma body_removed visit n nn d :
  nodes d !! n = Some nn → parent nn = None →
  processNode_body fault visit n d = (d, Normal tt).
Proof.
  intros Hn Hp. unfold processNode_body.
  rewrite (bind_Normal _ _ _ _ _ (read_ok d n nn parent Hn)). by rewrite Hp.
Qed.

Lemma body_text visit n nn p d :
  nodes d !! n = Some nn → parent nn = Some p → type nn = TEXT →
  processNode_body fault visit n d = convert_text fault n d.
Proof.
  intros Hn Hp Ht. unfold processNode_body.
  rewrite (bind_Normal _ _ _ _ _ (read_ok d n nn parent Hn)). rewrite Hp.
  rewrite (bind_Normal _ _ _ _ _ (read_ok d n nn type Hn)). rewrite Ht.
  reflexivity.
Qed.

Lemma body_instance visit n nn p d :
  nodes d !! n = Some nn → parent nn = Some p → type nn = INSTANCE →
  processNode_body fault visit n d = detach_and_visit fault visit n p d.
Proof.
  intros Hn Hp Ht. unfold processNode_body.
  rewrite (bind_Normal _ _ _ _ _ (read_ok d n nn parent Hn)). rewrite Hp.
  rewrite (bind_Normal _ _ _ _ _ (read_ok d n nn type Hn)). rewrite Ht.
  reflexivity.
Qed.

Lemma body_other visit n nn p d :
  nodes d !! n = Some nn → parent nn = Some p →
  type nn ≠ INSTANCE → type nn ≠ TEXT →
  processNode_body fault visit n d
  = for_each visit (default [] (children nn)) d.
Proof.
  intros Hn Hp Hi Ht. unfold processNode_body.
  rewrite (bind_Normal _ _ _ _ _ (read_ok d n nn parent Hn)). rewrite Hp.
  rewrite (bind_Normal _ _ _ _ _ (read_ok d n nn type Hn)).
  rewrite decide_False by done. rewrite decide_False by done.
  by rewrite (bind_Normal _ _ _ _ _ (getChildren_ok d n nn Hn)).
Qed.

Lemma detachInstance_detached d n nn p pn cs i ks :
  nodes d !! n = Some nn → type nn = INSTANCE → parent nn = Some p →
  children nn = Some ks →
  nodes d !! p = Some pn → children pn = Some cs →
  indexOf cs n = Z.of_nat i →
  fault (calls d) = false →
  detachInstance fault n d = (detached d n nn p pn cs i ks, Normal tt).
Proof.
  intros Hn Ht Hp Hks Hpn Hcs Hidx Hf.
  apply detachInstance_ok; [done|]. unfold host_detachInstance.
  rewrite Hn. simpl. rewrite decide_True by done. rewrite Hp. simpl.
  rewrite Hpn. simpl. rewrite Hcs. simpl. rewrite Hks. simpl.
  rewrite Hidx. rewrite decide_True by lia.
  by rewrite Nat2Z.id.
Qed.

Lemma visit_detached visit d n nn p pn cs i ks :
  indexOf cs n = Z.of_nat i → i < length cs → nextId d ≠ p → n ≠ p →
  (let* siblings' := read_children p in
   match at_index siblings' (indexOf cs n) with
   | Some detachedFrame =>
       let* kids := getChildren detachedFrame in
       for_each visit kids
   | None => ret tt
   end) (detached d n nn p pn cs i ks)
  = for_each visit ks (detached d n nn p pn cs i ks).
Proof.
  intros Hidx Hlt Hgp Hnp. set (d1 := detached d n nn p pn cs i ks).
  assert (Hp1 : nodes d1 !! p = Some (set_children (Some (<[i := nextId d]> cs)) pn)).
  { simpl. rewrite !lookup_insert_ne by done. apply lookup_insert_eq. }
  rewrite (bind_Normal _ _ _ _ _ (read_children_ok d1 p _ _ Hp1 eq_refl)).
  rewrite Hidx. unfold at_index.
  rewrite decide_True by lia. rewrite Nat2Z.id.
  rewrite list_lookup_insert_eq by done.
  assert (Hf1 : nodes d1 !! nextId d = Some (set_children (Some ks) (set_type FRAME nn))).
  { simpl. apply lookup_insert_eq. }
  by rewrite (bind_Normal _ _ _ _ _ (getChildren_ok d1 _ _ Hf1)).
Qed.

Lemma detach_and_visit_ok visit d n nn p pn cs i ks :
  nodes d !! n = Some nn → type nn = INSTANCE → parent nn = Some p →
  children nn = Some ks →
  nodes d !! p = Some pn → children pn = Some cs →
  cs !! i = Some n → (∀ j, cs !! j = Some n → j = i) →
  nodes d !! nextId d = None → n ≠ p →
  fault (calls d) = false →
  detach_and_visit fault visit n p d
  = for_each visit ks (detached d n nn p pn cs i ks).
Proof.
  intros Hn Ht Hp Hks Hpn Hcs Hi Huniq Hfresh Hnp Hf.
  assert (Hgp : nextId d ≠ p) by (intros Heq; rewrite Heq in Hfresh; congruence).
  pose proof (indexOf_lookup cs n i Hi Huniq) as Hidx.
  unfold detach_and_visit.
  rewrite (bind_Normal _ _ _ _ _ (read_children_ok d p pn cs Hpn Hcs)).
  rewrite (bind_Normal _ _ _ _ _
             (detachInstance_detached d n nn p pn cs i ks Hn Ht Hp Hks Hpn Hcs Hidx Hf)).
  apply visit_detached; try done. by eapply lookup_lt_Some.
Qed.

End Body.

(** ** Visiting the children of a container, one after the other *)

Lemma Forall2_impl_l {A B} (P : A → Prop) (R R' : A → B → Prop) l k :
  Forall P l → Forall2 R l k → (∀ a b, P a → R a b → R' a b) → Forall2 R' l k.
Proof.
  intros HP HR Himpl. induction HR as [|a b l k Hab _ IH]; [constructor|].
  apply Forall_cons in HP as [Ha HP]. constructor; auto.
Qed.

Section Visits.
Variable fault : nat → bool.

Lemma subtree_below d p t x :
  bounded d → subtree (nodes d) p t → x ∈ ids t → x < nextId d.
Proof.
  intros Hb Hsub Hx. destruct (subtree_stored _ _ _ Hsub x Hx) as (xn & _ & Hxn & _).
  by eapply bounded_stored.
Qed.

Lemma visit_kids fuel ts :
  Forall (visit_spec fault fuel) ts →
  ∀ d k kn skip,
    nodes d !! k = Some kn → children kn = Some (skip ++ (root <$> ts)) →
    Forall (subtree (nodes d) k) ts →
    NoDup (flat_map ids ts) → k ∉ flat_map ids ts →
    Forall (λ r, r ∉ (root <$> ts)) skip →
    bounded d → page_ok d → quiet fault d →
    ∃ d' rs,
      for_each (processNode fault fuel) (root <$> ts) d = (d', Normal tt)
      ∧ bounded d' ∧ page_ok d' ∧ currentPage d' = currentPage d
      ∧ nextId d ≤ nextId d' ∧ calls d ≤ calls d' ∧ console d' = console d
      ∧ (∀ x, x ∉ flat_map ids ts → x ≠ k → x < nextId d → nodes d' !! x = nodes d !! x)
      ∧ nodes d' !! k = Some (set_children (Some (skip ++ rs)) kn)
      ∧ Forall2 (kid_visited d d' k) ts rs.
Proof.
  induction 1 as [|t ts Ht _ IH]; intros d k kn skip Hk Hch Hsub Hnd Hkout Hskip Hb Hpg Hq.
  { exists d, []. simpl in *. rewrite app_nil_r in *. split; [done|].
    split_and!; try done.
    rewrite <- Hch. by rewrite set_children_same. }
  simpl in Hch, Hnd, Hkout.
  apply Forall_cons in Hsub as [Hsub_t Hsub_ts].
  apply NoDup_app in Hnd as (Hnd_t & Hdisj & Hnd_ts).
  assert (Hk_t : k ∉ ids t) by (intros H; apply Hkout, elem_of_app; by left).
  assert (Hk_ts : k ∉ flat_map ids ts) by (intros H; apply Hkout, elem_of_app; by right).
  set (cs := skip ++ root t :: (root <$> ts)) in *.
  set (i := length skip).
  assert (Hroots : ∀ t', t' ∈ ts → root t' ∈ flat_map ids ts).
  { intros t' Ht'. apply elem_of_flat_map. exists t'. split; [done | apply root_in_ids]. }
  assert (Hi : cs !! i = Some (root t)).
  { unfold cs, i. by rewrite list_lookup_middle. }
  assert (Huniq : ∀ j, cs !! j = Some (root t) → j = i).
  { intros j Hj. unfold cs in Hj. apply lookup_app_Some in Hj as [Hj|[Hge Hj]].
    - exfalso. rewrite Forall_forall in Hskip. apply (Hskip (root t)).
      + by eapply list_elem_of_lookup_2.
      + simpl. left.
    - fold i in Hge, Hj. destruct (j - i) as [|j'] eqn:Hji; [lia|]. exfalso.
      simpl in Hj. apply list_elem_of_lookup_2 in Hj.
      apply list_elem_of_fmap in Hj as (t' & Heq & Ht').
      apply (Hdisj (root t) (root_in_ids t)). rewrite Heq. by apply Hroots. }
  destruct (Ht d k kn cs i Hsub_t Hnd_t Hk_t Hk Hch Hi Huniq Hb Hpg Hq)
    as (d1 & r & Hrun1 & [Hb1 Hpg1 Hpe1 Hnx1 Hcl1 Hco1 Hfr1 Hpar1 Hslot1 Htext1]).
  assert (Hsub1 : Forall (subtree (nodes d1) k) ts).
  { rewrite Forall_forall in Hsub_ts. apply Forall_forall. intros t' Ht'.
    apply (subtree_ext (nodes d)); [|by apply Hsub_ts].
    intros x Hx. apply Hfr1.
    - intros Hxt. apply (Hdisj x Hxt). apply elem_of_flat_map. eauto.
    - intros ->. apply Hk_ts. apply elem_of_flat_map. eauto.
    - exact (subtree_below d k t' x Hb (Hsub_ts t' Ht') Hx). }
  assert (Hlist : <[i := r]> cs = (skip ++ [r]) ++ (root <$> ts)).
  { unfold cs, i. rewrite insert_app_r_alt by lia. rewrite Nat.sub_diag. simpl.
    by rewrite <- app_assoc. }
  assert (Hskip1 : Forall (λ r', r' ∉ (root <$> ts)) (skip ++ [r])).
  { apply Forall_app. split.
    - eapply Forall_impl; [exact Hskip|]. simpl. intros r' Hr' Hin.
      apply Hr'. by right.
    - apply Forall_singleton. intros Hr. apply list_elem_of_fmap in Hr as (t' & -> & Ht').
      destruct Hslot1 as [Heq|Hge].
      + apply (Hdisj (root t) (root_in_ids t)). rewrite <- Heq. by apply Hroots.
      + rewrite Forall_forall in Hsub_ts.
        pose proof (subtree_below d k t' (root t') Hb (Hsub_ts t' Ht') (root_in_ids t')).
        lia. }
  destruct (IH d1 k (set_children (Some (<[i := r]> cs)) kn) (skip ++ [r]))
    as (d' & rs & Hrun & Hb' & Hpg' & Hpe' & Hnx' & Hcl' & Hco' & Hfr' & Hk' & Hall');
    try done.
  { simpl. by rewrite Hlist. }
  { by apply (quiet_le fault d). }
  exists d', (r :: rs). split.
  { simpl. by rewrite (bind_Normal _ _ _ _ _ Hrun1). }
  assert (Hfresh_out : ∀ x, nextId d ≤ x → x ∉ flat_map ids ts).
  { intros x Hge Hx. apply elem_of_flat_map in Hx as (t' & Ht' & Hx).
    rewrite Forall_forall in Hsub_ts.
    pose proof (subtree_below d k t' x Hb (Hsub_ts t' Ht') Hx). lia. }
  assert (Hk_lt : k < nextId d) by (by eapply bounded_stored).
  split_and!; try done; try lia; try congruence.
  - intros x Hx Hxk Hlt.
    assert (Hx_t : x ∉ ids t) by (intros H; apply Hx, elem_of_app; by left).
    assert (Hx_ts : x ∉ flat_map ids ts) by (intros H; apply Hx, elem_of_app; by right).
    rewrite Hfr' by (done || lia). by apply Hfr1.
  - rewrite Hk'. rewrite set_children_set_children. by rewrite <- app_assoc.
  - constructor.
    + split; [done|]. intros nn Hnn Hty. destruct (Htext1 nn Hnn Hty) as (-> & Hg & Hgone).
      assert (nextId d < nextId d1).
      { apply (bounded_stored d1 _ _ Hb1) in Hg. done. }
      split; [lia|]. split.
      * rewrite Hfr'; [done | apply Hfresh_out; lia | lia | lia].
      * rewrite Hfr'; [done | | |].
        -- intros Hin. apply (Hdisj (root t) (root_in_ids t) Hin).
        -- intros Heq. apply Hk_t. rewrite <- Heq. apply root_in_ids.
        -- pose proof (subtree_below d k t (root t) Hb Hsub_t (root_in_ids t)). lia.
    + assert (Hin : Forall (λ t', t' ∈ ts) ts) by (apply Forall_forall; auto).
      eapply Forall2_impl_l; [exact Hin | exact Hall' |].
      intros t' r' Ht' [Hslot Htext]. split.
      * destruct Hslot; [by left | right; lia].
      * intros nn Hnn Hty.
        assert (Hnn1 : nodes d1 !! root t' = Some nn).
        { rewrite Hfr1; [done | | |].
          - intros Hxt. apply (Hdisj (root t') Hxt). by apply Hroots.
          - intros Heq. apply Hk_ts. rewrite <- Heq. by apply Hroots.
          - by eapply bounded_stored. }
        destruct (Htext nn Hnn1 Hty) as (? & ? & ?). split; [lia | done].
Qed.

End Visits.

(** ** The visit of a subtree *)

Section Subtrees.
Variable fault : nat → bool.

Lemma page_ok_not_child d x xn y :
  page_ok d → nodes d !! x = Some xn → parent xn = Some y → x ≠ currentPage d.
Proof.
  unfold page_ok. intros Hpg Hx Hy ->. rewrite Hx in Hpg. destruct Hpg. congruence.
Qed.

Lemma visit_text fuel n :
  ∀ d p pn cs i nn,
    nodes d !! n = Some nn → type nn = TEXT → children nn = None → parent nn = Some p →
    nodes d !! p = Some pn → children pn = Some cs →
    cs !! i = Some n → (∀ j, cs !! j = Some n → j = i) →
    bounded d → page_ok d → quiet fault d →
    ∃ d', processNode fault (S fuel) n d = (d', Normal tt)
          ∧ nodes d' = <[nextId d := ghost_of nn p]>
                         (<[n := set_parent None nn]>
                            (<[p := set_children (Some (<[i := nextId d]> cs)) pn]> (nodes d)))
          ∧ visited d d' p pn cs i (TNode n []) (nextId d).
Proof.
  intros d p pn cs i nn Hn Hty Hleaf Hp Hpn Hcs Hi Huniq Hb Hpg Hq.
  pose proof (bounded_fresh d Hb) as Hfresh.
  assert (Hgcs : nextId d ∉ cs).
  { intros Hin. pose proof (bounded_child d p pn cs _ Hb Hpn Hcs Hin). lia. }
  pose proof Hpg as Hpg0. unfold page_ok in Hpg0.
  destruct (nodes d !! currentPage d) as [qn|] eqn:Hqn; [|done].
  destruct Hpg0 as [Hqpar [lq Hlq]].
  assert (Hglq : nextId d ∉ lq).
  { intros Hin. pose proof (bounded_child d _ qn lq _ Hb Hqn Hlq Hin). lia. }
  destruct (convert_text_ok fault d n nn p pn cs i qn lq Hn Hleaf Hp Hpn Hcs Hi Huniq
              Hfresh Hgcs Hqn Hlq Hglq Hq)
    as (d' & Hrun & Hnodes & Hnext & Hpage & Hsel & Hcons & Hnote & Hclose & Hcalls).
  exists d'. split.
  { apply processNode_Normal. by rewrite (body_text fault _ n nn p d Hn Hp Hty). }
  split; [exact Hnodes|].
  assert (Hgn : nextId d ≠ n) by (intros Heq; rewrite Heq in Hfresh; congruence).
  assert (Hgp : nextId d ≠ p) by (intros Heq; rewrite Heq in Hfresh; congruence).
  assert (Hnp : n ≠ p) by (intros ->; congruence).
  assert (Hn_lt : n < nextId d) by (by eapply bounded_stored).
  assert (Hp_lt : p < nextId d) by (by eapply bounded_stored).
  constructor; try done; try lia.
  - (* bounded *)
    unfold bounded. rewrite Hnodes, Hnext.
    apply map_Forall_insert_2; [split; [lia | done]|].
    apply map_Forall_insert_2.
    { split; [lia|]. simpl. by rewrite Hleaf. }
    apply map_Forall_insert_2.
    { split; [lia|]. simpl. apply Forall_insert; [|lia].
      destruct (Hb p pn Hpn) as [_ H]. rewrite Hcs in H.
      eapply Forall_impl; [exact H|]. simpl. intros. lia. }
    eapply map_Forall_impl; [exact Hb|]. intros k kn Hk. eapply within_mono; [|exact Hk]. lia.
  - (* page *)
    unfold page_ok. rewrite Hpage, Hnodes.
    assert (Hqg : nextId d ≠ currentPage d) by (intros Heq; rewrite Heq in Hfresh; congruence).
    assert (Hqn' : n ≠ currentPage d) by (by eapply page_ok_not_child).
    rewrite lookup_insert_ne by done. rewrite lookup_insert_ne by done.
    destruct (decide (p = currentPage d)) as [Heq|Hne].
    + rewrite Heq, lookup_insert_eq. simpl. rewrite <- Heq in Hqn.
      assert (pn = qn) by congruence. subst qn. eauto.
    + rewrite lookup_insert_ne by done. rewrite Hqn. eauto.
  - (* frame *)
    intros k Hk Hkp Hlt. rewrite Hnodes.
    assert (k ≠ n) by (intros ->; apply Hk; simpl; left).
    rewrite !lookup_insert_ne by (done || lia). done.
  - (* parent *)
    rewrite Hnodes. rewrite !lookup_insert_ne by done. apply lookup_insert_eq.
  - (* text *)
    simpl. intros nn' Hnn' _. assert (nn' = nn) by congruence. subst nn'.
    split; [done|]. rewrite Hnodes. split; [apply lookup_insert_eq|].
    rewrite lookup_insert_ne by done. by rewrite lookup_insert_eq.
Qed.

End Subtrees.

Section Instances.
Variable fault : nat → bool.

(** The store right after the host detached an instance. *)
Lemma detached_store d k kn p pn cs i kids :
  let t := TNode k kids in
  let d1 := detached d k kn p pn cs i (root <$> kids) in
  nodes d !! k = Some kn → type kn = INSTANCE → parent kn = Some p →
  children kn = Some (root <$> kids) →
  Forall (subtree (nodes d) k) kids → NoDup (ids t) → p ∉ ids t →
  nodes d !! p = Some pn → children pn = Some cs → cs !! i = Some k →
  bounded d → page_ok d →
  nodes d1 !! nextId d = Some (set_children (Some (root <$> kids)) (set_type FRAME kn))
  ∧ nodes d1 !! p = Some (set_children (Some (<[i := nextId d]> cs)) pn)
  ∧ parent <$> nodes d1 !! k = Some None
  ∧ Forall (subtree (nodes d1) (nextId d)) kids
  ∧ bounded d1 ∧ page_ok d1
  ∧ (∀ x, x ∉ ids t → x ≠ p → x < nextId d → nodes d1 !! x = nodes d !! x).
Proof.
  intros t d1 Hk Hty Hp Hch Hsub Hnd Hpout Hpn Hcs Hi Hb Hpg.
  pose proof (bounded_fresh d Hb) as Hfresh.
  set (f := nextId d) in *. set (ks := root <$> kids) in *.
  assert (Hfk : f ≠ k) by (intros Heq; rewrite Heq in Hfresh; congruence).
  assert (Hfp : f ≠ p) by (intros Heq; rewrite Heq in Hfresh; congruence).
  assert (Hkp : k ≠ p) by (intros ->; apply Hpout; simpl; left).
  simpl in Hnd. apply NoDup_cons in Hnd as [Hk_out Hnd].
  assert (Hks_ids : ∀ x, x ∈ ks → x ∈ flat_map ids kids).
  { intros x Hx. apply list_elem_of_fmap in Hx as (t' & -> & Ht').
    apply elem_of_flat_map. exists t'. split; [done | apply root_in_ids]. }
  assert (Hlook : ∀ x, x ≠ f → x ≠ k → x ≠ p →
            nodes d1 !! x = (λ xn, if decide (x ∈ ks) then set_parent (Some f) xn else xn)
                              <$> nodes d !! x).
  { intros x ? ? ?. simpl. rewrite !lookup_insert_ne by done. apply lookup_adopt. }
  split_and!.
  - simpl. apply lookup_insert_eq.
  - simpl. rewrite !lookup_insert_ne by done. apply lookup_insert_eq.
  - simpl. rewrite lookup_insert_ne by done. by rewrite lookup_insert_eq.
  - apply Forall_forall. intros t' Ht'. rewrite Forall_forall in Hsub.
    specialize (Hsub t' Ht'). destruct (subtree_root _ _ _ Hsub) as (tn & Htn & _).
    assert (Hroot_in : root t' ∈ ks) by (apply list_elem_of_fmap; eauto).
    assert (Hin_t : ∀ x, x ∈ ids t' → x ∈ flat_map ids kids).
    { intros x Hx. apply elem_of_flat_map. eauto. }
    assert (Hne : ∀ x, x ∈ ids t' → x ≠ f ∧ x ≠ k ∧ x ≠ p).
    { intros x Hx. split_and!.
      - intros ->. destruct (subtree_stored _ _ _ Hsub f Hx) as (? & ? & ? & _). congruence.
      - intros ->. apply Hk_out. by apply Hin_t.
      - intros ->. apply Hpout. simpl. right. by apply Hin_t. }
    apply (subtree_reparent (nodes d) (nodes d1) k f t' tn); try done.
    + destruct (Hne _ (root_in_ids t')) as (? & ? & ?).
      rewrite Hlook by done. rewrite Htn. simpl. by rewrite decide_True.
    + intros x Hx Hxr. destruct (Hne _ Hx) as (? & ? & ?).
      rewrite Hlook by done. destruct (nodes d !! x) as [xn|]; [|done]. simpl.
      rewrite decide_False; [done|]. intros Hxks.
      apply list_elem_of_fmap in Hxks as (t'' & Heq & Ht'').
      destruct (NoDup_flat_map_same ids kids t' t'' x Hnd Ht' Ht'' Hx) as (j & Hj1 & Hj2).
      { rewrite Heq. apply root_in_ids. }
      assert (t' = t'') by congruence. subst t''. done.
    + assert (Hsub_nd : ∀ l, NoDup (flat_map ids l) → ∀ a, a ∈ l → NoDup (ids a)).
      { clear. induction l as [|b l IH]; intros Hnd a Ha; [by apply elem_of_nil in Ha|].
        simpl in Hnd. apply NoDup_app in Hnd as (Hb & _ & Hl).
        apply elem_of_cons in Ha as [->|Ha]; [done | by apply IH]. }
      by apply (Hsub_nd kids).
  - (* bounded *)
    unfold bounded. simpl nextId. simpl nodes.
    apply map_Forall_insert_2.
    { split; [lia|]. simpl. destruct (Hb k kn Hk) as [_ H]. rewrite Hch in H.
      eapply Forall_impl; [exact H|]. simpl. intros. lia. }
    apply map_Forall_insert_2.
    { split; [|simpl; constructor]. apply (bounded_stored d _ _ Hb) in Hk. lia. }
    apply map_Forall_insert_2.
    { split; [apply (bounded_stored d _ _ Hb) in Hpn; lia|]. simpl.
      apply Forall_insert; [|lia]. destruct (Hb p pn Hpn) as [_ H]. rewrite Hcs in H.
      eapply Forall_impl; [exact H|]. simpl. intros. lia. }
    intros x xn Hx. rewrite lookup_adopt in Hx.
    destruct (nodes d !! x) as [xn0|] eqn:Hx0; [|done]. simpl in Hx. injection Hx as <-.
    apply (within_mono (nextId d)); [lia|]. specialize (Hb x xn0 Hx0).
    destruct (decide (x ∈ ks)); [|done]. destruct Hb as [? H]. split; done.
  - (* page *)
    unfold page_ok in *. simpl currentPage.
    destruct (nodes d !! currentPage d) as [qn|] eqn:Hqn; [|done].
    destruct Hpg as [Hqpar Hqch].
    assert (Hqf : currentPage d ≠ f) by (intros Heq; rewrite Heq in Hqn; congruence).
    assert (Hqk : currentPage d ≠ k) by (intros Heq; rewrite Heq in Hqn; congruence).
    destruct (decide (currentPage d = p)) as [Heq|Hne].
    + simpl. rewrite lookup_insert_ne by done. rewrite lookup_insert_ne by done.
      rewrite Heq, lookup_insert_eq. simpl. rewrite Heq in Hqn.
      assert (pn = qn) by congruence. subst qn. eauto.
    + rewrite Hlook by done. rewrite Hqn. simpl.
      rewrite decide_False; [done|]. intros Hin. apply Hks_ids in Hin.
      apply elem_of_flat_map in Hin as (t' & Ht' & Hin).
      rewrite Forall_forall in Hsub.
      destruct (subtree_stored _ _ _ (Hsub t' Ht') _ Hin) as (? & ? & ? & ?). congruence.
  - (* frame *)
    intros x Hx Hxp Hlt. simpl in Hx. apply not_elem_of_cons in Hx as [Hxk Hx].
    rewrite Hlook by (done || unfold f; lia).
    destruct (nodes d !! x) as [xn|]; [|done]. simpl.
    rewrite decide_False; [done|]. intros Hin. by apply Hx, Hks_ids.
Qed.

End Instances.

Section Traversal.
Variable fault : nat → bool.

Lemma Forall_depth_kids (P : nat → Tree → Prop) k kids fuel :
  depth (TNode k kids) < S fuel →
  Forall (λ t, ∀ fuel, depth t < fuel → P fuel t) kids →
  Forall (P fuel) kids.
Proof.
  intros Hd IH. rewrite Forall_forall in IH. apply Forall_forall. intros t Ht.
  apply IH; [done|]. pose proof (depth_kid k kids t Ht). lia.
Qed.

(** With a host that accepts every call, the visit of a subtree returns and
    leaves the document as [visited] describes. *)
Lemma processNode_visits t : ∀ fuel, depth t < fuel → visit_spec fault fuel t.
Proof.
  induction t as [k kids IH] using Tree_ind. intros [|fuel] Hfuel; [lia|].
  pose proof (Forall_depth_kids (visit_spec fault) k kids fuel Hfuel IH) as Hkids.
  intros d p pn cs i Hsub Hnd Hpout Hpn Hcs Hi Huniq Hb Hpg Hq. simpl in Hi, Huniq.
  pose proof Hsub as Hsub0.
  apply subtree_inv in Hsub as (kn & Hk & Hp & Hty & Hch & Hleaf & Hsubs).
  assert (Hkp : k ≠ p) by (intros ->; apply Hpout; simpl; left).
  assert (Hk_lt : k < nextId d) by (by eapply bounded_stored).
  assert (Hp_lt : p < nextId d) by (by eapply bounded_stored).
  pose proof Hnd as Hnd0. simpl in Hnd. apply NoDup_cons in Hnd as [Hk_out Hnd].
  assert (Hp_kids : p ∉ flat_map ids kids).
  { intros Hin. apply Hpout. simpl. by right. }
  destruct (decide (type kn = TEXT)) as [Htext|Hntext].
  { (* a text node *)
    rewrite Htext in Hch, Hleaf. simpl in Hch. rewrite (Hleaf eq_refl) in *.
    destruct (visit_text fault fuel k d p pn cs i kn Hk Htext Hch Hp Hpn Hcs Hi Huniq
                Hb Hpg Hq) as (d' & Hrun & _ & Hvis).
    by exists d', (nextId d). }
  destruct (decide (type kn = INSTANCE)) as [Hinst|Hninst].
  { (* an instance *)
    rewrite Hinst in Hch. simpl in Hch.
    destruct (detached_store d k kn p pn cs i kids Hk Hinst Hp Hch Hsubs Hnd0 Hpout
                Hpn Hcs Hi Hb Hpg) as (Hf1 & Hp1 & Hgone1 & Hsub1 & Hb1 & Hpg1 & Hfr1).
    set (d1 := detached d k kn p pn cs i (root <$> kids)) in *.
    assert (Hf_out : nextId d ∉ flat_map ids kids).
    { intros Hin. apply elem_of_flat_map in Hin as (t' & Ht' & Hin).
      rewrite Forall_forall in Hsubs.
      pose proof (subtree_below d k t' _ Hb (Hsubs t' Ht') Hin). lia. }
    destruct (visit_kids fault fuel kids Hkids d1 (nextId d) _ [] Hf1 eq_refl Hsub1 Hnd
                Hf_out (Forall_nil_2 _) Hb1 Hpg1)
      as (d' & rs & Hrun & Hb' & Hpg' & Hpe' & Hnx' & Hcl' & Hco' & Hfr' & Hk' & Hall').
    { apply (quiet_le fault d); [simpl; lia | done]. }
    exists d', (nextId d). split.
    { apply processNode_Normal.
      rewrite (body_instance fault _ k kn p d Hk Hp Hinst).
      rewrite (detach_and_visit_ok fault _ d k kn p pn cs i (root <$> kids)
                 Hk Hinst Hp Hch Hpn Hcs Hi Huniq (bounded_fresh d Hb) Hkp
                 (quiet_now fault d Hq)).
      exact Hrun. }
    simpl in Hnx', Hcl', Hco', Hpe'.
    constructor; try done; try lia.
    - intros x Hx Hxp Hlt. rewrite Hfr'; [by apply Hfr1 | | lia | simpl; lia].
      intros Hin. apply Hx. simpl. by right.
    - rewrite Hfr'; [done | done | lia | simpl; lia].
    - simpl. intros nn Hnn Hnt. congruence. }
  (* any other node: its children, if it has any *)
  destruct (container (type kn)) eqn:Hcont.
  - destruct (visit_kids fault fuel kids Hkids d k kn [] Hk Hch Hsubs Hnd Hk_out
                (Forall_nil_2 _) Hb Hpg Hq)
      as (d' & rs & Hrun & Hb' & Hpg' & Hpe' & Hnx' & Hcl' & Hco' & Hfr' & Hk' & Hall').
    exists d', k. split.
    { apply processNode_Normal.
      rewrite (body_other fault _ k kn p d Hk Hp Hninst Hntext). rewrite Hch. exact Hrun. }
    constructor; try done.
    + intros x Hx Hxp Hlt. apply Hfr'; [|by intros ->; apply Hx; simpl; left | done].
      intros Hin. apply Hx. simpl. by right.
    + rewrite Hfr' by done. rewrite Hpn. f_equal.
      rewrite list_insert_id by done. rewrite <- Hcs. by rewrite set_children_same.
    + by left.
    + simpl. intros nn Hnn Hnt. congruence.
  - exists d, k. split.
    { apply processNode_Normal.
      rewrite (body_other fault _ k kn p d Hk Hp Hninst Hntext). by rewrite Hch. }
    constructor; try done.
    + rewrite Hpn. f_equal.
      rewrite list_insert_id by done. rewrite <- Hcs. by rewrite set_children_same.
    + by left.
    + simpl. intros nn Hnn Hnt. congruence.
Qed.

End Traversal.

(** ** Text nodes and instances *)

(** C1. A text node [n] with a parent [p], found at index [i] of the child
    list of [p], is replaced by a rectangle: named Ghost_ followed by the
    name of [n], with the size and the position of [n], corner radius 4, the
    fills that colour extraction returns for [n] and the opacity that
    [calculateOpacity] returns for [n].  The rectangle takes index [i] in the
    child list of [p], every other index keeps its node, and [n] is removed.
    The host is assumed to accept the calls. *)
Theorem processNode_text (fault : nat → bool) (fuel : nat) (d : Doc)
    (n p : NodeId) (nn pn : Node) (cs : list NodeId) (i : nat)
    (Hn : nodes d !! n = Some nn) (Htext : type nn = TEXT) (Hleaf : children nn = None)
    (Hp : parent nn = Some p)
    (Hpn : nodes d !! p = Some pn) (Hcs : children pn = Some cs)
    (Hi : cs !! i = Some n) (Huniq : ∀ j, cs !! j = Some n → j = i)
    (Hb : bounded d) (Hpg : page_ok d) (Hq : quiet fault d) :
  ∃ d' ghost paints dc,
    processNode fault (S fuel) n d = (d', Normal tt)
    ∧ nodes d' !! nextId d = Some ghost
    ∧ type ghost = RECTANGLE
    ∧ name ghost = "Ghost_" +:+ name nn
    ∧ width ghost = width nn ∧ height ghost = height nn
    ∧ x ghost = x nn ∧ y ghost = y nn
    ∧ cornerRadius ghost = 4%Q
    ∧ getTextColor fault n d = (dc, Normal paints) ∧ fills ghost = PaintArray paints
    ∧ opacity ghost = calculateOpacity nn
    ∧ parent ghost = Some p
    ∧ nodes d' !! p ≫= children = Some (<[i := nextId d]> cs)
    ∧ <[i := nextId d]> cs !! i = Some (nextId d)
    ∧ (∀ j, j ≠ i → <[i := nextId d]> cs !! j = cs !! j)
    ∧ parent <$> nodes d' !! n = Some None
    ∧ (n ∉ <[i := nextId d]> cs)
    ∧ (∀ k, k ≠ n → k ≠ p → k ≠ nextId d → nodes d' !! k = nodes d !! k)
    ∧ console d' = console d.
Proof.
  destruct (visit_text fault fuel n d p pn cs i nn Hn Htext Hleaf Hp Hpn Hcs Hi Huniq
              Hb Hpg Hq) as (d' & Hrun & Hnodes & Hvis).
  pose proof (bounded_fresh d Hb) as Hfresh.
  assert (Hgn : nextId d ≠ n) by (intros Heq; rewrite Heq in Hfresh; congruence).
  assert (Hgp : nextId d ≠ p) by (intros Heq; rewrite Heq in Hfresh; congruence).
  assert (Hnp : n ≠ p) by (intros ->; congruence).
  pose proof (lookup_lt_Some _ _ _ Hi) as Hlt.
  exists d', (ghost_of nn p), (textColor nn). eexists.
  split; [exact Hrun|]. rewrite Hnodes.
  split; [apply lookup_insert_eq|].
  do 7 (split; [reflexivity|]).
  split; [exact (getTextColor_returns fault d n nn Hn Hq)|].
  do 3 (split; [reflexivity|]).
  split_and!.
  - rewrite !lookup_insert_ne by done. by rewrite lookup_insert_eq.
  - by apply list_lookup_insert_eq.
  - intros j Hj. by apply list_lookup_insert_ne.
  - rewrite lookup_insert_ne by done. by rewrite lookup_insert_eq.
  - intros Hin. apply list_elem_of_lookup in Hin as [j Hj].
    destruct (decide (j = i)) as [->|Hne].
    + rewrite list_lookup_insert_eq in Hj by done. congruence.
    + rewrite list_lookup_insert_ne in Hj by done. apply Huniq in Hj. done.
  - intros k ? ? ?. by rewrite !lookup_insert_ne by done.
  - apply Hvis.
Qed.

(** C2. An instance [n] with a parent [p], at index [i] of the child list of
    [p]: the host call destroys [n] and puts a frame with a fresh identifier
    at index [i]; [processNode] then visits the children of that frame, in
    order, and not the frame itself.  When the host accepts the calls the
    frame is still at index [i] afterwards, and every child that was a text
    node has been replaced, at its index in the frame, by its placeholder. *)
Theorem processNode_instance (fault : nat → bool) (fuel : nat) (d : Doc)
    (n p : NodeId) (nn pn : Node) (cs : list NodeId) (i : nat) (kids : list Tree)
    (Hn : nodes d !! n = Some nn) (Hinst : type nn = INSTANCE) (Hp : parent nn = Some p)
    (Hch : children nn = Some (root <$> kids))
    (Hsub : Forall (subtree (nodes d) n) kids)
    (Hnd : NoDup (ids (TNode n kids))) (Hpout : p ∉ ids (TNode n kids))
    (Hpn : nodes d !! p = Some pn) (Hcs : children pn = Some cs)
    (Hi : cs !! i = Some n) (Huniq : ∀ j, cs !! j = Some n → j = i)
    (Hb : bounded d) (Hpg : page_ok d) (Hq : quiet fault d)
    (Hfuel : Forall (λ t, depth t < fuel) kids) :
  let frame := nextId d in
  let d1 := detached d n nn p pn cs i (root <$> kids) in
  ∃ d' rs,
    detachInstance fault n d = (d1, Normal tt)
    ∧ parent <$> nodes d1 !! n = Some None
    ∧ nodes d1 !! p ≫= children = Some (<[i := frame]> cs)
    ∧ <[i := frame]> cs !! i = Some frame
    ∧ type <$> nodes d1 !! frame = Some FRAME
    ∧ nodes d1 !! frame ≫= children = Some (root <$> kids)
    ∧ (frame ∉ (root <$> kids))
    ∧ processNode fault (S fuel) n d
      = for_each (processNode fault fuel) (root <$> kids) d1
    ∧ for_each (processNode fault fuel) (root <$> kids) d1 = (d', Normal tt)
    ∧ nodes d' !! p ≫= children = Some (<[i := frame]> cs)
    ∧ nodes d' !! frame = Some (set_children (Some rs) (set_type FRAME nn))
    ∧ length rs = length kids
    ∧ (∀ j t kn,
         kids !! j = Some t → nodes d !! root t = Some kn → type kn = TEXT →
         ∃ g, rs !! j = Some g ∧ nodes d' !! g = Some (ghost_of kn frame)
              ∧ parent <$> nodes d' !! root t = Some None)
    ∧ console d' = console d.
Proof.
  intros frame d1.
  destruct (detached_store d n nn p pn cs i kids Hn Hinst Hp Hch Hsub Hnd Hpout
              Hpn Hcs Hi Hb Hpg) as (Hf1 & Hp1 & Hgone1 & Hsub1 & Hb1 & Hpg1 & Hfr1).
  fold frame d1 in Hf1, Hp1, Hgone1, Hsub1, Hb1, Hpg1, Hfr1.
  assert (Hnp : n ≠ p) by (intros ->; apply Hpout; simpl; left).
  pose proof Hnd as Hnd0. simpl in Hnd. apply NoDup_cons in Hnd as [Hn_out Hnd].
  assert (Hf_out : frame ∉ flat_map ids kids).
  { intros Hin. apply elem_of_flat_map in Hin as (t' & Ht' & Hin).
    rewrite Forall_forall in Hsub.
    pose proof (subtree_below d n t' _ Hb (Hsub t' Ht') Hin). unfold frame in *. lia. }
  assert (Hkids : Forall (visit_spec fault fuel) kids).
  { eapply Forall_impl; [exact Hfuel|]. intros t Ht. by apply processNode_visits. }
  destruct (visit_kids fault fuel kids Hkids d1 frame _ [] Hf1 eq_refl Hsub1 Hnd
              Hf_out (Forall_nil_2 _) Hb1 Hpg1)
    as (d' & rs & Hrun & Hb' & Hpg' & Hpe' & Hnx' & Hcl' & Hco' & Hfr' & Hk' & Hall').
  { apply (quiet_le fault d); [simpl; lia | done]. }
  pose proof (lookup_lt_Some _ _ _ Hi) as Hlt.
  assert (Hp_lt : p < nextId d) by (by eapply bounded_stored).
  exists d', rs. split_and!.
  - by apply (detachInstance_detached fault d n nn p pn cs i (root <$> kids)
               Hn Hinst Hp Hch Hpn Hcs (indexOf_lookup cs n i Hi Huniq)
               (quiet_now fault d Hq)).
  - exact Hgone1.
  - by rewrite Hp1.
  - by apply list_lookup_insert_eq.
  - by rewrite Hf1.
  - by rewrite Hf1.
  - intros Hin. apply Hf_out. apply list_elem_of_fmap in Hin as (t & -> & Ht).
    apply elem_of_flat_map. exists t. split; [done | apply root_in_ids].
  - rewrite processNode_S. unfold try_catch.
    rewrite (body_instance fault _ n nn p d Hn Hp Hinst).
    rewrite (detach_and_visit_ok fault _ d n nn p pn cs i (root <$> kids)
               Hn Hinst Hp Hch Hpn Hcs Hi Huniq (bounded_fresh d Hb) Hnp
               (quiet_now fault d Hq)).
    fold d1. by rewrite Hrun.
  - exact Hrun.
  - rewrite Hfr'; [by rewrite Hp1 | | unfold frame; lia | simpl; lia].
    intros Hin. apply Hpout. simpl. by right.
  - exact Hk'.
  - symmetry. by eapply Forall2_length.
  - intros j t kn Hj Hkn Hty.
    destruct (Forall2_lookup_l _ _ _ _ _ Hall' Hj) as (g & Hg & _ & Hghost).
    rewrite Forall_forall in Hsub1.
    assert (Ht : t ∈ kids) by (by eapply list_elem_of_lookup_2).
    destruct (subtree_root _ _ _ (Hsub1 t Ht)) as (kn1 & Hkn1 & Hpar1).
    assert (Hkn1' : kn1 = set_parent (Some frame) kn).
    { assert (Hroot : root t ∈ flat_map ids kids).
      { apply elem_of_flat_map. exists t. split; [done | apply root_in_ids]. }
      assert (root t ≠ frame) by (intros Heq; apply Hf_out; by rewrite <- Heq).
      assert (root t ≠ n) by (intros Heq; apply Hn_out; by rewrite <- Heq).
      assert (root t ≠ p) by (intros Heq; apply Hpout; simpl; right; by rewrite <- Heq).
      unfold d1, detached in Hkn1. simpl in Hkn1.
      rewrite !lookup_insert_ne in Hkn1 by done. rewrite lookup_adopt, Hkn in Hkn1.
      simpl in Hkn1. rewrite decide_True in Hkn1 by (apply list_elem_of_fmap; eauto).
      by injection Hkn1 as <-. }
    assert (Hty1 : type kn1 = TEXT) by (by rewrite Hkn1').
    destruct (Hghost kn1 Hkn1 Hty1) as (_ & Hg' & Hgone').
    exists g. split; [done|]. split; [|done]. rewrite Hg'. by rewrite Hkn1'.
  - simpl in Hco'. exact Hco'.
Qed.

(** ** The sample document *)

Lemma sample_bounded sel : bounded (sample_doc sel).
Proof. apply (bool_decide_unpack _). vm_compute. exact I. Qed.

Lemma sample_page_ok sel : page_ok (sample_doc sel).
Proof. unfold page_ok. simpl. split; [reflexivity | eexists; reflexivity]. Qed.

Lemma sample_instance_subtrees sel :
  Forall (subtree (nodes (sample_doc sel)) 3) sample_instance_kids.
Proof.
  repeat constructor.
  - eapply (subtree_node _ 3 5 _ []); [reflexivity | reflexivity | | reflexivity | done |
                                        constructor].
    unfold typed. simpl. split; [intros [? ?]; done | done].
  - eapply (subtree_node _ 3 6 _ [TNode 7 []]);
      [reflexivity | reflexivity | | reflexivity | done |].
    + unfold typed. simpl. split; [done | eauto].
    + repeat constructor.
      eapply (subtree_node _ 6 7 _ []); [reflexivity | reflexivity | | reflexivity | done |
                                          constructor].
      unfold typed. simpl. split; [intros [? ?]; done | done].
Qed.

Lemma processNode_text_witness :
  ∃ d' ghost,
    processNode no_fault 1 2 (sample_doc [1]) = (d', Normal tt)
    ∧ nodes d' !! 8 = Some ghost
    ∧ name ghost = "Ghost_Title"
    ∧ nodes d' !! 1 ≫= children = Some [8; 3; 4].
Proof.
  destruct (processNode_text no_fault 0 (sample_doc [1]) 2 1
              (sample_node TEXT "Title" (Some 1) None)
              (sample_node FRAME "Card" (Some 0) (Some [2; 3; 4]))
              [2; 3; 4] 0 eq_refl eq_refl eq_refl eq_refl eq_refl eq_refl eq_refl)
    as (d' & ghost & paints & dc & Hrun & Hghost & _ & Hname & _ & _ & _ & _ & _ & _ & _
        & _ & _ & Hkids & _).
  - intros [|[|[|j]]] Hj; simpl in Hj; try done; congruence.
  - apply sample_bounded.
  - apply sample_page_ok.
  - apply quiet_no_fault.
  - exists d', ghost. split; [exact Hrun|]. split; [exact Hghost|].
    split; [exact Hname | exact Hkids].
Defined.

Lemma processNode_instance_witness :
  ∃ d' rs g,
    processNode no_fault 4 3 (sample_doc [1]) = (d', Normal tt)
    ∧ nodes d' !! 1 ≫= children = Some [2; 8; 4]
    ∧ nodes d' !! 8 ≫= children = Some rs
    ∧ rs !! 0 = Some g
    ∧ name <$> nodes d' !! g = Some "Ghost_Caption".
Proof.
  destruct (processNode_instance no_fault 3 (sample_doc [1]) 3 1
              (sample_node INSTANCE "Button" (Some 1) (Some [5; 6]))
              (sample_node FRAME "Card" (Some 0) (Some [2; 3; 4]))
              [2; 3; 4] 1 sample_instance_kids eq_refl eq_refl eq_refl eq_refl
              (sample_instance_subtrees [1]))
    as (d' & rs & _ & _ & _ & _ & _ & _ & _ & Hrun & Hloop & Hparent & Hframe & _
        & Htexts & _).
  - apply (bool_decide_unpack _). vm_compute. exact I.
  - apply (bool_decide_unpack _). vm_compute. exact I.
  - reflexivity.
  - reflexivity.
  - reflexivity.
  - intros [|[|[|j]]] Hj; simpl in Hj; try done; congruence.
  - apply sample_bounded.
  - apply sample_page_ok.
  - apply quiet_no_fault.
  - apply (bool_decide_unpack _). vm_compute. exact I.
  - destruct (Htexts 0 (TNode 5 []) (sample_node TEXT "Caption" (Some 3) None)
                eq_refl eq_refl eq_refl) as (g & Hg & Hghost & _).
    change (nextId (sample_doc [1])) with 8 in Hframe, Hghost.
    exists d', rs, g. split; [by rewrite Hrun|]. split; [exact Hparent|].
    split; [by rewrite Hframe|]. split; [exact Hg|]. by rewrite Hghost.
Defined.

(** ** Runs with a failing host *)

Lemma triple_ret {A} (P : Doc → Prop) (a : A) (Q : A → Doc → Prop) E :
  (∀ d, P d → Q a d) → triple P (ret a) Q E.
Proof. intros H d Hd. simpl. auto. Qed.

Lemma triple_throw {A} (P : Doc → Prop) e (Q : A → Doc → Prop) (E : Doc → Prop) :
  (∀ d, P d → E d) → triple P (throw e) Q E.
Proof. intros H d Hd. simpl. auto. Qed.

Lemma triple_bind {A B} (P : Doc → Prop) (m : M A) (k : A → M B) Q Q' E :
  triple P m Q E → (∀ a, triple (Q a) (k a) Q' E) → triple P (bind m k) Q' E.
Proof.
  intros Hm Hk d Hd. specialize (Hm d Hd). unfold bind.
  destruct (m d) as [d1 [a| |]]; try done. by apply Hk.
Qed.

Lemma triple_weaken {A} (P P' : Doc → Prop) (m : M A) (Q Q' : A → Doc → Prop)
    (E E' : Doc → Prop) :
  triple P m Q E → (∀ d, P' d → P d) → (∀ a d, Q a d → Q' a d) → (∀ d, E d → E' d) →
  triple P' m Q' E'.
Proof.
  intros Hm HP HQ HE d Hd. specialize (Hm d (HP d Hd)).
  destruct (m d) as [d1 [a| |]]; auto.
Qed.




Section Failing.
Variable fault : nat → bool.

Lemma triple_host_call (P Q E : Doc → Prop) c op :
  (∀ d, P d → E (tick d)) →
  (∀ d d', P d → op (tick d) = Some d' → Q d') →
  triple P (host_call fault c op) (λ _, Q) E.
Proof.
  intros HE HQ d Hd. unfold host_call. destruct (fault (calls d)); [by apply HE|].
  destruct (op (tick d)) as [d'|] eqn:Hop; simpl; [by eapply HQ | by apply HE].
Qed.

End Failing.

(** *** Ranked stores *)

Lemma ranked_session rk d d' :
  nodes d' = nodes d → nextId d' = nextId d → ranked rk d → ranked rk d'.
Proof. unfold ranked. by intros -> ->. Qed.

Lemma extends_refl rk d : ranked rk d → extends rk d rk d.
Proof. intros H. split; [done|]. intros k kn Hk. split; [eauto | done]. Qed.

Lemma extends_trans rk0 d0 rk1 d1 rk2 d2 :
  extends rk0 d0 rk1 d1 → extends rk1 d1 rk2 d2 → extends rk0 d0 rk2 d2.
Proof.
  intros [_ H1] [Hr H2]. split; [done|]. intros k kn Hk.
  destruct (H1 k kn Hk) as [(kn1 & Hk1 & Hname1) Heq1].
  destruct (H2 k kn1 Hk1) as [(kn2 & Hk2 & Hname2) Heq2].
  split; [exists kn2; split; [done | congruence] | congruence].
Qed.

Lemma extends_session rk0 d0 rk d d' :
  nodes d' = nodes d → nextId d' = nextId d → extends rk0 d0 rk d → extends rk0 d0 rk d'.
Proof.
  intros Hn Hx [Hr H]. split; [by eapply ranked_session|]. by rewrite Hn.
Qed.

Lemma extends_stored rk d rk' d' k :
  extends rk d rk' d' → is_Some (nodes d !! k) → is_Some (nodes d' !! k) ∧ rk' k = rk k.
Proof.
  intros [_ H] [kn Hk]. destruct (H k kn Hk) as [(kn' & Hk' & _) Heq]. eauto.
Qed.

Lemma ranked_stored rk d k kn : ranked rk d → nodes d !! k = Some kn → k < nextId d.
Proof. intros Hr Hk. by destruct (Hr k kn Hk). Qed.

Lemma ranked_fresh rk d : ranked rk d → nodes d !! nextId d = None.
Proof.
  intros Hr. destruct (nodes d !! nextId d) as [kn|] eqn:Hk; [|done].
  apply (ranked_stored rk d _ _ Hr) in Hk. lia.
Qed.

Lemma ranked_child rk d k kn cs c :
  ranked rk d → nodes d !! k = Some kn → children kn = Some cs → c ∈ cs →
  is_Some (nodes d !! c) ∧ rk c < rk k.
Proof.
  intros Hr Hk Hcs Hc. destruct (Hr k kn Hk) as [_ H]. rewrite Hcs in H.
  destruct H as [_ H]. rewrite Forall_forall in H. by apply H.
Qed.

Lemma ranked_leaf rk d g : ranked rk d → leaf g d → rk g = 0.
Proof.
  intros Hr (gn & Hg & Hch). destruct (Hr g gn Hg) as [_ H]. by rewrite Hch in H.
Qed.

(** A change of the store that adds no node, and adds only leaves to child
    lists, keeps the ranks. *)
Lemma ranked_update rk d d' :
  nextId d ≤ nextId d' →
  (∀ k, is_Some (nodes d !! k) → is_Some (nodes d' !! k)) →
  (∀ k kn', nodes d' !! k = Some kn' → ∃ kn, nodes d !! k = Some kn ∧ child_sub d kn kn') →
  ranked rk d → ranked rk d'.
Proof.
  intros Hnext Hdom Hupd Hr k kn' Hk'. destruct (Hupd k kn' Hk') as (kn & Hk & Hch).
  unfold child_sub in Hch.
  destruct (Hr k kn Hk) as [Hlt Hrk]. split; [lia|].
  destruct (children kn') as [cs'|].
  - destruct Hch as (cs & Hcs & Hsub). rewrite Hcs in Hrk. destruct Hrk as [Hpos Hall].
    split; [done|]. apply Forall_forall. intros c Hc. rewrite Forall_forall in Hall.
    destruct (Hsub c Hc) as [Hin|Hleaf].
    + destruct (Hall c Hin). auto.
    + rewrite (ranked_leaf rk d c Hr Hleaf). destruct Hleaf as (cn & Hcn & _).
      split; [apply Hdom; eauto | lia].
  - by rewrite Hch in Hrk.
Qed.

(** *** The host operations keep the ranks *)

Lemma child_sub_refl d kn : child_sub d kn kn.
Proof. unfold child_sub. destruct (children kn); eauto. Qed.

Lemma child_sub_same d kn kn' : children kn' = children kn → child_sub d kn kn'.
Proof. unfold child_sub. intros ->. destruct (children kn); eauto. Qed.

Lemma child_sub_trans d kn1 kn2 kn3 :
  child_sub d kn1 kn2 → child_sub d kn2 kn3 → child_sub d kn1 kn3.
Proof.
  unfold child_sub. intros H12 H23. destruct (children kn3) as [cs3|].
  - destruct H23 as (cs2 & Hcs2 & H23). rewrite Hcs2 in H12.
    destruct H12 as (cs1 & Hcs1 & H12). exists cs1. split; [done|].
    intros c Hc. destruct (H23 c Hc); auto.
  - by rewrite H23 in H12.
Qed.

Lemma unlink_lookup_sub d c (m : gmap NodeId Node) k kn' :
  unlink c m !! k = Some kn' → ∃ kn, m !! k = Some kn ∧ child_sub d kn kn'.
Proof.
  unfold unlink. destruct (m !! c) as [cn|]; [|by eauto using child_sub_refl].
  destruct (parent cn) as [q|]; [|by eauto using child_sub_refl].
  rewrite lookup_alter. destruct (decide (q = k)) as [->|Hne];
    [|by eauto using child_sub_refl].
  intros Heq. destruct (m !! k) as [kn|] eqn:Hk; simplify_eq/=.
  exists kn. split; [done|]. unfold child_sub. simpl.
  destruct (children kn) as [cs|]; [|done]. simpl. exists cs. split; [done|].
  intros x Hx. left. unfold without in Hx. by apply list_elem_of_filter in Hx as [_ ?].
Qed.

Lemma unlink_names c (m : gmap NodeId Node) k kn :
  m !! k = Some kn → ∃ kn', unlink c m !! k = Some kn' ∧ name kn' = name kn.
Proof.
  unfold unlink. destruct (m !! c) as [cn|]; [|by eauto].
  destruct (parent cn) as [q|]; [|by eauto]. rewrite lookup_alter.
  destruct (decide (q = k)) as [->|]; [|by eauto]. intros ->. simpl. eauto.
Qed.

Lemma names_stored (m m' : gmap NodeId Node) :
  (∀ k kn, m !! k = Some kn → ∃ kn', m' !! k = Some kn' ∧ name kn' = name kn) →
  ∀ k, is_Some (m !! k) → is_Some (m' !! k).
Proof. intros H k [kn Hk]. destruct (H k kn Hk) as (? & ? & _). eauto. Qed.

Lemma elem_of_insert_at (l : list NodeId) i g x :
  x ∈ insert_at i g l → x = g ∨ x ∈ l.
Proof.
  unfold insert_at. rewrite elem_of_app, elem_of_cons.
  intros [H|[H|H]]; [right | by left | right].
  - by apply (subseteq_take i l).
  - by apply (subseteq_drop i l).
Qed.

Lemma ranked_insertChild rk d p index g m' :
  host_insertChild p index g (nodes d) = Some m' →
  ranked rk d → leaf g d →
  ranked rk (set_nodes m' (tick d))
  ∧ ∀ k kn, nodes d !! k = Some kn → ∃ kn', m' !! k = Some kn' ∧ name kn' = name kn.
Proof.
  unfold host_insertChild. intros Hm Hr Hleaf.
  destruct (nodes d !! g) as [gn0|] eqn:Hg0; [|done]. simpl in Hm.
  destruct (unlink g (nodes d) !! p) as [pn|] eqn:Hp; [|done]. simpl in Hm.
  destruct (children pn) as [cs|] eqn:Hcs; [|done]. simpl in Hm.
  destruct (decide _) as [Hidx|]; [|done]. injection Hm as <-.
  assert (Hgp : g ≠ p).
  { intros <-. destruct (unlink_lookup_sub d g _ _ _ Hp) as (kn & Hkn & Hsub).
    destruct Hleaf as (gn & Hg & Hgch). assert (kn = gn) by congruence. subst kn.
    unfold child_sub in Hsub. rewrite Hcs in Hsub. destruct Hsub as (? & ? & _). congruence. }
  assert (Hnames : ∀ k kn, nodes d !! k = Some kn →
            ∃ kn', alter (set_parent (Some p)) g
                     (<[p := set_children (Some (insert_at (Z.to_nat index) g cs)) pn]>
                        (unlink g (nodes d))) !! k = Some kn' ∧ name kn' = name kn).
  { intros k kn Hk. rewrite lookup_alter.
    destruct (unlink_names g _ k kn Hk) as (kn1 & Hk1 & Hname1).
    destruct (decide (g = k)) as [<-|Hgk].
    - rewrite lookup_insert_ne by done. rewrite Hk1. simpl. eauto.
    - destruct (decide (p = k)) as [<-|Hpk].
      + rewrite lookup_insert_eq. eexists. split; [done|]. simpl. congruence.
      + rewrite lookup_insert_ne by done. eauto. }
  split; [|exact Hnames].
  apply (ranked_update rk d); [simpl; lia | exact (names_stored _ _ Hnames) | | done].
  simpl. intros k kn' Hk'. rewrite lookup_alter in Hk'.
  destruct (decide (g = k)) as [<-|Hgk].
  - rewrite lookup_insert_ne in Hk' by done.
    destruct (unlink g (nodes d) !! g) as [gn1|] eqn:Hg1; [|done].
    simpl in Hk'. injection Hk' as <-.
    destruct (unlink_lookup_sub d g _ _ _ Hg1) as (kn & Hkn & Hsub). eauto.
  - destruct (decide (p = k)) as [<-|Hpk].
    + rewrite lookup_insert_eq in Hk'. injection Hk' as <-.
      destruct (unlink_lookup_sub d g _ _ _ Hp) as (kn & Hkn & Hsub).
      exists kn. split; [done|]. unfold child_sub in Hsub. rewrite Hcs in Hsub.
      destruct Hsub as (cs0 & Hcs0 & Hsub). simpl. exists cs0. split; [done|].
      intros c Hc. apply elem_of_insert_at in Hc as [->|Hc]; [by right | by apply Hsub].
    + rewrite lookup_insert_ne in Hk' by done.
      destruct (unlink_lookup_sub d g _ _ _ Hk') as (kn & Hkn & Hsub). eauto.
Qed.

Lemma ranked_remove rk d n m' :
  host_remove n (nodes d) = Some m' → ranked rk d →
  ranked rk (set_nodes m' (tick d))
  ∧ ∀ k kn, nodes d !! k = Some kn → ∃ kn', m' !! k = Some kn' ∧ name kn' = name kn.
Proof.
  unfold host_remove. intros Hm Hr.
  destruct (nodes d !! n) as [nn|] eqn:Hn; [|done]. simpl in Hm. injection Hm as <-.
  assert (Hnames : ∀ k kn, nodes d !! k = Some kn →
            ∃ kn', alter (set_parent None) n (unlink n (nodes d)) !! k = Some kn'
                   ∧ name kn' = name kn).
  { intros k kn Hk. rewrite lookup_alter.
    destruct (unlink_names n _ k kn Hk) as (kn1 & Hk1 & Hname1).
    destruct (decide (n = k)) as [<-|]; [|by eauto]. rewrite Hk1. simpl. eauto. }
  split; [|exact Hnames].
  apply (ranked_update rk d); [simpl; lia | exact (names_stored _ _ Hnames) | | done].
  simpl. intros k kn' Hk'. rewrite lookup_alter in Hk'.
  destruct (decide (n = k)) as [<-|Hnk].
  - destruct (unlink n (nodes d) !! n) as [nn1|] eqn:Hn1; [|done].
    simpl in Hk'. injection Hk' as <-.
    destruct (unlink_lookup_sub d n _ _ _ Hn1) as (kn & Hkn & Hsub). eauto.
  - destruct (unlink_lookup_sub d n _ _ _ Hk') as (kn & Hkn & Hsub). eauto.
Qed.

Lemma ranked_assign rk d g gn upd :
  nodes d !! g = Some gn → children (upd gn) = children gn → ranked rk d →
  ranked rk (set_nodes (<[g := upd gn]> (nodes d)) d).
Proof.
  intros Hg Hch Hr. apply (ranked_update rk d); [done | | | done].
  - simpl. intros k Hk. destruct (decide (g = k)) as [<-|];
      [rewrite lookup_insert_eq; eauto | by rewrite lookup_insert_ne].
  - simpl. intros k kn' Hk'. destruct (decide (g = k)) as [<-|].
    + rewrite lookup_insert_eq in Hk'. injection Hk' as <-.
      exists gn. split; [done|]. by apply child_sub_same.
    + rewrite lookup_insert_ne in Hk' by done. eauto using child_sub_refl.
Qed.

Lemma leaf_assign d g gn upd g' :
  nodes d !! g = Some gn → children (upd gn) = children gn → leaf g' d →
  leaf g' (set_nodes (<[g := upd gn]> (nodes d)) d).
Proof.
  intros Hg Hch (gn' & Hg' & Hleaf). unfold leaf. simpl.
  destruct (decide (g = g')) as [<-|].
  - rewrite lookup_insert_eq. exists (upd gn). split; [done|]. congruence.
  - rewrite lookup_insert_ne by done. eauto.
Qed.

Lemma ranked_createRectangle rk d :
  ranked rk d →
  let g := nextId d in
  let d1 := set_nextId (S g)
              (set_nodes (host_createRectangle g (currentPage d) (nodes d)) (tick d)) in
  extends rk d (λ k, if decide (k = g) then 0 else rk k) d1 ∧ leaf g d1.
Proof.
  intros Hr g d1. pose proof (ranked_fresh rk d Hr) as Hfresh. fold g in Hfresh.
  assert (Hold : ∀ k, is_Some (nodes d !! k) → k ≠ g).
  { intros k [kn Hk] ->. congruence. }
  assert (Hlook : ∀ k, k ≠ g →
            nodes d1 !! k = (if decide (currentPage d = k)
                             then (λ pn, set_children ((λ l, l ++ [g]) <$> children pn) pn)
                                    <$> nodes d !! k
                             else nodes d !! k)).
  { intros k Hk. simpl. unfold host_createRectangle.
    rewrite lookup_insert_ne by (by apply not_eq_sym). rewrite lookup_alter.
    by destruct (decide (currentPage d = k)) as [->|]. }
  assert (Hdom : ∀ k, is_Some (nodes d !! k) → is_Some (nodes d1 !! k)).
  { intros k Hk. rewrite Hlook by auto. destruct (decide (currentPage d = k)); [|done].
    destruct Hk as [? ->]. simpl. eauto. }
  assert (Hg1 : nodes d1 !! g = Some (new_rectangle (currentPage d))).
  { simpl. unfold host_createRectangle. apply lookup_insert_eq. }
  split; [split|].
  - intros k kn' Hk'. cbv beta. destruct (decide (k = g)) as [->|Hkg].
    + rewrite Hg1 in Hk'. injection Hk' as <-. simpl. split; [lia | done].
    + rewrite Hlook in Hk' by done.
      assert (Hstep : ∀ kn cs, nodes d !! k = Some kn → children kn = Some cs →
                0 < rk k ∧ Forall (λ c, is_Some (nodes d1 !! c)
                            ∧ (if decide (c = g) then 0 else rk c) < rk k) cs).
      { intros kn cs Hk Hcs. destruct (Hr k kn Hk) as [_ H]. rewrite Hcs in H.
        destruct H as [Hpos Hall]. split; [done|].
        eapply Forall_impl; [exact Hall|]. simpl. intros c [Hc Hlt].
        split; [by apply Hdom|]. rewrite decide_False; [done | by apply Hold]. }
      destruct (decide (currentPage d = k)) as [Hq|Hq].
      * destruct (nodes d !! k) as [kn|] eqn:Hk; [|done]. simpl in Hk'.
        injection Hk' as <-. destruct (Hr k kn Hk) as [Hlt Hrk].
        split; [simpl; lia|]. simpl. destruct (children kn) as [cs|] eqn:Hcs; [|done].
        simpl. destruct (Hstep kn cs eq_refl Hcs) as [Hpos Hall]. split; [done|].
        apply Forall_app. split; [done|]. apply Forall_singleton.
        split; [exists (new_rectangle (currentPage d)); exact Hg1|].
        rewrite decide_True by done. done.
      * destruct (Hr k kn' Hk') as [Hlt Hrk]. split; [simpl; lia|].
        destruct (children kn') as [cs|] eqn:Hcs; [|done]. by apply (Hstep kn' cs).
  - intros k kn Hk. assert (Hkg : k ≠ g) by (apply Hold; eauto).
    split; [|by rewrite decide_False]. rewrite Hlook by done.
    destruct (decide (currentPage d = k)); rewrite Hk; simpl; eauto.
  - exists (new_rectangle (currentPage d)). split; [done | reflexivity].
Qed.

Lemma host_detachInstance_inv n f (m m' : gmap NodeId Node) :
  host_detachInstance n f m = Some m' →
  ∃ nn p pn cs kids i,
    m !! n = Some nn ∧ type nn = INSTANCE ∧ parent nn = Some p
    ∧ m !! p = Some pn ∧ children pn = Some cs ∧ children nn = Some kids
    ∧ cs !! i = Some n ∧ indexOf cs n = Z.of_nat i
    ∧ m' = <[f := set_children (Some kids) (set_type FRAME nn)]>
             (<[n := set_children (Some []) (set_parent None nn)]>
                (<[p := set_children (Some (<[i := f]> cs)) pn]> (adopt f kids m))).
Proof.
  unfold host_detachInstance. intros H.
  destruct (m !! n) as [nn|] eqn:Hn; [|done]. simpl in H.
  destruct (decide (type nn = INSTANCE)) as [Hty|]; [|done].
  destruct (parent nn) as [p|] eqn:Hp; [|done]. simpl in H.
  destruct (m !! p) as [pn|] eqn:Hpn; [|done]. simpl in H.
  destruct (children pn) as [cs|] eqn:Hcs; [|done]. simpl in H.
  destruct (children nn) as [kids|] eqn:Hkids; [|done]. simpl in H.
  destruct (decide (0 ≤ indexOf cs n)%Z) as [Hidx|]; [|done].
  destruct (indexOf_nonneg cs n Hidx) as (i & Hi & Heq).
  injection H as <-. exists nn, p, pn, cs, kids, i.
  rewrite Heq, Nat2Z.id. by split_and!.
Qed.

Lemma ranked_detach rk d n nn p pn cs i kids :
  ranked rk d →
  nodes d !! n = Some nn → parent nn = Some p → children nn = Some kids →
  nodes d !! p = Some pn → children pn = Some cs → cs !! i = Some n →
  extends rk d (λ k, if decide (k = nextId d) then rk n else rk k)
    (detached d n nn p pn cs i kids).
Proof.
  intros Hr Hn Hp Hkids Hpn Hcs Hi.
  set (f := nextId d). set (d1 := detached d n nn p pn cs i kids).
  pose proof (ranked_fresh rk d Hr) as Hfresh. fold f in Hfresh.
  assert (Hold : ∀ k, is_Some (nodes d !! k) → k ≠ f).
  { intros k [kn Hk] ->. congruence. }
  assert (Hnf : n ≠ f) by (apply Hold; eauto).
  assert (Hpf : p ≠ f) by (apply Hold; eauto).
  assert (Hn_in : n ∈ cs) by (by eapply list_elem_of_lookup_2).
  destruct (ranked_child rk d p pn cs n Hr Hpn Hcs Hn_in) as [_ Hnp_rk].
  assert (Hnp : n ≠ p) by (intros ->; lia).
  destruct (Hr n nn Hn) as [Hn_lt Hn_rk]. rewrite Hkids in Hn_rk.
  destruct Hn_rk as [Hn_pos Hn_kids].
  destruct (Hr p pn Hpn) as [Hp_lt Hp_rk]. rewrite Hcs in Hp_rk.
  destruct Hp_rk as [Hp_pos Hp_kids].
  assert (Hlook : ∀ k, k ≠ f → k ≠ n → k ≠ p →
            nodes d1 !! k = (λ kn, if decide (k ∈ kids) then set_parent (Some f) kn else kn)
                              <$> nodes d !! k).
  { intros k ? ? ?. simpl. rewrite !lookup_insert_ne by (by apply not_eq_sym).
    apply lookup_adopt. }
  assert (Hf1 : nodes d1 !! f = Some (set_children (Some kids) (set_type FRAME nn))).
  { simpl. apply lookup_insert_eq. }
  assert (Hn1 : nodes d1 !! n = Some (set_children (Some []) (set_parent None nn))).
  { simpl. rewrite lookup_insert_ne by (by apply not_eq_sym). apply lookup_insert_eq. }
  assert (Hp1 : nodes d1 !! p = Some (set_children (Some (<[i := f]> cs)) pn)).
  { simpl. rewrite !lookup_insert_ne by (by apply not_eq_sym). apply lookup_insert_eq. }
  assert (Hdom : ∀ k, is_Some (nodes d !! k) → is_Some (nodes d1 !! k)).
  { intros k Hk. destruct (decide (k = n)) as [->|]; [by rewrite Hn1|].
    destruct (decide (k = p)) as [->|]; [by rewrite Hp1|].
    rewrite Hlook by auto. destruct Hk as [? ->]. simpl. eauto. }
  set (rk1 := λ k, if decide (k = f) then rk n else rk k).
  assert (Hrk_old : ∀ k, is_Some (nodes d !! k) → rk1 k = rk k).
  { intros k Hk. unfold rk1. rewrite decide_False; [done | by apply Hold]. }
  assert (Hrk_f : rk1 f = rk n) by (unfold rk1; by rewrite decide_True).
  assert (Hkeep : ∀ k l, is_Some (nodes d !! k) →
            Forall (λ c, is_Some (nodes d !! c) ∧ rk c < rk k) l →
            Forall (λ c, is_Some (nodes d1 !! c) ∧ rk1 c < rk1 k) l).
  { intros k l Hk Hall. eapply Forall_impl; [exact Hall|]. simpl. intros c [Hc Hlt].
    split; [by apply Hdom|]. rewrite (Hrk_old c Hc), (Hrk_old k Hk). done. }
  split.
  2:{ intros k kn Hk. split; [|apply Hrk_old; eauto].
      destruct (decide (k = n)) as [->|].
      { rewrite Hn1. assert (kn = nn) by congruence. subst kn. eauto. }
      destruct (decide (k = p)) as [->|].
      { rewrite Hp1. assert (kn = pn) by congruence. subst kn. eauto. }
      rewrite Hlook by (auto; apply Hold; eauto). rewrite Hk. simpl.
      destruct (decide (k ∈ kids)); eauto. }
  intros k kn' Hk'. fold rk1. fold f.
  destruct (decide (k = f)) as [->|Hkf].
  { rewrite Hf1 in Hk'. injection Hk' as <-. simpl. split; [lia|]. rewrite Hrk_f.
    split; [done|]. eapply Forall_impl; [exact Hn_kids|]. simpl. intros c [Hc Hlt].
    split; [by apply Hdom|]. by rewrite (Hrk_old c Hc). }
  destruct (decide (k = n)) as [->|Hkn].
  { rewrite Hn1 in Hk'. injection Hk' as <-. simpl. split; [lia|].
    rewrite (Hrk_old n) by eauto. split; [done | constructor]. }
  destruct (decide (k = p)) as [->|Hkp].
  { rewrite Hp1 in Hk'. injection Hk' as <-. simpl. split; [lia|].
    rewrite (Hrk_old p) by eauto. split; [done|].
    apply Forall_insert.
    - pose proof (Hkeep p cs (ltac:(eauto)) Hp_kids) as H.
      by rewrite (Hrk_old p) in H by eauto.
    - split; [eexists; exact Hf1|]. rewrite Hrk_f. done. }
  rewrite Hlook in Hk' by done.
  destruct (nodes d !! k) as [kn|] eqn:Hk; [|done]. simpl in Hk'.
  destruct (Hr k kn Hk) as [Hk_lt Hk_rk]. split; [simpl; lia|].
  assert (Hch : children kn' = children kn).
  { injection Hk' as <-. by destruct (decide (k ∈ kids)). }
  rewrite Hch. rewrite (Hrk_old k) by eauto.
  destruct (children kn) as [l|]; [|done]. destruct Hk_rk as [Hpos Hall].
  split; [done|]. pose proof (Hkeep k l (ltac:(eauto)) Hall) as H.
  by rewrite (Hrk_old k) in H by eauto.
Qed.

(** *** The statements of the program keep the ranks *)

Section Safety.
Variable fault : nat → bool.
Variable rk0 : NodeId → nat.
Variable d0 : Doc.

Lemma extends_update rk d d' :
  extends rk0 d0 rk d → ranked rk d' →
  (∀ k kn, is_Some (nodes d0 !! k) → nodes d !! k = Some kn →
     ∃ kn', nodes d' !! k = Some kn' ∧ name kn' = name kn) →
  extends rk0 d0 rk d'.
Proof.
  intros [_ H] Hr Hnames. split; [done|]. intros k kn0 Hk0.
  destruct (H k kn0 Hk0) as [(kn & Hk & Hname) Heq]. split; [|done].
  destruct (Hnames k kn (ltac:(eauto)) Hk) as (kn' & Hk' & Hname').
  exists kn'. split; [done | congruence].
Qed.

Lemma kept_session d d' :
  nodes d' = nodes d → nextId d' = nextId d → kept rk0 d0 d → kept rk0 d0 d'.
Proof. intros Hn Hx [rk H]. exists rk. by eapply extends_session. Qed.

Lemma leaf_session g d d' : nodes d' = nodes d → leaf g d → leaf g d'.
Proof. unfold leaf. by intros ->. Qed.

Lemma triple_read_keep {A} (P E : Doc → Prop) n (prop : Node → A) :
  (∀ d, P d → E d) → triple P (read n prop) (λ _, P) E.
Proof.
  intros HE d Hd. unfold read. destruct (nodes d !! n); simpl; auto.
Qed.

Lemma createRectangle_keeps :
  triple (kept rk0 d0) (createRectangle fault)
    (λ g d, (kept rk0 d0 d ∧ leaf g d) ∧ nodes d0 !! g = None) (kept rk0 d0).
Proof.
  intros d [rk Hext]. unfold createRectangle, bind, host_call.
  destruct (fault (calls d)).
  { simpl. by apply (kept_session d); [| |exists rk]. }
  simpl. destruct (ranked_createRectangle rk d (proj1 Hext)) as [Hext1 Hleaf].
  split; [split; [|exact Hleaf]|].
  - eexists. eapply extends_trans; [exact Hext | exact Hext1].
  - destruct (nodes d0 !! nextId d) as [gn|] eqn:Hg; [|done].
    destruct (extends_stored _ _ _ _ _ Hext (ltac:(eauto))) as [[gn' Hg'] _].
    apply (ranked_stored rk d _ _ (proj1 Hext)) in Hg'. lia.
Qed.

Lemma triple_pure {A} (P : Doc → Prop) (φ : Prop) (m : M A) Q E :
  (φ → triple P m Q E) → triple (λ d, P d ∧ φ) m Q E.
Proof. intros H d [Hd Hφ]. by apply H. Qed.

Lemma assign_keeps g upd :
  (∀ gn, children (upd gn) = children gn) →
  nodes d0 !! g = None →
  ∀ g', triple (λ d, kept rk0 d0 d ∧ leaf g' d) (assign g upd)
          (λ _ d, kept rk0 d0 d ∧ leaf g' d) (kept rk0 d0).
Proof.
  intros Hupd Hnew g' d [[rk Hext] Hleaf]. unfold assign.
  destruct (nodes d !! g) as [gn|] eqn:Hg; simpl; [|by exists rk].
  split; [|by apply leaf_assign].
  exists rk. apply (extends_update rk d); [done | by apply ranked_assign; [| |apply Hext] |].
  simpl. intros k kn [kn0 Hk0] Hk. destruct (decide (g = k)) as [<-|]; [congruence|].
  rewrite lookup_insert_ne by done. eauto.
Qed.

Lemma resize_keeps g w h g' :
  triple (λ d, kept rk0 d0 d ∧ leaf g' d) (resize fault g w h)
    (λ _ d, kept rk0 d0 d ∧ leaf g' d) (kept rk0 d0).
Proof.
  apply triple_host_call.
  - intros d [Hk _]. by apply (kept_session d).
  - intros d d' [[rk Hext] Hleaf] Hop. unfold on_nodes in Hop. simpl in Hop.
    destruct (nodes d !! g) as [gn|] eqn:Hg; [|done]. simpl in Hop. injection Hop as <-.
    split.
    + exists rk. apply (extends_update rk d); [done | |].
      * apply (ranked_session rk (set_nodes (<[g := set_size w h gn]> (nodes d)) d));
          [done | done |]. by apply ranked_assign; [| |apply Hext].
      * simpl. intros k kn _ Hk. destruct (decide (g = k)) as [<-|].
        -- rewrite lookup_insert_eq. assert (kn = gn) by congruence. subst kn. eauto.
        -- rewrite lookup_insert_ne by done. eauto.
    + apply (leaf_session g' (set_nodes (<[g := set_size w h gn]> (nodes d)) d)); [done|].
      by apply leaf_assign.
Qed.

Lemma session_call_keeps (P : Doc → Prop) c n :
  (∀ d d', nodes d' = nodes d → nextId d' = nextId d → P d → P d') →
  triple P (host_call fault c (λ d, _ ← nodes d !! n; Some d)) (λ _, P) P.
Proof.
  intros Hs. apply triple_host_call.
  - intros d Hd. by apply (Hs d).
  - intros d d' Hd Hop. destruct (nodes (tick d) !! n); [|done]. simpl in Hop.
    injection Hop as <-. by apply (Hs d).
Qed.

Lemma getStyledTextSegments_keeps (P : Doc → Prop) n :
  (∀ d d', nodes d' = nodes d → nextId d' = nextId d → P d → P d') →
  triple P (getStyledTextSegments fault n) (λ _, P) P.
Proof.
  intros Hs. unfold getStyledTextSegments.
  eapply triple_bind; [by apply session_call_keeps|]. intros [].
  by apply triple_read_keep.
Qed.

Lemma getTextColor_keeps (P : Doc → Prop) n :
  (∀ d d', nodes d' = nodes d → nextId d' = nextId d → P d → P d') →
  triple P (getTextColor fault n) (λ _, P) P.
Proof.
  intros Hs. unfold getTextColor, loadFontAsync.
  eapply triple_bind; [by apply session_call_keeps|]. intros [].
  eapply triple_bind; [by apply getStyledTextSegments_keeps|]. intros styled.
  eapply triple_bind.
  { instantiate (1 := λ _, P). destruct (decide (1 < length styled)).
    - eapply triple_bind; [by apply getStyledTextSegments_keeps|]. intros segs.
      by apply triple_ret.
    - by apply triple_ret. }
  intros [paints|]; [by apply triple_ret|].
  eapply triple_bind; [by apply triple_read_keep|]. intros [|[|? ?]]; by apply triple_ret.
Qed.

Lemma insertChild_keeps p index g :
  triple (λ d, kept rk0 d0 d ∧ leaf g d) (insertChild fault p index g)
    (λ _, kept rk0 d0) (kept rk0 d0).
Proof.
  apply triple_host_call.
  - intros d [Hk _]. by apply (kept_session d).
  - intros d d' [[rk Hext] Hleaf] Hop. unfold on_nodes in Hop. simpl in Hop.
    destruct (host_insertChild p index g (nodes d)) as [m'|] eqn:Hm; [|done].
    simpl in Hop. injection Hop as <-.
    destruct (ranked_insertChild rk d p index g m' Hm (proj1 Hext) Hleaf) as [Hr Hnames].
    exists rk. apply (extends_update rk d); [done | done |]. intros k kn _. apply Hnames.
Qed.

Lemma remove_keeps n :
  triple (kept rk0 d0) (remove fault n) (λ _, kept rk0 d0) (kept rk0 d0).
Proof.
  apply triple_host_call.
  - intros d Hk. by apply (kept_session d).
  - intros d d' [rk Hext] Hop. unfold on_nodes in Hop. simpl in Hop.
    destruct (host_remove n (nodes d)) as [m'|] eqn:Hm; [|done].
    simpl in Hop. injection Hop as <-.
    destruct (ranked_remove rk d n m' Hm (proj1 Hext)) as [Hr Hnames].
    exists rk. apply (extends_update rk d); [done | done |]. intros k kn _. apply Hnames.
Qed.

Lemma read_children_keeps (P E : Doc → Prop) p :
  (∀ d, P d → E d) → triple P (read_children p) (λ _, P) E.
Proof.
  intros HE. unfold read_children.
  eapply triple_bind; [by apply triple_read_keep|].
  intros [l|]; [by apply triple_ret | by apply triple_throw].
Qed.

Lemma convert_text_keeps n :
  triple (kept rk0 d0) (convert_text fault n) (λ _, kept rk0 d0) (kept rk0 d0).
Proof.
  unfold convert_text.
  eapply triple_bind; [apply createRectangle_keeps|]. intros g.
  apply triple_pure. intros Hnew.
  assert (Hweak : ∀ d, kept rk0 d0 d ∧ leaf g d → kept rk0 d0 d) by (by intros d []).
  assert (Hsess : ∀ d d', nodes d' = nodes d → nextId d' = nextId d →
            kept rk0 d0 d ∧ leaf g d → kept rk0 d0 d' ∧ leaf g d').
  { intros d d' Hn Hx [Hk Hl]. split; [by eapply kept_session | by eapply leaf_session]. }
  eapply triple_bind; [by apply triple_read_keep|]. intros node_name.
  eapply triple_bind; [by apply assign_keeps|]. intros [].
  eapply triple_bind; [by apply triple_read_keep|]. intros w.
  eapply triple_bind; [by apply triple_read_keep|]. intros h.
  eapply triple_bind; [by apply resize_keeps|]. intros [].
  eapply triple_bind.
  { apply (triple_weaken (λ d, kept rk0 d0 d ∧ leaf g d) _ _
             (λ _ d, kept rk0 d0 d ∧ leaf g d) _ (λ d, kept rk0 d0 d ∧ leaf g d));
      [by apply (getTextColor_keeps _ n Hsess) | by intros d H; exact H
       | by intros a d H; exact H | exact Hweak]. }
  intros textColor.
  eapply triple_bind; [by apply assign_keeps|]. intros [].
  eapply triple_bind; [by apply triple_read_keep|]. intros op.
  eapply triple_bind; [by apply assign_keeps|]. intros [].
  eapply triple_bind; [by apply triple_read_keep|]. intros node_x.
  eapply triple_bind; [by apply assign_keeps|]. intros [].
  eapply triple_bind; [by apply triple_read_keep|]. intros node_y.
  eapply triple_bind; [by apply assign_keeps|]. intros [].
  eapply triple_bind; [by apply assign_keeps|]. intros [].
  eapply triple_bind; [by apply triple_read_keep|]. intros [p|].
  - eapply triple_bind.
    { eapply triple_bind; [by apply read_children_keeps|]. intros siblings.
      apply insertChild_keeps. }
    intros []. apply remove_keeps.
  - eapply triple_bind; [apply (triple_ret _ _ (λ _, kept rk0 d0)); exact Hweak|].
    intros []. apply remove_keeps.
Qed.

End Safety.

(** ** Termination and error isolation *)

Section Isolation.
Variable fault : nat → bool.

Lemma visit_all_app (visit : NodeId → M unit) l1 l2 d :
  visit_all visit (l1 ++ l2) d = visit_all visit l2 (visit_all visit l1 d).
Proof. unfold visit_all. apply foldl_app. Qed.

Lemma for_each_returns fuel rk0 d0 l :
  returns_below fault fuel →
  ∀ d, ready fuel rk0 d0 l d →
    for_each (processNode fault fuel) l d
    = (visit_all (processNode fault fuel) l d, Normal tt)
    ∧ kept rk0 d0 (visit_all (processNode fault fuel) l d)
    ∧ ∀ pre c post, l = pre ++ c :: post →
        (processNode fault fuel c (visit_all (processNode fault fuel) pre d)).2 = Normal tt.
Proof.
  intros IH. induction l as [|c l IHl]; intros d (rk & Hext & Hall).
  - simpl. split; [done|]. split; [by exists rk|]. intros [|? ?] ? ? ?; done.
  - apply Forall_cons in Hall as [[Hc Hlt] Hall].
    destruct (IH c d rk (proj1 Hext) Hc Hlt) as (d1 & rk1 & Hrun & Hext1).
    assert (Hready : ready fuel rk0 d0 l d1).
    { exists rk1. split; [by eapply extends_trans|].
      eapply Forall_impl; [exact Hall|]. simpl. intros c' [Hc' Hlt'].
      destruct (extends_stored _ _ _ _ c' Hext1 Hc') as [? ->]. done. }
    destruct (IHl d1 Hready) as (Hloop & Hkept & Heach).
    assert (Hd1 : visit_all (processNode fault fuel) [c] d = d1).
    { unfold visit_all. simpl. by rewrite Hrun. }
    change (c :: l) with ([c] ++ l). rewrite visit_all_app, Hd1.
    split; [|split; [done|]].
    + simpl. by rewrite (bind_Normal _ _ _ _ _ Hrun).
    + intros [|c' pre] c'' post Heq; simpl in Heq; injection Heq as <- Heq.
      * unfold visit_all. simpl. by rewrite Hrun.
      * change (c :: pre) with ([c] ++ pre). rewrite visit_all_app, Hd1.
        by eapply Heach.
Qed.

Lemma detach_and_visit_returns fuel rk d n nn p :
  returns_below fault fuel →
  ranked rk d → nodes d !! n = Some nn → parent nn = Some p → rk n < S fuel →
  match detach_and_visit fault (processNode fault fuel) n p d with
  | (d', OutOfFuel) => False
  | (d', _) => kept rk d d'
  end.
Proof.
  intros IH Hr Hn Hp Hlt. unfold detach_and_visit, read_children, bind at 1 2.
  unfold read at 1. destruct (nodes d !! p) as [pn|] eqn:Hpn;
    [|by exists rk; apply extends_refl].
  destruct (children pn) as [cs|] eqn:Hcs; [|by exists rk; apply extends_refl].
  simpl. unfold bind at 1. unfold detachInstance, host_call.
  assert (Htick : kept rk d (tick d)).
  { exists rk. apply (extends_session rk d rk d); [done | done | by apply extends_refl]. }
  destruct (fault (calls d)); [done|].
  destruct (host_detachInstance n (nextId (tick d)) (nodes (tick d))) as [m'|] eqn:Hm;
    simpl; [|done].
  apply host_detachInstance_inv in Hm
    as (nn' & p' & pn' & cs' & kids & i & Hn' & Hty & Hp' & Hpn' & Hcs' & Hkids & Hi & Hidx & ->).
  simpl in Hn', Hpn'. assert (nn' = nn) by congruence. subst nn'.
  assert (p' = p) by congruence. subst p'.
  assert (pn' = pn) by congruence. subst pn'.
  assert (cs' = cs) by congruence. subst cs'.
  change (set_nextId _ (set_nodes _ (tick d))) with (detached d n nn p pn cs i kids).
  pose proof (ranked_detach rk d n nn p pn cs i kids Hr Hn Hp Hkids Hpn Hcs Hi) as Hext1.
  set (d1 := detached d n nn p pn cs i kids) in *.
  assert (Hn_in : n ∈ cs) by (by eapply list_elem_of_lookup_2).
  destruct (ranked_child rk d p pn cs n Hr Hpn Hcs Hn_in) as [_ Hnp_rk].
  assert (Hnp : n ≠ p) by (intros ->; lia).
  assert (Hgp : nextId d ≠ p).
  { intros Heq. pose proof (ranked_fresh rk d Hr) as Hfresh. rewrite Heq in Hfresh.
    congruence. }
  rewrite (visit_detached _ d n nn p pn cs i kids Hidx
             (lookup_lt_Some _ _ _ Hi) Hgp Hnp).
  fold d1.
  assert (Hready : ready fuel rk d kids d1).
  { eexists. split; [exact Hext1|].
    apply Forall_forall. intros c Hc.
    destruct (ranked_child rk d n nn kids c Hr Hn Hkids Hc) as [Hc_st Hc_rk].
    destruct (extends_stored _ _ _ _ c Hext1 Hc_st) as [Hc1 Heq].
    split; [done|]. rewrite Heq. lia. }
  destruct (for_each_returns fuel rk d kids IH d1 Hready) as (-> & Hkept & _). done.
Qed.

Lemma body_returns fuel rk d n nn :
  returns_below fault fuel →
  ranked rk d → nodes d !! n = Some nn → rk n < S fuel →
  match processNode_body fault (processNode fault fuel) n d with
  | (d', OutOfFuel) => False
  | (d', _) => kept rk d d'
  end.
Proof.
  intros IH Hr Hn Hlt.
  assert (Hrefl : kept rk d d) by (exists rk; by apply extends_refl).
  destruct (parent nn) as [p|] eqn:Hp; [|by rewrite (body_removed fault _ n nn d Hn Hp)].
  destruct (decide (type nn = INSTANCE)) as [Hinst|Hninst].
  { rewrite (body_instance fault _ n nn p d Hn Hp Hinst).
    by apply (detach_and_visit_returns fuel rk d n nn p). }
  destruct (decide (type nn = TEXT)) as [Htext|Hntext].
  { rewrite (body_text fault _ n nn p d Hn Hp Htext).
    pose proof (convert_text_keeps fault rk d n d Hrefl) as H.
    by destruct (convert_text fault n d) as [d' [[]| |]]. }
  rewrite (body_other fault _ n nn p d Hn Hp Hninst Hntext).
  assert (Hready : ready fuel rk d (default [] (children nn)) d).
  { exists rk. split; [by apply extends_refl|].
    destruct (children nn) as [cs|] eqn:Hcs; [|constructor]. simpl.
    apply Forall_forall. intros c Hc.
    destruct (ranked_child rk d n nn cs c Hr Hn Hcs Hc). split; [done | lia]. }
  by destruct (for_each_returns fuel rk d _ IH d Hready) as (-> & Hkept & _).
Qed.

(** With enough fuel [processNode] returns normally, whichever host calls
    fail. *)
Lemma processNode_returns fuel : returns_below fault fuel.
Proof.
  induction fuel as [|fuel IH]; intros n d rk Hr [nn Hn] Hlt; [lia|].
  pose proof (body_returns fuel rk d n nn IH Hr Hn Hlt) as Hbody.
  rewrite processNode_S. unfold try_catch.
  destruct (processNode_body fault (processNode fault fuel) n d) as [d1 [[]|e|]];
    [| |done]; destruct Hbody as [rk1 Hext].
  - by exists d1, rk1.
  - destruct (extends_stored _ _ _ _ n Hext (ltac:(eauto))) as [[nn1 Hn1] _].
    rewrite (bind_Normal _ _ _ _ _ (read_ok d1 n nn1 name Hn1)).
    eexists _, rk1. split; [reflexivity|]. by apply (extends_session rk d rk1 d1).
Qed.

End Isolation.

(** C8. In a ranked document [processNode] returns normally on every stored
    node, whichever host calls fail: an error thrown while the node is
    processed is caught and logged with the name of the node; and the loop
    over the children of a container visits every child, each visit
    returning normally. *)
Theorem processNode_isolates_errors (fault : nat → bool) (rk : NodeId → nat)
    (fuel : nat) (d : Doc) (n : NodeId) (nn : Node)
    (Hr : ranked rk d) (Hn : nodes d !! n = Some nn) (Hfuel : rk n < S fuel) :
  ∃ d',
    processNode fault (S fuel) n d = (d', Normal tt)
    ∧ (∀ d1 e,
         processNode_body fault (processNode fault fuel) n d = (d1, Throw e) →
         d' = log_console (error_message (name nn), e) d1)
    ∧ (∀ p, parent nn = Some p → type nn ≠ INSTANCE → type nn ≠ TEXT →
         d' = visit_all (processNode fault fuel) (default [] (children nn)) d
         ∧ ∀ pre c post,
             default [] (children nn) = pre ++ c :: post →
             (processNode fault fuel c (visit_all (processNode fault fuel) pre d)).2
             = Normal tt).
Proof.
  pose proof (processNode_returns fault fuel) as IH.
  pose proof (body_returns fault fuel rk d n nn IH Hr Hn Hfuel) as Hbody.
  assert (Hother : ∀ p, parent nn = Some p → type nn ≠ INSTANCE → type nn ≠ TEXT →
            processNode_body fault (processNode fault fuel) n d
            = (visit_all (processNode fault fuel) (default [] (children nn)) d, Normal tt)
            ∧ ∀ pre c post,
                default [] (children nn) = pre ++ c :: post →
                (processNode fault fuel c (visit_all (processNode fault fuel) pre d)).2
                = Normal tt).
  { intros p Hp Hninst Hntext.
    rewrite (body_other fault _ n nn p d Hn Hp Hninst Hntext).
    assert (Hready : ready fuel rk d (default [] (children nn)) d).
    { exists rk. split; [by apply extends_refl|].
      destruct (children nn) as [cs|] eqn:Hcs; [|constructor]. simpl.
      apply Forall_forall. intros c Hc.
      destruct (ranked_child rk d n nn cs c Hr Hn Hcs Hc). split; [done | lia]. }
    destruct (for_each_returns fault fuel rk d _ IH d Hready) as (Hloop & _ & Heach).
    done. }
  rewrite processNode_S. unfold try_catch.
  destruct (processNode_body fault (processNode fault fuel) n d) as [d1 [[]|e|]] eqn:Hrun;
    [| |done]; destruct Hbody as [rk1 Hext].
  - exists d1. split; [done|]. split; [by intros ? ? ?|].
    intros p Hp Hninst Hntext. destruct (Hother p Hp Hninst Hntext) as [Heq Heach].
    split; [congruence | done].
  - destruct (proj2 Hext n nn Hn) as [(nn1 & Hn1 & Hname) _].
    rewrite (bind_Normal _ _ _ _ _ (read_ok d1 n nn1 name Hn1)). rewrite Hname.
    eexists. split; [reflexivity|]. split.
    + intros d2 e2 [= <- <-]. done.
    + intros p Hp Hninst Hntext. destruct (Hother p Hp Hninst Hntext) as [Heq _].
      congruence.
Qed.

Lemma sample_ranked sel : ranked sample_rank (sample_doc sel).
Proof. apply (bool_decide_unpack _). vm_compute. exact I. Qed.

Lemma processNode_isolates_errors_witness :
  ∃ d',
    processNode third_call_fails 4 1 (sample_doc [1]) = (d', Normal tt)
    ∧ d' = visit_all (processNode third_call_fails 3) [2; 3; 4] (sample_doc [1])
    ∧ (processNode third_call_fails 3 3
         (visit_all (processNode third_call_fails 3) [2] (sample_doc [1]))).2 = Normal tt
    ∧ console d' = [(error_message "Title", HostError LoadFontAsync)]
    ∧ nodes d' !! 1 ≫= children = Some [2; 9; 4].
Proof.
  destruct (processNode_isolates_errors third_call_fails sample_rank 3 (sample_doc [1]) 1
              (sample_node FRAME "Card" (Some 0) (Some [2; 3; 4]))
              (sample_ranked [1]) eq_refl)
    as (d' & Hrun & _ & Hkids).
  - simpl. lia.
  - destruct (Hkids 0 eq_refl) as [Hall Heach]; [done | done |].
    exists d'. split; [exact Hrun|]. split; [exact Hall|].
    split; [exact (Heach [2] 3 [4] eq_refl)|].
    rewrite Hall. split; vm_compute; reflexivity.
Defined.

(** * Further properties of the program *)

(** ** The ends of the opacity scale *)

Section OpacityEnds.
Local Open Scope Q_scope.

Lemma sizeFactor_small q : q <= 12 -> sizeFactor q == 0.5.
Proof.
  intros Hq. unfold sizeFactor.
  assert (Hx : (q / 24) * 24 == q) by field.
  set (x := q / 24) in *.
  destruct (Q.max_spec 0.5 x) as [[H1 H2]|[H1 H2]];
    destruct (Q.min_spec 1 (Qmax 0.5 x)) as [[H3 H4]|[H3 H4]]; lra.
Qed.

Lemma sizeFactor_full q : sizeFactor q == 1 <-> 24 <= q.
Proof.
  unfold sizeFactor.
  assert (Hx : (q / 24) * 24 == q) by field.
  set (x := q / 24) in *.
  destruct (Q.max_spec 0.5 x) as [[H1 H2]|[H1 H2]];
    destruct (Q.min_spec 1 (Qmax 0.5 x)) as [[H3 H4]|[H3 H4]]; split; lra.
Qed.

Lemma lengthFactor_full len : lengthFactor len == 1 <-> (50 <= len)%nat.
Proof.
  unfold lengthFactor.
  assert (Hlen : (50 <= len)%nat <-> 50 <= inject_Z (Z.of_nat len)).
  { change 50 with (inject_Z 50). rewrite <- Zle_Qle. lia. }
  rewrite Hlen. set (l := inject_Z (Z.of_nat len)).
  assert (Hx : (l / 50) * 50 == l) by field.
  set (x := l / 50) in *.
  destruct (Q.max_spec 0.7 x) as [[H1 H2]|[H1 H2]];
    destruct (Q.min_spec 1 (Qmax 0.7 x)) as [[H3 H4]|[H3 H4]]; split; lra.
Qed.

Lemma final_clamp_value a :
  Qmin (Qmax a 0.1) 0.4 == (if Qlt_le_dec a 0.1 then 0.1 else if Qlt_le_dec 0.4 a then 0.4 else a).
Proof.
  destruct (Q.max_spec a 0.1) as [[H1 H2]|[H1 H2]];
    destruct (Q.min_spec (Qmax a 0.1) 0.4) as [[H3 H4]|[H3 H4]];
    destruct (Qlt_le_dec a 0.1); try destruct (Qlt_le_dec 0.4 a); lra.
Qed.

(** X1. A text set in a numeric font size of 12 or less gets the least
    opacity, 0.1, however long it is. *)
Theorem calculateOpacity_small_font (textNode : Node) (q : Q)
    (Hsize : fontSize textNode = SizeNumber q) (Hq : q <= 12) :
  calculateOpacity textNode == 0.1.
Proof.
  rewrite calculateOpacity_unfold, Hsize. simpl numericSize.
  pose proof (sizeFactor_small q Hq) as Hsf.
  destruct (lengthFactor_bounds (String.length (characters textNode))) as [Hl1 Hl2].
  set (lf := lengthFactor _) in *. set (sf := sizeFactor q) in *.
  rewrite final_clamp_value.
  destruct (Qlt_le_dec (0.2 * sf * lf) 0.1); [reflexivity|].
  destruct (Qlt_le_dec 0.4 (0.2 * sf * lf)); nra.
Qed.

(** X2. The base opacity 0.2 is returned exactly for the texts with a numeric
    font size of at least 24 and at least 50 characters; every other text
    gets less. *)
Theorem calculateOpacity_full_iff (textNode : Node) :
  calculateOpacity textNode == 0.2
  <-> (∃ q, fontSize textNode = SizeNumber q ∧ 24 <= q)
      ∧ (50 <= String.length (characters textNode))%nat.
Proof.
  rewrite calculateOpacity_unfold.
  destruct (sizeFactor_bounds (numericSize (fontSize textNode))) as [Hs1 Hs2].
  destruct (lengthFactor_bounds (String.length (characters textNode))) as [Hl1 Hl2].
  pose proof (sizeFactor_full (numericSize (fontSize textNode))) as Hsf.
  pose proof (lengthFactor_full (String.length (characters textNode))) as Hlf.
  set (lf := lengthFactor _) in *. set (sf := sizeFactor _) in *.
  rewrite final_clamp_value.
  assert (Hsize : 24 <= numericSize (fontSize textNode)
                  <-> ∃ q, fontSize textNode = SizeNumber q ∧ 24 <= q).
  { destruct (fontSize textNode) as [|q]; simpl.
    - split; [intros H; exfalso; revert H; apply Qlt_not_le; reflexivity|].
      intros (q & Hq & _). discriminate.
    - split; [eauto|]. intros (q' & [= ->] & H). exact H. }
  rewrite <- Hsize, <- Hsf, <- Hlf.
  destruct (Qlt_le_dec (0.2 * sf * lf) 0.1); [|destruct (Qlt_le_dec 0.4 (0.2 * sf * lf))].
  - split; [lra|]. intros [H1 H2]. nra.
  - split; [lra|]. intros [H1 H2]. nra.
  - split; [|intros [H1 H2]; nra].
    intros H. split; nra.
Qed.


End OpacityEnds.

Lemma calculateOpacity_small_font_witness :
  (calculateOpacity (sample_text (SizeNumber 10) 80) == 0.1)%Q.
Proof.
  apply (calculateOpacity_small_font (sample_text (SizeNumber 10) 80) 10).
  - reflexivity.
  - discriminate.
Defined.


(** ** Colour extraction never yields an empty list *)

Lemma first_segment_fills_nonempty segs paints :
  first_segment_fills segs = Some paints → paints ≠ [].
Proof.
  induction segs as [|s segs IH]; simpl; [discriminate|].
  destruct (seg_fills s) as [|[|p ps]]; try exact IH. by intros [= <-].
Qed.

Lemma textColor_nonempty nn : textColor nn ≠ [].
Proof.
  unfold textColor.
  destruct (decide (1 < length (segments nn))).
  - destruct (first_segment_fills (segments nn)) as [paints|] eqn:H.
    + by eapply first_segment_fills_nonempty.
    + by destruct (fills nn) as [|[|p ps]].
  - by destruct (fills nn) as [|[|p ps]].
Qed.

(** X4. Whenever [getTextColor] returns, it returns at least one paint: the
    placeholder never ends up without a fill. *)
Theorem getTextColor_nonempty (fault : nat → bool) (d d' : Doc) (n : NodeId)
    (paints : list Paint)
    (Hrun : getTextColor fault n d = (d', Normal paints)) :
  paints ≠ [].
Proof.
  destruct (getTextColor_result fault d n d' paints Hrun) as (nn & _ & -> & _).
  apply textColor_nonempty.
Qed.

Lemma getTextColor_nonempty_witness :
  ∃ d' paints,
    getTextColor no_fault 1 (badge_doc MixedFills (PaintArray [])) = (d', Normal paints)
    ∧ paints ≠ [].
Proof.
  eexists _, _. split; [reflexivity|].
  eapply (getTextColor_nonempty no_fault (badge_doc MixedFills (PaintArray [])) _ 1).
  reflexivity.
Defined.

Lemma session_call_state (fault : nat → bool) c n d :
  (host_call fault c (λ d, _ ← nodes d !! n; Some d) d).1 = tick d.
Proof.
  unfold host_call. destruct (fault (calls d)); [done|].
  simpl. by destruct (nodes d !! n).
Qed.

Lemma getStyledTextSegments_state (fault : nat → bool) n d :
  (getStyledTextSegments fault n d).1 = tick d.
Proof.
  unfold getStyledTextSegments, bind.
  pose proof (session_call_state fault GetStyledTextSegments n d) as H.
  destruct (host_call fault GetStyledTextSegments _ d) as [d1 [[]|e|]]; simpl in *;
    subst d1; try done.
  unfold read. by destruct (nodes (tick d) !! n).
Qed.

Lemma bind_fst {A B} (m : M A) (k : A → M B) d (P : Doc → Prop) :
  P (m d).1 → (∀ a, P (k a (m d).1).1) → P (bind m k d).1.
Proof. unfold bind. destruct (m d) as [d1 [a|e|]]; simpl; auto. Qed.

Lemma getTextColor_state (fault : nat → bool) n d :
  ∃ k, 0 < k ≤ 3 ∧ (getTextColor fault n d).1 = ticks k d.
Proof.
  unfold getTextColor, loadFontAsync.
  apply (bind_fst _ _ d (λ d', ∃ k, 0 < k ≤ 3 ∧ d' = ticks k d));
    rewrite session_call_state; [exists 1; split; [lia | reflexivity]|]. intros [].
  apply (bind_fst _ _ _ (λ d', ∃ k, 0 < k ≤ 3 ∧ d' = ticks k d));
    rewrite getStyledTextSegments_state; [exists 2; split; [lia | reflexivity]|].
  intros styled.
  assert (Hfound : ∃ k, 2 ≤ k ≤ 3 ∧
            ((if decide (1 < length styled)
              then let* segs := getStyledTextSegments fault n in
                   ret (first_segment_fills segs)
              else ret None) (tick (tick d))).1 = ticks k d).
  { destruct (decide (1 < length styled)).
    - exists 3. split; [lia|].
      apply (bind_fst _ _ _ (λ d', d' = ticks 3 d));
        rewrite getStyledTextSegments_state; done.
    - exists 2. split; [lia | reflexivity]. }
  destruct Hfound as (k & Hk & Hfound).
  apply (bind_fst _ _ _ (λ d', ∃ k, 0 < k ≤ 3 ∧ d' = ticks k d)); rewrite Hfound.
  { exists k. split; [lia | done]. }
  intros [paints|]; [exists k; split; [lia | done]|].
  apply (bind_fst _ _ _ (λ d', ∃ k, 0 < k ≤ 3 ∧ d' = ticks k d)).
  - exists k. split; [lia|]. unfold read. by destruct (nodes (ticks k d) !! n).
  - intros f. assert ((read n fills (ticks k d)).1 = ticks k d) as ->.
    { unfold read. by destruct (nodes (ticks k d) !! n). }
    exists k. split; [lia|]. by destruct f as [|[|? ?]].
Qed.

(** X5. [getTextColor] only reads: whether it returns or throws, it leaves the
    nodes, the console and the notifications as they are, and it makes one to
    three host calls. *)
Theorem getTextColor_read_only (fault : nat → bool) (d : Doc) (n : NodeId) :
  let d' := (getTextColor fault n d).1 in
  nodes d' = nodes d ∧ nextId d' = nextId d ∧ console d' = console d
  ∧ notifications d' = notifications d ∧ closeCalls d' = closeCalls d
  ∧ calls d < calls d' ≤ calls d + 3.
Proof.
  destruct (getTextColor_state fault n d) as (k & Hk & ->). simpl. split_and!; try done; lia.
Qed.

(** ** Nodes that are skipped, and host calls that are rejected *)

Lemma bind_Throw {A B} (m : M A) (k : A → M B) d d1 e :
  m d = (d1, Throw e) → bind m k d = (d1, Throw e).
Proof. unfold bind. intros ->. reflexivity. Qed.

Lemma processNode_Throw (fault : nat → bool) fuel n nn d d1 e :
  processNode_body fault (processNode fault fuel) n d = (d1, Throw e) →
  nodes d1 !! n = Some nn →
  processNode fault (S fuel) n d
  = (log_console (error_message (name nn), e) d1, Normal tt).
Proof.
  intros Hbody Hn. rewrite processNode_S. unfold try_catch. rewrite Hbody.
  by rewrite (bind_Normal _ _ _ _ _ (read_ok d1 n nn name Hn)).
Qed.

(** X6. A node without a parent is skipped, whatever its type: no host call is
    made and the session stays as it is. *)
Theorem processNode_without_parent (fault : nat → bool) (fuel : nat) (d : Doc)
    (n : NodeId) (nn : Node)
    (Hn : nodes d !! n = Some nn) (Hp : parent nn = None) :
  processNode fault (S fuel) n d = (d, Normal tt).
Proof. apply processNode_Normal. by apply (body_removed fault _ n nn). Qed.

Lemma processNode_without_parent_witness :
  processNode no_fault 1 0 (sample_doc [0]) = (sample_doc [0], Normal tt).
Proof.
  by apply (processNode_without_parent no_fault 0 (sample_doc [0]) 0
              (sample_node PAGE "Page" None (Some [1]))).
Defined.

(** X7. When the host rejects the detachment of an instance, the error is logged
    with the name of the instance and nothing else happens: the document is
    unchanged, no child of the instance is visited, and the call returns
    normally. *)
Theorem processNode_detach_rejected (fault : nat → bool) (fuel : nat) (d : Doc)
    (n p : NodeId) (nn pn : Node) (cs : list NodeId)
    (Hn : nodes d !! n = Some nn) (Hinst : type nn = INSTANCE) (Hp : parent nn = Some p)
    (Hpn : nodes d !! p = Some pn) (Hcs : children pn = Some cs)
    (Hfault : fault (calls d) = true) :
  processNode fault (S fuel) n d
  = (log_console (error_message (name nn), HostError DetachInstance) (tick d), Normal tt).
Proof.
  apply (processNode_Throw fault fuel n nn); [|done].
  rewrite (body_instance fault _ n nn p d Hn Hp Hinst). unfold detach_and_visit.
  rewrite (bind_Normal _ _ _ _ _ (read_children_ok d p pn cs Hpn Hcs)).
  apply bind_Throw. unfold detachInstance, host_call. by rewrite Hfault.
Qed.

Lemma processNode_detach_rejected_witness :
  processNode (λ _, true) 3 3 (sample_doc [3])
  = (log_console (error_message "Button", HostError DetachInstance) (tick (sample_doc [3])),
     Normal tt).
Proof.
  by apply (processNode_detach_rejected (λ _, true) 2 (sample_doc [3]) 3 1
              (sample_node INSTANCE "Button" (Some 1) (Some [5; 6]))
              (sample_node FRAME "Card" (Some 0) (Some [2; 3; 4])) [2; 3; 4]).
Defined.

(** X8. When the host rejects the loading of the font, the rectangle that was
    created and sized before is left behind: the text node keeps its record
    and its place, and a rectangle named after it stays at the end of the
    current page.  The error is logged and the call returns normally. *)
Theorem processNode_font_rejected (fault : nat → bool) (fuel : nat) (d : Doc)
    (n p : NodeId) (nn qn : Node) (lq : list NodeId)
    (Hn : nodes d !! n = Some nn) (Htext : type nn = TEXT) (Hp : parent nn = Some p)
    (Hq : nodes d !! currentPage d = Some qn) (Hlq : children qn = Some lq)
    (Hnq : n ≠ currentPage d)
    (Hfresh : nodes d !! nextId d = None)
    (Hcreate : fault (calls d) = false) (Hresize : fault (S (calls d)) = false)
    (Hfont : fault (S (S (calls d))) = true) :
  let stray := set_size (width nn) (height nn)
                 (set_name ("Ghost_" +:+ name nn) (new_rectangle (currentPage d))) in
  ∃ d',
    processNode fault (S fuel) n d = (d', Normal tt)
    ∧ nodes d' = <[nextId d := stray]>
                   (<[currentPage d := set_children (Some (lq ++ [nextId d])) qn]> (nodes d))
    ∧ nodes d' !! n = Some nn
    ∧ nodes d' !! currentPage d ≫= children = Some (lq ++ [nextId d])
    ∧ nextId d' = S (nextId d)
    ∧ console d' = console d ++ [(error_message (name nn), HostError LoadFontAsync)].
Proof.
  intros stray. set (g := nextId d) in *. set (q := currentPage d) in *.
  assert (Hgn : g ≠ n) by (intros ->; congruence).
  assert (Hgq : g ≠ q) by (intros ->; congruence).
  set (m1 := <[q := set_children (Some (lq ++ [g])) qn]> (nodes d)).
  set (d3 := set_nodes (<[g := stray]> m1) (tick (set_nextId (S g) (tick d)))).
  assert (Hbody : processNode_body fault (processNode fault fuel) n d
                  = (tick d3, Throw (HostError LoadFontAsync))).
  { rewrite (body_text fault _ n nn p d Hn Hp Htext). unfold convert_text.
    rewrite (bind_Normal _ _ _ _ _ (createRectangle_ok fault d Hcreate)).
    fold g q. rewrite (host_createRectangle_lookup g q qn lq _ Hq Hlq). fold m1.
    set (d1 := set_nextId (S g) (set_nodes (<[g := new_rectangle q]> m1) (tick d))).
    assert (Hd1n : nodes d1 !! n = Some nn).
    { simpl. rewrite lookup_insert_ne by done. unfold m1. by rewrite lookup_insert_ne. }
    rewrite (bind_Normal _ _ _ _ _ (read_ok d1 n nn name Hd1n)).
    rewrite (bind_Normal _ _ _ _ _
               (assign_ok d1 g (new_rectangle q) _ (lookup_insert_eq _ _ _))).
    simpl nodes. rewrite insert_insert_eq.
    match goal with |- context [bind (read n width) _ ?s] => set (d2 := s) end.
    assert (Hd2n : nodes d2 !! n = Some nn).
    { simpl. rewrite lookup_insert_ne by done. unfold m1. by rewrite lookup_insert_ne. }
    rewrite (bind_Normal _ _ _ _ _ (read_ok d2 n nn width Hd2n)).
    rewrite (bind_Normal _ _ _ _ _ (read_ok d2 n nn height Hd2n)).
    rewrite (bind_Normal _ _ _ _ _
               (resize_ok fault d2 g _ (width nn) (height nn) Hresize
                  (lookup_insert_eq _ _ _))).
    simpl nodes. rewrite insert_insert_eq.
    apply bind_Throw. unfold getTextColor. apply bind_Throw.
    unfold loadFontAsync, host_call. simpl calls. by rewrite Hfont. }
  assert (Hd3n : nodes (tick d3) !! n = Some nn).
  { simpl. rewrite lookup_insert_ne by done. unfold m1. by rewrite lookup_insert_ne. }
  eexists. split; [exact (processNode_Throw fault fuel n nn d _ _ Hbody Hd3n)|].
  split_and!; try done.
  simpl. rewrite lookup_insert_ne by done. unfold m1. by rewrite lookup_insert_eq.
Qed.

Lemma processNode_font_rejected_witness :
  ∃ d',
    processNode third_call_fails 1 2 (sample_doc [2]) = (d', Normal tt)
    ∧ nodes d' !! 2 = Some (sample_node TEXT "Title" (Some 1) None)
    ∧ nodes d' !! 0 ≫= children = Some [1; 8]
    ∧ name <$> nodes d' !! 8 = Some "Ghost_Title"%string
    ∧ console d' = [(error_message "Title", HostError LoadFontAsync)].
Proof.
  destruct (processNode_font_rejected third_call_fails 0 (sample_doc [2]) 2 1
              (sample_node TEXT "Title" (Some 1) None)
              (sample_node PAGE "Page" None (Some [1])) [1])
    as (d' & Hrun & Hnodes & Htext & Hpage & _ & Hcons); try done.
  exists d'. split; [exact Hrun|]. split; [exact Htext|]. split; [exact Hpage|].
  split; [|exact Hcons]. rewrite Hnodes. reflexivity.
Defined.

(** ** What the traversal never touches *)

Lemma continues_refl d : continues d d.
Proof. by split_and!. Qed.

Lemma continues_trans d1 d2 d3 : continues d1 d2 → continues d2 d3 → continues d1 d3.
Proof.
  intros (? & ? & ? & ? & ? & ? & ?) (? & ? & ? & ? & ? & ? & ?).
  split_and!; try congruence; try lia. by etrans.
Qed.

Lemma discreet_ret {A} (a : A) : discreet (ret a).
Proof. intros d. apply continues_refl. Qed.

Lemma discreet_throw {A} e : discreet (@throw A e).
Proof. intros d. apply continues_refl. Qed.

Lemma discreet_bind {A B} (m : M A) (k : A → M B) :
  discreet m → (∀ a, discreet (k a)) → discreet (bind m k).
Proof.
  intros Hm Hk d. specialize (Hm d). unfold bind.
  destruct (m d) as [d1 [a|e|]]; simpl in *; try done.
  eapply continues_trans; [exact Hm | apply Hk].
Qed.

Lemma discreet_try_catch {A} (body : M A) (handler : Error → M A) :
  discreet body → (∀ e, discreet (handler e)) → discreet (try_catch body handler).
Proof.
  intros Hb Hh d. specialize (Hb d). unfold try_catch.
  destruct (body d) as [d1 [a|e|]]; simpl in *; try done.
  eapply continues_trans; [exact Hb | apply Hh].
Qed.

Lemma discreet_for_each {A} (f : A → M unit) l :
  (∀ a, discreet (f a)) → discreet (for_each f l).
Proof.
  intros Hf. induction l as [|a l IH]; simpl; [apply discreet_ret|].
  apply discreet_bind; [apply Hf | by intros []].
Qed.

Lemma discreet_read {A} n (prop : Node → A) : discreet (read n prop).
Proof. intros d. unfold read. destruct (nodes d !! n); apply continues_refl. Qed.

Lemma discreet_assign n upd : discreet (assign n upd).
Proof. intros d. unfold assign. destruct (nodes d !! n); by split_and!. Qed.

Lemma discreet_console_error msg e : discreet (console_error msg e).
Proof. intros d. split_and!; try done. simpl. by apply prefix_app_r. Qed.

Section Discreet.
Variable fault : nat → bool.

Lemma discreet_host_call c op :
  (∀ d d', op d = Some d' → continues d d') → discreet (host_call fault c op).
Proof.
  intros Hop d. unfold host_call.
  assert (Htick : continues d (tick d)) by (split_and!; simpl; try done; lia).
  destruct (fault (calls d)); [done|].
  destruct (op (tick d)) as [d'|] eqn:H; [|done].
  simpl. eapply continues_trans; [exact Htick | by apply Hop].
Qed.

Lemma continues_on_nodes f d d' : on_nodes f d = Some d' → continues d d'.
Proof.
  unfold on_nodes. destruct (f (nodes d)) as [m|]; [|done].
  intros [= <-]. by split_and!.
Qed.

Lemma discreet_read_children p : discreet (read_children p).
Proof.
  apply discreet_bind; [apply discreet_read|].
  intros [l|]; [apply discreet_ret | apply discreet_throw].
Qed.

Lemma discreet_getStyledTextSegments n : discreet (getStyledTextSegments fault n).
Proof.
  apply discreet_bind; [|intros; apply discreet_read].
  apply discreet_host_call. intros d d'. destruct (nodes d !! n); [|done].
  intros [= <-]. apply continues_refl.
Qed.

Lemma discreet_getTextColor n : discreet (getTextColor fault n).
Proof.
  intros d. destruct (getTextColor_state fault n d) as (k & Hk & ->).
  split_and!; simpl; try done; lia.
Qed.

Lemma discreet_createRectangle : discreet (createRectangle fault).
Proof.
  intros d. unfold createRectangle, bind, host_call.
  destruct (fault (calls d)); split_and!; simpl; try done; lia.
Qed.

Lemma discreet_resize n w h : discreet (resize fault n w h).
Proof. apply discreet_host_call. intros d d'. apply continues_on_nodes. Qed.

Lemma discreet_insertChild p index c : discreet (insertChild fault p index c).
Proof. apply discreet_host_call. intros d d'. apply continues_on_nodes. Qed.

Lemma discreet_remove n : discreet (remove fault n).
Proof. apply discreet_host_call. intros d d'. apply continues_on_nodes. Qed.

Lemma discreet_convert_text n : discreet (convert_text fault n).
Proof.
  unfold convert_text.
  apply discreet_bind; [apply discreet_createRectangle|]. intros g.
  apply discreet_bind; [apply discreet_read|]. intros node_name.
  apply discreet_bind; [apply discreet_assign|]. intros [].
  apply discreet_bind; [apply discreet_read|]. intros w.
  apply discreet_bind; [apply discreet_read|]. intros h.
  apply discreet_bind; [apply discreet_resize|]. intros [].
  apply discreet_bind; [apply discreet_getTextColor|]. intros textColor.
  apply discreet_bind; [apply discreet_assign|]. intros [].
  apply discreet_bind; [apply discreet_read|]. intros op.
  apply discreet_bind; [apply discreet_assign|]. intros [].
  apply discreet_bind; [apply discreet_read|]. intros node_x.
  apply discreet_bind; [apply discreet_assign|]. intros [].
  apply discreet_bind; [apply discreet_read|]. intros node_y.
  apply discreet_bind; [apply discreet_assign|]. intros [].
  apply discreet_bind; [apply discreet_assign|]. intros [].
  apply discreet_bind; [apply discreet_read|]. intros node_parent.
  apply discreet_bind; [|intros []; apply discreet_remove].
  destruct node_parent as [p|]; [|apply discreet_ret].
  apply discreet_bind; [apply discreet_read_children|]. intros siblings.
  apply discreet_insertChild.
Qed.

Lemma discreet_getChildren n : discreet (getChildren n).
Proof.
  apply discreet_bind; [apply discreet_read|]. intros [l|]; apply discreet_ret.
Qed.

Lemma discreet_detach_and_visit visit n p :
  (∀ c, discreet (visit c)) → discreet (detach_and_visit fault visit n p).
Proof.
  intros Hv. unfold detach_and_visit.
  apply discreet_bind; [apply discreet_read_children|]. intros siblings.
  apply discreet_bind.
  { apply discreet_host_call. intros d d'.
    destruct (host_detachInstance n (nextId d) (nodes d)) as [m|]; [|done].
    intros [= <-]. split_and!; simpl; try done; lia. }
  intros []. apply discreet_bind; [apply discreet_read_children|]. intros siblings'.
  destruct (at_index siblings' (indexOf siblings n)); [|apply discreet_ret].
  apply discreet_bind; [apply discreet_getChildren|]. intros kids.
  by apply discreet_for_each.
Qed.

Lemma discreet_processNode fuel n : discreet (processNode fault fuel n).
Proof.
  revert n. induction fuel as [|fuel IH]; intros n; [intros d; apply continues_refl|].
  simpl. apply discreet_try_catch.
  - unfold processNode_body. apply discreet_bind; [apply discreet_read|].
    intros [p|]; [|apply discreet_ret].
    apply discreet_bind; [apply discreet_read|]. intros t.
    destruct (decide (t = INSTANCE)); [by apply discreet_detach_and_visit|].
    destruct (decide (t = TEXT)); [apply discreet_convert_text|].
    apply discreet_bind; [apply discreet_getChildren|]. intros kids.
    by apply discreet_for_each.
  - intros e. apply discreet_bind; [apply discreet_read|]. intros nm.
    apply discreet_console_error.
Qed.

Lemma continues_visit_all fuel l d :
  continues d (visit_all (processNode fault fuel) l d).
Proof.
  revert d. induction l as [|c l IH]; intros d; [apply continues_refl|].
  unfold visit_all. simpl. eapply continues_trans; [|apply IH].
  apply discreet_processNode.
Qed.

End Discreet.


(** ** The main program on a selection *)

(** X10. With nodes selected, the main program visits them in order, then shows
    the success notification and closes the plugin once.  This holds
    whichever host calls fail: the errors are logged by the visits, the
    failure notification is never shown. *)
Theorem main_reports_success (fault : nat → bool) (rk : NodeId → nat) (fuel : nat)
    (d : Doc)
    (Hr : ranked rk d) (Hsel : selection d ≠ [])
    (Hfuel : Forall (λ c, is_Some (nodes d !! c) ∧ rk c < fuel) (selection d)) :
  ∃ d',
    main fault fuel d = (d', Normal tt)
    ∧ d' = count_close (push_notification success
                          (visit_all (processNode fault fuel) (selection d) d))
    ∧ notifications d' = notifications d ++ [success]
    ∧ success ≠ failure
    ∧ closeCalls d' = S (closeCalls d).
Proof.
  assert (Hready : ready fuel rk d (selection d) d).
  { exists rk. split; [by apply extends_refl | done]. }
  destruct (for_each_returns fault fuel rk d (selection d) (processNode_returns fault fuel)
              d Hready) as (Hloop & _ & _).
  destruct (continues_visit_all fault fuel (selection d) d) as (Hnote & Hclose & _).
  eexists. split.
  { unfold main, try_finally, try_catch.
    rewrite decide_False by (by destruct (selection d)).
    rewrite (bind_Normal _ _ _ _ _ Hloop). reflexivity. }
  split; [reflexivity|]. simpl. rewrite Hnote, Hclose. done.
Qed.

Lemma main_reports_success_witness :
  ∃ d',
    main third_call_fails 4 (sample_doc [1]) = (d', Normal tt)
    ∧ notifications d' = [success]
    ∧ closeCalls d' = 1
    ∧ console d' = [(error_message "Title", HostError LoadFontAsync)].
Proof.
  destruct (main_reports_success third_call_fails sample_rank 4 (sample_doc [1])
              (sample_ranked [1]))
    as (d' & Hrun & Heq & Hnote & _ & Hclose).
  - done.
  - apply Forall_cons. split; [|apply Forall_nil_2].
    split; [by eexists | simpl; lia].
  - exists d'. split; [exact Hrun|]. split; [exact Hnote|]. split; [exact Hclose|].
    rewrite Heq. vm_compute. reflexivity.
Defined.

(** ** A failed conversion keeps the text *)

Lemma unlink_leaf g n nn (m : gmap NodeId Node) :
  m !! n = Some nn → children nn = None → unlink g m !! n = Some nn.
Proof.
  intros Hn Hleaf. unfold unlink. destruct (m !! g) as [gn|]; [|done].
  destruct (parent gn) as [q|]; [|done]. rewrite lookup_alter.
  destruct (decide (q = n)) as [->|]; [|done]. rewrite Hn. simpl.
  rewrite Hleaf. simpl. rewrite <- Hleaf. by rewrite set_children_same.
Qed.

Lemma unlink_child g n p pn cs (m : gmap NodeId Node) :
  m !! p = Some pn → children pn = Some cs → n ∈ cs → n ≠ g →
  ∃ pn' cs', unlink g m !! p = Some pn' ∧ children pn' = Some cs' ∧ n ∈ cs'.
Proof.
  intros Hp Hcs Hin Hng. unfold unlink. destruct (m !! g) as [gn|]; [|by eauto].
  destruct (parent gn) as [q|]; [|by eauto]. rewrite lookup_alter.
  destruct (decide (q = p)) as [->|]; [|by eauto]. rewrite Hp. simpl.
  eexists _, _. split; [done|]. simpl. rewrite Hcs. simpl. split; [done|].
  unfold without. apply list_elem_of_filter. done.
Qed.

Section KeepsText.
Variable fault : nat → bool.
Variables (n : NodeId) (nn : Node) (p : NodeId).
Hypothesis Hleaf : children nn = None.

Lemma in_place_session d d' : nodes d' = nodes d → in_place n nn p d → in_place n nn p d'.
Proof. unfold in_place. by intros ->. Qed.

Lemma in_place_not_parent d : in_place n nn p d → n ≠ p.
Proof using Hleaf. intros [Hn (pn & cs & Hp & Hcs & _)] ->. congruence. Qed.

Lemma in_place_assign g upd d :
  (∀ gn, children (upd gn) = children gn) → g ≠ n →
  in_place n nn p d →
  match assign g upd d with
  | (d', _) => in_place n nn p d'
  end.
Proof.
  intros Hupd Hgn [Hn (pn & cs & Hp & Hcs & Hin)]. unfold assign.
  destruct (nodes d !! g) as [gn|] eqn:Hg; [|by split; eauto].
  split; simpl; [by rewrite lookup_insert_ne|].
  destruct (decide (g = p)) as [->|].
  - rewrite lookup_insert_eq. eexists _, cs. split; [done|]. rewrite Hupd.
    split; [congruence | done].
  - rewrite lookup_insert_ne by done. eauto.
Qed.

Lemma in_place_createRectangle :
  triple (λ d, in_place n nn p d ∧ nodes d !! nextId d = None ∧ n ≠ currentPage d)
    (createRectangle fault)
    (λ g d, in_place n nn p d ∧ g ≠ n) (in_place n nn p).
Proof.
  intros d ([Hn (pn & cs & Hp & Hcs & Hin)] & Hfresh & Hnq).
  unfold createRectangle, bind, host_call.
  destruct (fault (calls d)); [by split; eauto|]. simpl.
  assert (Hgn : nextId d ≠ n) by (intros Heq; rewrite Heq in Hfresh; congruence).
  assert (Hgp : nextId d ≠ p) by (intros Heq; rewrite Heq in Hfresh; congruence).
  split; [|done]. unfold host_createRectangle. split; simpl.
  - rewrite lookup_insert_ne by done. rewrite lookup_alter.
    by rewrite decide_False by done.
  - rewrite lookup_insert_ne by done. rewrite lookup_alter.
    destruct (decide (currentPage d = p)) as [Heq|]; [|by eauto].
    rewrite ?Heq, Hp. simpl. eexists _, _. split; [done|]. simpl. rewrite Hcs. simpl.
    split; [done|]. apply elem_of_app. by left.
Qed.

Lemma in_place_insertChild p' index g :
  triple (λ d, in_place n nn p d ∧ g ≠ n) (insertChild fault p' index g)
    (λ _, in_place n nn p) (in_place n nn p).
Proof using Hleaf.
  apply triple_host_call.
  - intros d [H _]. by apply (in_place_session d).
  - intros d d' [Hplace Hgn] Hop. unfold on_nodes in Hop. simpl in Hop.
    destruct (host_insertChild p' index g (nodes d)) as [m'|] eqn:Hm; [|done].
    simpl in Hop. injection Hop as <-.
    pose proof (in_place_not_parent d Hplace) as Hnp.
    destruct Hplace as [Hn (pn & cs & Hp & Hcs & Hin)].
    unfold host_insertChild in Hm.
    destruct (nodes d !! g) as [gn|] eqn:Hg; [|done]. simpl in Hm.
    pose proof (unlink_leaf g n nn (nodes d) Hn Hleaf) as Hn1.
    destruct (unlink_child g n p pn cs (nodes d) Hp Hcs Hin (not_eq_sym Hgn))
      as (pn1 & cs1 & Hp1 & Hcs1 & Hin1).
    destruct (unlink g (nodes d) !! p') as [pn'|] eqn:Hp'; [|done]. simpl in Hm.
    destruct (children pn') as [cs'|] eqn:Hcs'; [|done]. simpl in Hm.
    destruct (decide (0 ≤ index ≤ Z.of_nat (length cs'))%Z); [|done].
    injection Hm as <-.
    assert (Hnp' : p' ≠ n) by (intros ->; congruence).
    split; simpl.
    + rewrite lookup_alter. rewrite decide_False by done.
      by rewrite lookup_insert_ne.
    + rewrite lookup_alter.
      assert (Hp2 : ∃ pn2 cs2,
                <[p' := set_children (Some (insert_at (Z.to_nat index) g cs')) pn']>
                  (unlink g (nodes d)) !! p = Some pn2
                ∧ children pn2 = Some cs2 ∧ n ∈ cs2).
      { destruct (decide (p' = p)) as [->|].
        - rewrite lookup_insert_eq. eexists _, _. split; [done|]. split; [done|].
          assert (cs' = cs1) by congruence. subst cs'.
          unfold insert_at. apply elem_of_app.
          rewrite <- (take_drop (Z.to_nat index) cs1) in Hin1.
          apply elem_of_app in Hin1 as [?|?]; [by left|]. right. by right.
        - rewrite lookup_insert_ne by done. eauto. }
      destruct Hp2 as (pn2 & cs2 & Hp2 & Hcs2 & Hin2).
      destruct (decide (g = p)) as [->|]; [|by eauto].
      rewrite Hp2. simpl. eauto.
Qed.

Lemma in_place_convert_text :
  triple (λ d, in_place n nn p d ∧ nodes d !! nextId d = None ∧ n ≠ currentPage d)
    (convert_text fault n) (λ _ _, True) (in_place n nn p).
Proof using Hleaf.
  unfold convert_text.
  eapply triple_bind; [apply in_place_createRectangle|]. intros g.
  assert (Hweak : ∀ d, in_place n nn p d ∧ g ≠ n → in_place n nn p d) by (by intros d []).
  assert (Hsess : ∀ d d', nodes d' = nodes d → nextId d' = nextId d →
            in_place n nn p d ∧ g ≠ n → in_place n nn p d' ∧ g ≠ n).
  { intros d d' Hn Hx [Hk Hl]. split; [by eapply in_place_session | done]. }
  assert (Hassign : ∀ upd, (∀ gn, children (upd gn) = children gn) →
            triple (λ d, in_place n nn p d ∧ g ≠ n) (assign g upd)
              (λ _ d, in_place n nn p d ∧ g ≠ n) (in_place n nn p)).
  { intros upd Hupd d [Hplace Hgn].
    pose proof (in_place_assign g upd d Hupd Hgn Hplace) as H.
    by destruct (assign g upd d) as [d' [[]|e|]] eqn:Hrun;
      [| |unfold assign in Hrun; destruct (nodes d !! g); simplify_eq]. }
  eapply triple_bind; [by apply triple_read_keep|]. intros node_name.
  eapply triple_bind; [by apply Hassign|]. intros [].
  eapply triple_bind; [by apply triple_read_keep|]. intros w.
  eapply triple_bind; [by apply triple_read_keep|]. intros h.
  eapply triple_bind.
  { apply (triple_host_call fault _ (λ d, in_place n nn p d ∧ g ≠ n)).
    - intros d [H _]. by apply (in_place_session d).
    - intros d d' [Hplace Hgn] Hop. unfold on_nodes in Hop. simpl in Hop.
      destruct (nodes d !! g) as [gn|] eqn:Hg; [|done]. simpl in Hop. injection Hop as <-.
      split; [|done].
      pose proof (in_place_assign g (set_size w h) d (λ _, eq_refl) Hgn Hplace) as H.
      unfold assign in H. rewrite Hg in H. by apply (in_place_session _ _ eq_refl H). }
  intros [].
  eapply triple_bind.
  { apply (triple_weaken (λ d, in_place n nn p d ∧ g ≠ n) _ _
             (λ _ d, in_place n nn p d ∧ g ≠ n) _ (λ d, in_place n nn p d ∧ g ≠ n));
      [by apply (getTextColor_keeps fault _ n Hsess) | by intros d H; exact H
       | by intros a d H; exact H | exact Hweak]. }
  intros textColor.
  eapply triple_bind; [by apply Hassign|]. intros [].
  eapply triple_bind; [by apply triple_read_keep|]. intros op.
  eapply triple_bind; [by apply Hassign|]. intros [].
  eapply triple_bind; [by apply triple_read_keep|]. intros node_x.
  eapply triple_bind; [by apply Hassign|]. intros [].
  eapply triple_bind; [by apply triple_read_keep|]. intros node_y.
  eapply triple_bind; [by apply Hassign|]. intros [].
  eapply triple_bind; [by apply Hassign|]. intros [].
  eapply triple_bind; [by apply triple_read_keep|]. intros node_parent.
  eapply (triple_bind _ _ _ (λ _, in_place n nn p)).
  - destruct node_parent as [p'|]; [|by apply triple_ret].
    eapply triple_bind; [by apply read_children_keeps|]. intros siblings.
    apply in_place_insertChild.
  - intros []. apply triple_host_call; [|done].
    intros d H. by apply (in_place_session d).
Qed.

End KeepsText.

(** X11. When the conversion of a text node fails at any step, the text is not
    lost: the error is logged with its name, and the text node still has its
    record and is still among the children of its parent. *)
Theorem processNode_text_kept_on_error (fault : nat → bool) (fuel : nat) (d d1 : Doc)
    (n p : NodeId) (nn pn : Node) (cs : list NodeId) (e : Error)
    (Hn : nodes d !! n = Some nn) (Htext : type nn = TEXT) (Hleaf : children nn = None)
    (Hp : parent nn = Some p)
    (Hpn : nodes d !! p = Some pn) (Hcs : children pn = Some cs) (Hin : n ∈ cs)
    (Hnq : n ≠ currentPage d) (Hfresh : nodes d !! nextId d = None)
    (Hbody : processNode_body fault (processNode fault fuel) n d = (d1, Throw e)) :
  processNode fault (S fuel) n d
  = (log_console (error_message (name nn), e) d1, Normal tt)
  ∧ nodes d1 !! n = Some nn
  ∧ ∃ pn' cs', nodes d1 !! p = Some pn' ∧ children pn' = Some cs' ∧ n ∈ cs'.
Proof.
  assert (Hplace : in_place n nn p d1).
  { rewrite (body_text fault _ n nn p d Hn Hp Htext) in Hbody.
    pose proof (in_place_convert_text fault n nn p Hleaf d) as H.
    rewrite Hbody in H. apply H. split; [|done]. split; [done|]. eauto. }
  destruct Hplace as [Hn1 Hp1]. split; [|done].
  by apply (processNode_Throw fault fuel n nn).
Qed.

Lemma processNode_text_kept_on_error_witness :
  ∃ d1,
    processNode sixth_call_fails 1 2 (sample_doc [2])
    = (log_console (error_message "Title", HostError Remove) d1, Normal tt)
    ∧ nodes d1 !! 2 = Some (sample_node TEXT "Title" (Some 1) None)
    ∧ nodes d1 !! 1 ≫= children = Some [8; 2; 3; 4].
Proof.
  exists (processNode_body sixth_call_fails (processNode sixth_call_fails 0) 2
            (sample_doc [2])).1.
  assert (Hbody : processNode_body sixth_call_fails (processNode sixth_call_fails 0) 2
                    (sample_doc [2])
                  = ((processNode_body sixth_call_fails (processNode sixth_call_fails 0) 2
                        (sample_doc [2])).1, Throw (HostError Remove))).
  { vm_compute. reflexivity. }
  destruct (processNode_text_kept_on_error sixth_call_fails 0 (sample_doc [2]) _
              2 1 (sample_node TEXT "Title" (Some 1) None)
              (sample_node FRAME "Card" (Some 0) (Some [2; 3; 4])) [2; 3; 4]
              (HostError Remove) eq_refl eq_refl eq_refl eq_refl eq_refl eq_refl
              (list_elem_of_here 2 [3; 4]) (ltac:(discriminate)) eq_refl Hbody)
    as (Hrun & Hn & _).
  split; [exact Hrun|]. split; [exact Hn|]. vm_compute. reflexivity.
Defined.

(** ** The whole subtree after a visit *)

Lemma same_but_parent_eq kn0 kn p :
  set_parent None kn0 = set_parent None kn → parent kn = Some p →
  kn = set_parent (Some p) kn0.
Proof. destruct kn0, kn. unfold set_parent. simpl. intros [=] ->. by subst. Qed.

Lemma mirrors_inv m m' lo hi p k kids r :
  mirrors m m' lo hi p (TNode k kids) r →
  ∃ kn, m !! k = Some kn ∧
    ((type kn = TEXT ∧ kids = [] ∧ lo ≤ r < hi ∧ m' !! r = Some (ghost_of kn p)
      ∧ parent <$> m' !! k = Some None)
     ∨ (type kn = INSTANCE ∧ lo ≤ r < hi ∧ parent <$> m' !! k = Some None
        ∧ ∃ rs, m' !! r = Some (set_parent (Some p)
                                  (set_children (Some rs) (set_type FRAME kn)))
                ∧ Forall2 (mirrors m m' lo hi r) kids rs)
     ∨ (type kn ≠ TEXT ∧ type kn ≠ INSTANCE ∧ r = k
        ∧ ∃ rs, m' !! k = Some (set_parent (Some p)
                                  (set_children ((λ _, rs) <$> children kn) kn))
                ∧ Forall2 (mirrors m m' lo hi k) kids rs)).
Proof.
  inversion 1; subst; eexists; (split; [eassumption|]).
  - left. split_and!; try done; lia.
  - right. left. split_and!; try done; try lia. eauto.
  - right. right. split_and!; try done. eauto.
Qed.

Lemma mirrors_frame m0 m1 m2 lo hi lo' hi' t :
  ∀ p r,
    mirrors m0 m1 lo hi p t r →
    (∀ x, x ∈ ids t ∨ lo ≤ x < hi → m2 !! x = m1 !! x) →
    lo' ≤ lo → hi ≤ hi' →
    mirrors m0 m2 lo' hi' p t r.
Proof.
  induction t as [k kids IH] using Tree_ind. intros p r Hm Hfr Hlo Hhi.
  assert (Hkids : ∀ q rs,
            (∀ x, x ∈ flat_map ids kids ∨ lo ≤ x < hi → m2 !! x = m1 !! x) →
            Forall2 (mirrors m0 m1 lo hi q) kids rs →
            Forall2 (mirrors m0 m2 lo' hi' q) kids rs).
  { intros q rs Hfr' Hall. clear Hm Hfr. revert IH Hfr'.
    induction Hall as [|t r' kids rs Ht _ IHall]; intros IH Hfr'; [constructor|].
    apply Forall_cons in IH as [IHt IH]. constructor.
    - apply IHt; try done. intros x Hx. apply Hfr'.
      destruct Hx as [Hx|Hx]; [left | by right].
      simpl. apply elem_of_app. by left.
    - apply IHall; [done|]. intros x Hx. apply Hfr'.
      destruct Hx as [Hx|Hx]; [left | by right].
      simpl. apply elem_of_app. by right. }
  assert (Hsub : ∀ x, x ∈ flat_map ids kids ∨ lo ≤ x < hi → m2 !! x = m1 !! x).
  { intros x Hx. apply Hfr. destruct Hx as [Hx|Hx]; [left | by right].
    simpl. by right. }
  assert (Hk : m2 !! k = m1 !! k) by (apply Hfr; left; simpl; left).
  apply mirrors_inv in Hm as (kn & Hkn & [H|[H|H]]).
  - destruct H as (Hty & -> & Hr & Hg & Hgone).
    apply (mirrors_text _ _ _ _ p k kn r); try done; try lia.
    + rewrite Hfr; [done | by right].
    + by rewrite Hk.
  - destruct H as (Hty & Hr & Hgone & rs & Hf & Hall).
    apply (mirrors_instance _ _ _ _ p k kn kids r rs); try done; try lia.
    + rewrite Hfr; [done | by right].
    + by rewrite Hk.
    + by apply Hkids.
  - destruct H as (Hty & Hty' & -> & rs & Hk' & Hall).
    apply (mirrors_other _ _ _ _ p k kn kids rs); try done.
    + by rewrite Hk.
    + by apply Hkids.
Qed.

Lemma slot_unique (m : gmap NodeId Node) p pn cs i r r' :
  i < length cs →
  m !! p = Some (set_children (Some (<[i := r]> cs)) pn) →
  m !! p = Some (set_children (Some (<[i := r']> cs)) pn) →
  r = r'.
Proof.
  intros Hi H1 H2. rewrite H1 in H2. injection H2 as H2.
  apply (f_equal (λ l, l !! i)) in H2.
  rewrite !list_lookup_insert_eq in H2 by done. congruence.
Qed.

Lemma detached_lookup d n nn p pn cs i ks x :
  x ≠ nextId d → x ≠ n → x ≠ p →
  nodes (detached d n nn p pn cs i ks) !! x
  = (λ xn, if decide (x ∈ ks) then set_parent (Some (nextId d)) xn else xn)
      <$> nodes d !! x.
Proof. intros ? ? ?. simpl. rewrite !lookup_insert_ne by done. apply lookup_adopt. Qed.

Lemma agree_subset m0 m X Y : (∀ x, x ∈ Y → x ∈ X) → agree m0 m X → agree m0 m Y.
Proof. intros Hsub H k kn Hk. apply H. by apply Hsub. Qed.

Lemma agree_frame m0 m m' X :
  (∀ x, x ∈ X → ∀ xn', m' !! x = Some xn' →
        ∃ xn, m !! x = Some xn ∧ set_parent None xn = set_parent None xn') →
  agree m0 m X → agree m0 m' X.
Proof.
  intros Hfr H k kn' Hk Hkn'. destruct (Hfr k Hk kn' Hkn') as (kn & Hkn & Heq).
  destruct (H k kn Hk Hkn) as (kn0 & Hkn0 & Heq0). exists kn0. split; [done|]. congruence.
Qed.

Section Deep.
Variable fault : nat → bool.

Lemma deep_visit_spec fuel t : deep_spec fault fuel t → visit_spec fault fuel t.
Proof.
  intros H d p pn cs i Hsub Hnd Hp Hpn Hcs Hi Hu Hb Hpg Hq.
  destruct (H (nodes d) d p pn cs i) as (d' & r & Hrun & Hvis & _); try done.
  { intros k kn _ Hk. eauto. }
  eauto.
Qed.

Lemma visit_kids_deep fuel ts :
  Forall (deep_spec fault fuel) ts →
  ∀ m0 d k kn skip,
    nodes d !! k = Some kn → children kn = Some (skip ++ (root <$> ts)) →
    Forall (subtree (nodes d) k) ts →
    NoDup (flat_map ids ts) → k ∉ flat_map ids ts →
    Forall (λ r, r ∉ (root <$> ts)) skip →
    bounded d → page_ok d → quiet fault d →
    agree m0 (nodes d) (flat_map ids ts) →
    ∀ d' rs,
      for_each (processNode fault fuel) (root <$> ts) d = (d', Normal tt) →
      nodes d' !! k = Some (set_children (Some (skip ++ rs)) kn) →
      Forall2 (mirrors m0 (nodes d') (nextId d) (nextId d') k) ts rs.
Proof.
  induction 1 as [|t ts Ht Hts IH];
    intros m0 d k kn skip Hk Hch Hsub Hnd Hkout Hskip Hb Hpg Hq Hag d' rs Hrun Hk'.
  { simpl in Hrun. injection Hrun as <-. rewrite Hk in Hk'. injection Hk' as Hk'.
    apply (f_equal children) in Hk'. simpl in Hk'. rewrite Hch in Hk'.
    injection Hk' as Hk'. apply app_inv_head in Hk'. destruct rs; [constructor | done]. }
  simpl in Hch, Hnd, Hkout, Hag.
  apply Forall_cons in Hsub as [Hsub_t Hsub_ts].
  apply NoDup_app in Hnd as (Hnd_t & Hdisj & Hnd_ts).
  assert (Hk_t : k ∉ ids t) by (intros H; apply Hkout, elem_of_app; by left).
  assert (Hk_ts : k ∉ flat_map ids ts) by (intros H; apply Hkout, elem_of_app; by right).
  set (cs := skip ++ root t :: (root <$> ts)) in *.
  set (i := length skip).
  assert (Hroots : ∀ t', t' ∈ ts → root t' ∈ flat_map ids ts).
  { intros t' Ht'. apply elem_of_flat_map. exists t'. split; [done | apply root_in_ids]. }
  assert (Hi : cs !! i = Some (root t)).
  { unfold cs, i. by rewrite list_lookup_middle. }
  assert (Huniq : ∀ j, cs !! j = Some (root t) → j = i).
  { intros j Hj. unfold cs in Hj. apply lookup_app_Some in Hj as [Hj|[Hge Hj]].
    - exfalso. rewrite Forall_forall in Hskip. apply (Hskip (root t)).
      + by eapply list_elem_of_lookup_2.
      + simpl. left.
    - fold i in Hge, Hj. destruct (j - i) as [|j'] eqn:Hji; [lia|]. exfalso.
      simpl in Hj. apply list_elem_of_lookup_2 in Hj.
      apply list_elem_of_fmap in Hj as (t' & Heq & Ht').
      apply (Hdisj (root t) (root_in_ids t)). rewrite Heq. by apply Hroots. }
  destruct (Ht m0 d k kn cs i Hsub_t Hnd_t Hk_t Hk Hch Hi Huniq Hb Hpg Hq)
    as (d1 & r & Hrun1 & [Hb1 Hpg1 Hpe1 Hnx1 Hcl1 Hco1 Hfr1 Hpar1 Hslot1 Htext1] & Hmir1).
  { eapply agree_subset; [|exact Hag]. intros x Hx. apply elem_of_app. by left. }
  assert (Hsame : ∀ x, x ∈ flat_map ids ts → nodes d1 !! x = nodes d !! x).
  { intros x Hx. pose proof Hx as Hx0. apply elem_of_flat_map in Hx as (t' & Ht' & Hx).
    rewrite Forall_forall in Hsub_ts. apply Hfr1.
    - intros Hxt. by apply (Hdisj x Hxt).
    - by intros ->.
    - exact (subtree_below d k t' x Hb (Hsub_ts t' Ht') Hx). }
  assert (Hsub1 : Forall (subtree (nodes d1) k) ts).
  { rewrite Forall_forall in Hsub_ts. apply Forall_forall. intros t' Ht'.
    apply (subtree_ext (nodes d)); [|by apply Hsub_ts].
    intros x Hx. apply Hsame. apply elem_of_flat_map. eauto. }
  assert (Hlist : <[i := r]> cs = (skip ++ [r]) ++ (root <$> ts)).
  { unfold cs, i. rewrite insert_app_r_alt by lia. rewrite Nat.sub_diag. simpl.
    by rewrite <- app_assoc. }
  assert (Hskip1 : Forall (λ r', r' ∉ (root <$> ts)) (skip ++ [r])).
  { apply Forall_app. split.
    - eapply Forall_impl; [exact Hskip|]. simpl. intros r' Hr' Hin.
      apply Hr'. by right.
    - apply Forall_singleton. intros Hr. apply list_elem_of_fmap in Hr as (t' & -> & Ht').
      destruct Hslot1 as [Heq|Hge].
      + apply (Hdisj (root t) (root_in_ids t)). rewrite <- Heq. by apply Hroots.
      + rewrite Forall_forall in Hsub_ts.
        pose proof (subtree_below d k t' (root t') Hb (Hsub_ts t' Ht') (root_in_ids t')).
        lia. }
  assert (Hq1 : quiet fault d1) by (by apply (quiet_le fault d)).
  assert (Hch1 : children (set_children (Some (<[i := r]> cs)) kn)
                 = Some ((skip ++ [r]) ++ (root <$> ts))).
  { simpl. by rewrite Hlist. }
  assert (Hag1 : agree m0 (nodes d1) (flat_map ids ts)).
  { eapply agree_frame; [|eapply agree_subset; [|exact Hag]].
    - intros x Hx xn' Hxn'. exists xn'. split; [|done]. by rewrite <- Hsame.
    - intros x Hx. apply elem_of_app. by right. }
  rewrite fmap_cons in Hrun. cbn [for_each] in Hrun.
  rewrite (bind_Normal _ _ _ _ _ Hrun1) in Hrun.
  destruct (visit_kids fault fuel ts
              (Forall_impl _ _ _ Hts (deep_visit_spec fuel))
              d1 k _ (skip ++ [r]) Hpar1 Hch1 Hsub1 Hnd_ts Hk_ts Hskip1 Hb1 Hpg1 Hq1)
    as (d'' & rs'' & Hrun'' & Hb' & Hpg' & Hpe' & Hnx' & Hcl' & Hco' & Hfr' & Hk'' & Hall'').
  rewrite Hrun in Hrun''. injection Hrun'' as <-.
  assert (Hrs : rs = r :: rs'').
  { pose proof Hk'' as Hk2. rewrite Hk' in Hk2. injection Hk2 as Hk2.
    rewrite <- app_assoc in Hk2. by apply app_inv_head in Hk2. }
  subst rs.
  assert (Hk_lt : k < nextId d) by (by eapply bounded_stored).
  constructor.
  - apply (mirrors_frame m0 (nodes d1) (nodes d') (nextId d) (nextId d1)); try done; try lia.
    intros x Hx. apply Hfr'.
    + intros Hin. destruct Hx as [Hx|Hx]; [by apply (Hdisj x Hx)|].
      apply elem_of_flat_map in Hin as (t' & Ht' & Hin).
      rewrite Forall_forall in Hsub_ts.
      pose proof (subtree_below d k t' x Hb (Hsub_ts t' Ht') Hin). lia.
    + intros ->. destruct Hx as [Hx|Hx]; [done | lia].
    + destruct Hx as [Hx|Hx]; [|lia].
      pose proof (subtree_below d k t x Hb Hsub_t Hx). lia.
  - eapply Forall2_impl.
    + apply (IH m0 d1 k (set_children (Some (<[i := r]> cs)) kn) (skip ++ [r])); done.
    + intros t' r' Hm. simpl in Hm.
      apply (mirrors_frame m0 (nodes d') (nodes d') (nextId d1) (nextId d')); try done; lia.
Qed.

Lemma processNode_mirrors t : ∀ fuel, depth t < fuel → deep_spec fault fuel t.
Proof.
  induction t as [k kids IH] using Tree_ind. intros [|fuel] Hfuel; [lia|].
  pose proof (Forall_depth_kids (deep_spec fault) k kids fuel Hfuel IH) as Hkids.
  pose proof (Forall_impl _ _ _ Hkids (deep_visit_spec fuel)) as Hkids_v.
  intros m0 d p pn cs i Hsub Hnd Hpout Hpn Hcs Hi Huniq Hb Hpg Hq Hag.
  destruct (processNode_visits fault (TNode k kids) (S fuel) Hfuel d p pn cs i
              Hsub Hnd Hpout Hpn Hcs Hi Huniq Hb Hpg Hq) as (d' & r & Hrun & Hvis).
  exists d', r. split; [done|]. split; [done|].
  cbn [root] in Hi, Huniq, Hrun.
  apply subtree_inv in Hsub as (kn & Hk & Hp & Hty & Hch & Hleaf & Hsubs).
  destruct (Hag k kn (root_in_ids (TNode k kids)) Hk) as (kn0 & Hk0 & Hsame).
  pose proof (same_but_parent_eq kn0 kn p Hsame Hp) as Hkn.
  assert (Hkp : k ≠ p) by (intros ->; apply Hpout; simpl; left).
  assert (Hk_lt : k < nextId d) by (by eapply bounded_stored).
  assert (Hp_lt : p < nextId d) by (by eapply bounded_stored).
  pose proof (lookup_lt_Some _ _ _ Hi) as Hi_lt.
  pose proof Hnd as Hnd0. simpl in Hnd. apply NoDup_cons in Hnd as [Hk_out Hnd].
  assert (Hp_kids : p ∉ flat_map ids kids).
  { intros Hin. apply Hpout. simpl. by right. }
  assert (Hag_kids : agree m0 (nodes d) (flat_map ids kids)).
  { eapply agree_subset; [|exact Hag]. intros x Hx. simpl. by right. }
  destruct Hvis as [Hb' Hpg' Hpe' Hnx' Hcl' Hco' Hfr' Hpar' Hslot' Htext'].
  destruct (decide (type kn = TEXT)) as [Htext|Hntext].
  { (* a text node *)
    rewrite Htext in Hch, Hleaf. simpl in Hch. rewrite (Hleaf eq_refl) in *.
    destruct (Htext' kn Hk Htext) as (-> & Hg & Hgone).
    apply (mirrors_text _ _ _ _ p k kn0 (nextId d)); try done.
    - by rewrite Hkn in Htext.
    - split; [lia|]. by apply (bounded_stored d' _ _ Hb') in Hg.
    - rewrite Hg. f_equal. by rewrite Hkn. }
  destruct (decide (type kn = INSTANCE)) as [Hinst|Hninst].
  { (* an instance *)
    rewrite Hinst in Hch. simpl in Hch.
    destruct (detached_store d k kn p pn cs i kids Hk Hinst Hp Hch Hsubs Hnd0 Hpout
                Hpn Hcs Hi Hb Hpg) as (Hf1 & Hp1 & Hgone1 & Hsub1 & Hb1 & Hpg1 & Hfr1).
    pose proof (detached_lookup d k kn p pn cs i (root <$> kids)) as Hlook.
    set (d1 := detached d k kn p pn cs i (root <$> kids)) in *.
    assert (Hf_out : nextId d ∉ flat_map ids kids).
    { intros Hin. apply elem_of_flat_map in Hin as (t' & Ht' & Hin).
      rewrite Forall_forall in Hsubs.
      pose proof (subtree_below d k t' _ Hb (Hsubs t' Ht') Hin). lia. }
    assert (Hq1 : quiet fault d1) by (apply (quiet_le fault d); [simpl; lia | done]).
    destruct (visit_kids fault fuel kids Hkids_v d1 (nextId d) _ [] Hf1 eq_refl Hsub1 Hnd
                Hf_out (Forall_nil_2 _) Hb1 Hpg1 Hq1)
      as (d'' & rs & Hrun2 & Hb2 & Hpg2 & Hpe2 & Hnx2 & Hcl2 & Hco2 & Hfr2 & Hk2 & Hall2).
    assert (d'' = d').
    { pose proof (processNode_Normal fault fuel k d d'') as H.
      rewrite (body_instance fault _ k kn p d Hk Hp Hinst) in H.
      rewrite (detach_and_visit_ok fault _ d k kn p pn cs i (root <$> kids)
                 Hk Hinst Hp Hch Hpn Hcs Hi Huniq (bounded_fresh d Hb) Hkp
                 (quiet_now fault d Hq)) in H.
      specialize (H Hrun2). congruence. }
    subst d''.
    assert (Hnext1 : nextId d1 = S (nextId d)) by reflexivity.
    assert (r = nextId d).
    { apply (slot_unique (nodes d') p pn cs i); [done | done |].
      rewrite Hfr2; [done | done | lia | simpl; lia]. }
    subst r.
    assert (Hag1 : agree m0 (nodes d1) (flat_map ids kids)).
    { eapply agree_frame; [|exact Hag_kids]. intros x Hx xn1 Hxn1.
      rewrite Hlook in Hxn1.
      - destruct (nodes d !! x) as [xn|]; [|done]. simpl in Hxn1. injection Hxn1 as <-.
        exists xn. split; [done|]. by destruct (decide (x ∈ root <$> kids)).
      - by intros ->.
      - by intros ->.
      - by intros ->. }
    apply (mirrors_instance _ _ _ _ p k kn0 kids (nextId d) rs); try done.
    - by rewrite Hkn in Hinst.
    - rewrite Hk2. f_equal. by rewrite Hkn.
    - rewrite Hfr2; [done | done | lia | simpl; lia].
    - eapply Forall2_impl.
      + exact (visit_kids_deep fuel kids Hkids m0 d1 (nextId d) _ [] Hf1 eq_refl Hsub1 Hnd
                 Hf_out (Forall_nil_2 _) Hb1 Hpg1 Hq1 Hag1 d' rs Hrun2 Hk2).
      + intros t' r' Hm. simpl in Hm.
        apply (mirrors_frame m0 (nodes d') (nodes d') (S (nextId d)) (nextId d'));
          try done; lia. }
  (* any other node *)
  assert (Hty0 : type kn0 = type kn) by (by rewrite Hkn).
  assert (Hch0 : children kn0 = children kn) by (by rewrite Hkn).
  destruct (container (type kn)) eqn:Hcont.
  - destruct (visit_kids fault fuel kids Hkids_v d k kn [] Hk Hch Hsubs Hnd Hk_out
                (Forall_nil_2 _) Hb Hpg Hq)
      as (d'' & rs & Hrun2 & Hb2 & Hpg2 & Hpe2 & Hnx2 & Hcl2 & Hco2 & Hfr2 & Hk2 & Hall2).
    assert (d'' = d').
    { pose proof (processNode_Normal fault fuel k d d'') as H.
      rewrite (body_other fault _ k kn p d Hk Hp Hninst Hntext), Hch in H.
      specialize (H Hrun2). congruence. }
    subst d''.
    assert (r = k).
    { rewrite Hfr2 in Hpar' by done. rewrite Hpn in Hpar'. injection Hpar' as Hpar'.
      apply (f_equal children) in Hpar'. simpl in Hpar'. rewrite Hcs in Hpar'.
      injection Hpar' as Hpar'. apply (f_equal (λ l, l !! i)) in Hpar'.
      rewrite list_lookup_insert_eq in Hpar' by done. congruence. }
    subst r.
    apply (mirrors_other _ _ _ _ p k kn0 kids rs); try congruence.
    + rewrite Hk2. f_equal. rewrite Hch0, Hch, Hkn. reflexivity.
    + exact (visit_kids_deep fuel kids Hkids m0 d k kn [] Hk Hch Hsubs Hnd
               Hk_out (Forall_nil_2 _) Hb Hpg Hq Hag_kids d' rs Hrun2 Hk2).
  - rewrite (Hleaf eq_refl) in *.
    assert (d' = d).
    { pose proof (processNode_Normal fault fuel k d d) as H.
      rewrite (body_other fault _ k kn p d Hk Hp Hninst Hntext), Hch in H.
      specialize (H eq_refl). congruence. }
    subst d'.
    assert (r = k).
    { rewrite Hpn in Hpar'. injection Hpar' as Hpar'.
      apply (f_equal children) in Hpar'. simpl in Hpar'. rewrite Hcs in Hpar'.
      injection Hpar' as Hpar'. apply (f_equal (λ l, l !! i)) in Hpar'.
      rewrite list_lookup_insert_eq in Hpar' by done. congruence. }
    subst r.
    apply (mirrors_other _ _ _ _ p k kn0 [] []); try congruence; [|constructor].
    rewrite Hk. f_equal. rewrite Hch0, Hch. simpl.
    replace (set_children None kn0) with kn0; [done|].
    rewrite <- (set_children_same kn0) at 1. by rewrite Hch0, Hch.
Qed.

End Deep.

Lemma settled_mono m h h' k : h ≤ h' → settled m h k → settled m h' k.
Proof.
  revert h k. induction h' as [|h' IH]; intros h k Hle Hs.
  - inversion Hs; subst. lia.
  - inversion Hs as [h0 k0 kn Hk Ht Hi Hkids]; subst.
    apply (settled_node m h' k kn); try done.
    eapply Forall_impl; [exact Hkids|]. intros c Hc. apply (IH h0); [lia | done].
Qed.

Lemma depth_kids_le k kids t : t ∈ kids → depth t ≤ depth (TNode k kids) - 1.
Proof. intros Ht. pose proof (depth_kid k kids t Ht). lia. Qed.

Lemma mirrors_settled m m' lo hi t : ∀ p r,
  mirrors m m' lo hi p t r → settled m' (depth t) r.
Proof.
  induction t as [k kids IH] using Tree_ind. intros p r Hm.
  assert (Hkids : ∀ q rs, Forall2 (mirrors m m' lo hi q) kids rs →
            Forall (settled m' (depth (TNode k kids) - 1)) rs).
  { intros q rs Hall. apply Forall_forall. intros r' Hr'.
    apply list_elem_of_lookup in Hr' as [j Hj].
    destruct (Forall2_lookup_r _ _ _ _ _ Hall Hj) as (t' & Ht' & Hm').
    apply list_elem_of_lookup_2 in Ht'. rewrite Forall_forall in IH.
    apply (settled_mono m' (depth t')); [by apply depth_kids_le | by eapply IH]. }
  assert (Hd : depth (TNode k kids) = S (depth (TNode k kids) - 1)) by (simpl; lia).
  rewrite Hd.
  apply mirrors_inv in Hm as (kn & Hkn & [H|[H|H]]).
  - destruct H as (Hty & -> & Hr & Hg & Hgone).
    by apply (settled_node m' _ r (ghost_of kn p)); [| | |constructor].
  - destruct H as (Hty & Hr & Hgone & rs & Hf & Hall).
    eapply (settled_node m' _ r); [exact Hf | done | done |]. simpl. by eapply Hkids.
  - destruct H as (Hty & Hty' & -> & rs & Hk' & Hall).
    eapply (settled_node m' _ k); [exact Hk' | done | done |]. simpl.
    destruct (children kn); simpl; [by eapply Hkids | constructor].
Qed.

Lemma for_each_noop (visit : NodeId → M unit) l d :
  Forall (λ c, visit c d = (d, Normal tt)) l → for_each visit l d = (d, Normal tt).
Proof.
  induction 1 as [|c l Hc _ IH]; [done|]. simpl. by rewrite (bind_Normal _ _ _ _ _ Hc).
Qed.

Lemma settled_noop (fault : nat → bool) fuel : ∀ h k d,
  settled (nodes d) h k → h ≤ fuel → processNode fault fuel k d = (d, Normal tt).
Proof.
  induction fuel as [|fuel IH]; intros h k d Hs Hle.
  - inversion Hs; subst. lia.
  - inversion Hs as [h0 k0 kn Hk Ht Hi Hkids]; subst.
    apply processNode_Normal.
    destruct (parent kn) as [p|] eqn:Hp; [|by apply (body_removed fault _ k kn)].
    rewrite (body_other fault _ k kn p d Hk Hp Hi Ht).
    apply for_each_noop. eapply Forall_impl; [exact Hkids|].
    intros c Hc. apply (IH h0); [done | lia].
Qed.

Lemma sample_subtree sel : subtree (nodes (sample_doc sel)) 0 sample_tree.
Proof.
  eapply (subtree_node _ 0 1 _ [TNode 2 []; TNode 3 sample_instance_kids; TNode 4 []]);
    [reflexivity | reflexivity | | reflexivity | done |].
  { unfold typed. simpl. split; [done | eauto]. }
  repeat constructor.
  - eapply (subtree_node _ 1 2 _ []); [reflexivity | reflexivity | | reflexivity | done |
                                        constructor].
    unfold typed. simpl. split; [intros [? ?]; done | done].
  - eapply (subtree_node _ 1 3 _ sample_instance_kids);
      [reflexivity | reflexivity | | reflexivity | done | apply sample_instance_subtrees].
    unfold typed. simpl. split; [done | eauto].
  - eapply (subtree_node _ 1 4 _ []); [reflexivity | reflexivity | | reflexivity | done |
                                        constructor].
    unfold typed. simpl. split; [intros [? ?]; done | done].
Qed.

(** X12. With a host that accepts the calls, the visit of a subtree converts all
    of it: the node left at the place of the root is what [mirrors]
    describes, down to the leaves.  Every text node, at any depth, has become
    its placeholder at the same index of its parent; every instance a frame
    whose children were visited in turn; the other nodes keep their records
    but for their child lists.  Outside the subtree and its parent the
    document is unchanged, and nothing is logged. *)
Theorem processNode_subtree (fault : nat → bool) (fuel : nat) (d : Doc)
    (p : NodeId) (pn : Node) (cs : list NodeId) (i : nat) (t : Tree)
    (Hsub : subtree (nodes d) p t) (Hnd : NoDup (ids t)) (Hpout : p ∉ ids t)
    (Hpn : nodes d !! p = Some pn) (Hcs : children pn = Some cs)
    (Hi : cs !! i = Some (root t)) (Huniq : ∀ j, cs !! j = Some (root t) → j = i)
    (Hb : bounded d) (Hpg : page_ok d) (Hq : quiet fault d)
    (Hfuel : depth t < fuel) :
  ∃ d' r,
    processNode fault fuel (root t) d = (d', Normal tt)
    ∧ nodes d' !! p ≫= children = Some (<[i := r]> cs)
    ∧ mirrors (nodes d) (nodes d') (nextId d) (nextId d') p t r
    ∧ (∀ k, k ∉ ids t → k ≠ p → k < nextId d → nodes d' !! k = nodes d !! k)
    ∧ console d' = console d.
Proof.
  destruct (processNode_mirrors fault t fuel Hfuel (nodes d) d p pn cs i Hsub Hnd Hpout
              Hpn Hcs Hi Huniq Hb Hpg Hq) as (d' & r & Hrun & Hvis & Hmir).
  { intros k kn _ Hk. eauto. }
  destruct Hvis as [Hb' Hpg' Hpe' Hnx' Hcl' Hco' Hfr' Hpar' Hslot' Htext'].
  exists d', r. split; [done|]. split_and!; try done.
  by rewrite Hpar'.
Qed.

Lemma processNode_subtree_witness :
  ∃ d' r,
    processNode no_fault 5 1 (sample_doc [1]) = (d', Normal tt)
    ∧ nodes d' !! 0 ≫= children = Some [r]
    ∧ mirrors sample_nodes (nodes d') 8 (nextId d') 0 sample_tree r.
Proof.
  destruct (processNode_subtree no_fault 5 (sample_doc [1]) 0
              (sample_node PAGE "Page" None (Some [1])) [1] 0 sample_tree
              (sample_subtree [1]))
    as (d' & r & Hrun & Hpage & Hmir & _).
  - apply (bool_decide_unpack _). vm_compute. exact I.
  - apply (bool_decide_unpack _). vm_compute. exact I.
  - reflexivity.
  - reflexivity.
  - reflexivity.
  - intros [|j] Hj; simpl in Hj; [done | by destruct j].
  - apply sample_bounded.
  - apply sample_page_ok.
  - apply quiet_no_fault.
  - simpl. lia.
  - exists d', r. split; [exact Hrun|]. split; [exact Hpage|]. exact Hmir.
Defined.

(** X13. With a host that accepts the calls, the visit of a subtree leaves no
    text node and no instance behind: below the node now at the place of the
    root, every node is of another type. *)
Theorem processNode_leaves_no_text (fault : nat → bool) (fuel : nat) (d : Doc)
    (p : NodeId) (pn : Node) (cs : list NodeId) (i : nat) (t : Tree)
    (Hsub : subtree (nodes d) p t) (Hnd : NoDup (ids t)) (Hpout : p ∉ ids t)
    (Hpn : nodes d !! p = Some pn) (Hcs : children pn = Some cs)
    (Hi : cs !! i = Some (root t)) (Huniq : ∀ j, cs !! j = Some (root t) → j = i)
    (Hb : bounded d) (Hpg : page_ok d) (Hq : quiet fault d)
    (Hfuel : depth t < fuel) :
  ∃ d' r,
    processNode fault fuel (root t) d = (d', Normal tt)
    ∧ nodes d' !! p ≫= children = Some (<[i := r]> cs)
    ∧ settled (nodes d') (depth t) r.
Proof.
  destruct (processNode_mirrors fault t fuel Hfuel (nodes d) d p pn cs i Hsub Hnd Hpout
              Hpn Hcs Hi Huniq Hb Hpg Hq) as (d' & r & Hrun & Hvis & Hmir).
  { intros k kn _ Hk. eauto. }
  destruct Hvis as [Hb' Hpg' Hpe' Hnx' Hcl' Hco' Hfr' Hpar' Hslot' Htext'].
  exists d', r. split; [done|]. split; [by rewrite Hpar'|].
  by eapply mirrors_settled.
Qed.

Lemma processNode_leaves_no_text_witness :
  ∃ d' r,
    processNode no_fault 5 1 (sample_doc [1]) = (d', Normal tt)
    ∧ nodes d' !! 0 ≫= children = Some [r]
    ∧ settled (nodes d') 4 r.
Proof.
  destruct (processNode_leaves_no_text no_fault 5 (sample_doc [1]) 0
              (sample_node PAGE "Page" None (Some [1])) [1] 0 sample_tree
              (sample_subtree [1]))
    as (d' & r & Hrun & Hpage & Hset).
  - apply (bool_decide_unpack _). vm_compute. exact I.
  - apply (bool_decide_unpack _). vm_compute. exact I.
  - reflexivity.
  - reflexivity.
  - reflexivity.
  - intros [|j] Hj; simpl in Hj; [done | by destruct j].
  - apply sample_bounded.
  - apply sample_page_ok.
  - apply quiet_no_fault.
  - simpl. lia.
  - exists d', r. split; [exact Hrun|]. split; [exact Hpage|]. exact Hset.
Defined.

(** X14. A subtree without text nodes and instances is left alone: the visit
    makes no host call and changes nothing, so it returns the session as it
    was even with a host that would reject every call. *)
Theorem processNode_settled_unchanged (fault : nat → bool) (fuel h : nat) (d : Doc)
    (k : NodeId)
    (Hsettled : settled (nodes d) h k) (Hfuel : h ≤ fuel) :
  processNode fault fuel k d = (d, Normal tt).
Proof. by apply (settled_noop fault fuel h). Qed.

Lemma processNode_settled_unchanged_witness :
  processNode (λ _, true) 2 4 (sample_doc [4]) = (sample_doc [4], Normal tt).
Proof.
  apply (processNode_settled_unchanged (λ _, true) 2 1 (sample_doc [4]) 4); [|lia].
  by apply (settled_node _ 0 4 (sample_node RECTANGLE "Divider" (Some 1) None));
    [| | |constructor].
Defined.

(** ** The main program closes the plugin on every path *)

(** X15. However the run ends and whichever host calls fail, the main program
    closes the plugin: once when nodes are selected, twice when the
    selection is empty (in the branch and again in the final block). *)
Theorem main_closes_plugin (fault : nat → bool) (fuel : nat) (d : Doc) :
  closeCalls (main fault fuel d).1
  = closeCalls d + (if decide (length (selection d) = 0) then 2 else 1).
Proof.
  unfold main, try_finally, try_catch.
  destruct (decide (length (selection d) = 0)) as [Hsel|Hsel]; [simpl; lia|].
  unfold bind at 1.
  destruct (discreet_for_each (processNode fault fuel) (selection d)
              (discreet_processNode fault fuel) d) as (_ & Hclose & _).
  destruct (for_each (processNode fault fuel) (selection d) d) as [d1 [[]|e|]];
    simpl in *; lia.
Qed.

(** ** The main program on a selected subtree *)

(** X16. With one node selected and a host that accepts the calls, the main
    program converts the whole subtree of that node, logs nothing, shows the
    success notification and closes the plugin once. *)
Theorem main_converts_selection (fault : nat → bool) (fuel : nat) (d : Doc)
    (p : NodeId) (pn : Node) (cs : list NodeId) (i : nat) (t : Tree)
    (Hsel : selection d = [root t])
    (Hsub : subtree (nodes d) p t) (Hnd : NoDup (ids t)) (Hpout : p ∉ ids t)
    (Hpn : nodes d !! p = Some pn) (Hcs : children pn = Some cs)
    (Hi : cs !! i = Some (root t)) (Huniq : ∀ j, cs !! j = Some (root t) → j = i)
    (Hb : bounded d) (Hpg : page_ok d) (Hq : quiet fault d)
    (Hfuel : depth t < fuel) :
  ∃ d' r,
    main fault fuel d = (d', Normal tt)
    ∧ nodes d' !! p ≫= children = Some (<[i := r]> cs)
    ∧ mirrors (nodes d) (nodes d') (nextId d) (nextId d') p t r
    ∧ console d' = console d
    ∧ notifications d' = notifications d ++ [success]
    ∧ closeCalls d' = S (closeCalls d).
Proof.
  destruct (processNode_mirrors fault t fuel Hfuel (nodes d) d p pn cs i Hsub Hnd Hpout
              Hpn Hcs Hi Huniq Hb Hpg Hq) as (d1 & r & Hrun & Hvis & Hmir).
  { intros k kn _ Hk. eauto. }
  destruct Hvis as [Hb' Hpg' Hpe' Hnx' Hcl' Hco' Hfr' Hpar' Hslot' Htext'].
  pose proof (discreet_processNode fault fuel (root t) d) as (Hnote & Hclose & _).
  rewrite Hrun in Hnote, Hclose. simpl in Hnote, Hclose.
  eexists _, r. split.
  { assert (Hloop : for_each (processNode fault fuel) (selection d) d = (d1, Normal tt)).
    { rewrite Hsel. cbn [for_each]. by rewrite (bind_Normal _ _ _ _ _ Hrun). }
    unfold main, try_finally, try_catch.
    rewrite decide_False by (by rewrite Hsel).
    rewrite (bind_Normal _ _ _ _ _ Hloop). reflexivity. }
  simpl. split_and!; try done; try congruence.
  by rewrite Hpar'.
Qed.

Lemma main_converts_selection_witness :
  ∃ d' r,
    main no_fault 5 (sample_doc [1]) = (d', Normal tt)
    ∧ nodes d' !! 0 ≫= children = Some [r]
    ∧ mirrors sample_nodes (nodes d') 8 (nextId d') 0 sample_tree r
    ∧ console d' = []
    ∧ notifications d' = [success].
Proof.
  destruct (main_converts_selection no_fault 5 (sample_doc [1]) 0
              (sample_node PAGE "Page" None (Some [1])) [1] 0 sample_tree eq_refl
              (sample_subtree [1]))
    as (d' & r & Hrun & Hpage & Hmir & Hcons & Hnote & _).
  - apply (bool_decide_unpack _). vm_compute. exact I.
  - apply (bool_decide_unpack _). vm_compute. exact I.
  - reflexivity.
  - reflexivity.
  - reflexivity.
  - intros [|j] Hj; simpl in Hj; [done | by destruct j].
  - apply sample_bounded.
  - apply sample_page_ok.
  - apply quiet_no_fault.
  - simpl. lia.
  - exists d', r. split; [exact Hrun|]. split; [exact Hpage|]. split; [exact Hmir|].
    split; [exact Hcons | exact Hnote].
Defined.
